(** * Diarization benchmark: the evaluation core of [benchmark/evaluation/metrics.py]

    A shallow embedding of the format adapters ([rttm_to_annotation],
    [hypothesis_to_annotation]) and of [MetricAggregator], with the
    properties the specification states about them; and a model of the
    scoring engine of section 4.2 of the specification, for the
    properties of [compute_der] and [compute_jer], which the code
    delegates to [pyannote.metrics].  After them come the wrappers
    [compute_der], [compute_jer] and [compute_all_metrics] around the
    error rates, the store of [MetricAggregator], and the code around the
    core: the file names of the runners and of the scripts, the test data
    of [scripts/generate_test_data.py], [scripts/setup_ami.py],
    [DatabaseManager.session], [scheduler.py] and [MockDiarizer].

    Conventions.
    - A Python [str] is a [string]; each [ascii] stands for one code point
      (0..255), so the whitespace predicate is Python's [str.isspace] on
      that range.
    - A call that can raise returns a [result]: [Ok v] or [Raise e].
    - Python's [float] is abstract ([PyFloat]): the theorems hold for every
      implementation of the conversions and of the arithmetic.  The
      instance [Binary64] (IEEE 754 double precision, round to nearest
      even, on [SpecFloat]) is used to evaluate concrete inputs. *)

From Stdlib Require Import ZArith NArith QArith Qminmax Bool Ascii String List Lia Lqa.
From Stdlib Require Import Floats.SpecFloat Sorting.Sorted DecimalString.
From stdpp Require Import base option list gmap strings.

Import ListNotations.
Local Open Scope string_scope.
Local Open Scope list_scope.

(** ** Exceptions and results *)

Inductive exn : Type :=
| ValueError
| KeyError (key : string)
| IndexError
| TypeError
| AttributeError
| OverflowError
| StatisticsError.

Inductive result (A : Type) : Type :=
| Ok (a : A)
| Raise (e : exn).

Arguments Ok {A} a.
Arguments Raise {A} e.

#[global] Instance result_ret : MRet result := fun _ a => Ok a.

#[global] Instance result_bind : MBind result := fun _ _ k r =>
  match r with
  | Ok a => k a
  | Raise e => Raise e
  end.

(** [o] when it holds a value, the exception [e] otherwise. *)
Definition or_raise {A : Type} (e : exn) (o : option A) : result A :=
  match o with
  | Some a => Ok a
  | None => Raise e
  end.

(** ** Python strings *)

Module PyStr.

(** [str.isspace] on one character: TAB..CR, FS..US, SPACE, NEL, NBSP. *)
Definition isspace (c : ascii) : bool :=
  let n := N_of_ascii c in
  ((9 <=? n) && (n <=? 13) || (28 <=? n) && (n <=? 32)
   || (n =? 133) || (n =? 160))%N.

Fixpoint lstrip (s : string) : string :=
  match s with
  | EmptyString => EmptyString
  | String c s' => if isspace c then lstrip s' else s
  end.

Fixpoint rstrip (s : string) : string :=
  match s with
  | EmptyString => EmptyString
  | String c s' =>
      match rstrip s' with
      | EmptyString => if isspace c then EmptyString else String c EmptyString
      | r => String c r
      end
  end.

(** [s.strip()] *)
Definition strip (s : string) : string := rstrip (lstrip s).

(** [s.startswith(p)] *)
Fixpoint startswith (s p : string) : bool :=
  match p, s with
  | EmptyString, _ => true
  | String _ _, EmptyString => false
  | String a p', String b s' => Ascii.eqb a b && startswith s' p'
  end.

(** [s.split()] with no separator: the maximal runs of non-whitespace. *)
Fixpoint split (s : string) : list string :=
  match s with
  | EmptyString => []
  | String c s' =>
      if isspace c then split s'
      else
        match s' with
        | EmptyString => [String c EmptyString]
        | String c' _ =>
            if isspace c' then String c EmptyString :: split s'
            else
              match split s' with
              | w :: ws => String c w :: ws
              | [] => [String c EmptyString]
              end
        end
  end.

Definition LF : ascii := Ascii.ascii_of_nat 10.
Definition CR : ascii := Ascii.ascii_of_nat 13.

Fixpoint rev_string (acc : list ascii) (tl : string) : string :=
  match acc with
  | [] => tl
  | c :: acc' => rev_string acc' (String c tl)
  end.

(** The lines a text-mode file yields when iterated ([for line in f]),
    with universal newlines: a line ends after LF, CR or CR LF, and the
    terminator is handed over as a single LF.  [cur] holds the characters
    of the line being read, last one first. *)
Fixpoint lines_from (cur : list ascii) (s : string) : list string :=
  match s with
  | EmptyString =>
      match cur with
      | [] => []
      | _ => [rev_string cur EmptyString]
      end
  | String c s' =>
      if Ascii.eqb c LF then
        rev_string (LF :: cur) EmptyString :: lines_from [] s'
      else if Ascii.eqb c CR then
        match s' with
        | String c' s'' =>
            if Ascii.eqb c' LF
            then rev_string (LF :: cur) EmptyString :: lines_from [] s''
            else rev_string (LF :: cur) EmptyString :: lines_from [] s'
        | EmptyString => [rev_string (LF :: cur) EmptyString]
        end
      else lines_from (c :: cur) s'
  end.

Definition file_lines (text : string) : list string := lines_from [] text.

End PyStr.

(** ** Python floats, abstractly *)

Class PyFloat : Type := {
  float : Type;
  (** [float(s)] for a [str]; [None] stands for [ValueError]. *)
  float_of_str : string -> option float;
  (** [float(n)] for an [int]; [None] stands for [OverflowError]. *)
  float_of_int : Z -> option float;
  (** [x + y] *)
  float_add : float -> float -> float;
  (** [x < y] *)
  float_lt : float -> float -> bool;
  (** the literal [0.0] *)
  float_zero : float
}.

(** ** IEEE 754 double precision

    CPython's [float] on the usual platforms: binary64, every conversion
    and operation rounded to nearest, ties to even. *)

Module Binary64.

Definition prec : Z := 53.
Definition emax : Z := 1024.

(** The double nearest to [(-1)^neg * m * 10^e]. *)
Definition of_decimal (neg : bool) (m : N) (e : Z) : spec_float :=
  match m with
  | N0 => S754_zero neg
  | Npos p =>
      match e with
      | Zneg k =>
          SFdiv prec emax (S754_finite neg p 0)
                (S754_finite false (Pos.pow 10 k) 0)
      | _ => binary_normalize prec emax (cond_Zopp neg (Zpos p * 10 ^ e)) 0 false
      end
  end.

Definition digit_of (c : ascii) : option N :=
  let n := N_of_ascii c in
  if ((48 <=? n) && (n <=? 57))%N then Some (n - 48)%N else None.

Definition is_digit (c : ascii) : bool :=
  match digit_of c with Some _ => true | None => false end.

(** Reads a run of digits, in which single underscores may separate
    digits: the number read so far, how many digits it has, and the rest
    of the string. *)
Fixpoint read_digits (acc : N) (cnt : nat) (s : string) : N * nat * string :=
  match s with
  | EmptyString => (acc, cnt, s)
  | String c s' =>
      match digit_of c with
      | Some d => read_digits (10 * acc + d)%N (S cnt) s'
      | None =>
          if Ascii.eqb c "_" && (0 <? cnt)%nat then
            match s' with
            | String c' _ =>
                if is_digit c' then read_digits acc cnt s' else (acc, cnt, s)
            | EmptyString => (acc, cnt, s)
            end
          else (acc, cnt, s)
      end
  end.

Definition read_sign (s : string) : bool * string :=
  match s with
  | String "-" s' => (true, s')
  | String "+" s' => (false, s')
  | _ => (false, s)
  end.

Definition lower (c : ascii) : ascii :=
  let n := N_of_ascii c in
  if ((65 <=? n) && (n <=? 90))%N then ascii_of_N (n + 32) else c.

Fixpoint lowercase (s : string) : string :=
  match s with
  | EmptyString => EmptyString
  | String c s' => String (lower c) (lowercase s')
  end.

(** The exponent part, when there is one: [e], [E], a sign, digits. *)
Definition read_exponent (s : string) : option Z :=
  match s with
  | EmptyString => Some 0%Z
  | String c s' =>
      if Ascii.eqb (lower c) "e" then
        let '(neg, s'') := read_sign s' in
        match read_digits 0 0 s'' with
        | (_, O, _) => None
        | (n, _, EmptyString) => Some (cond_Zopp neg (Z.of_N n))
        | _ => None
        end
      else None
  end.

(** [float(s)] for a [str]: surrounding whitespace, a sign, then
    [inf], [infinity], [nan], or a decimal number with an optional
    fraction and exponent. *)
Definition of_string (s : string) : option spec_float :=
  let '(neg, body) := read_sign (PyStr.strip s) in
  let word := lowercase body in
  if String.eqb word "inf" || String.eqb word "infinity" then Some (S754_infinity neg)
  else if String.eqb word "nan" then Some S754_nan
  else
    let '(int_part, n_int, rest) := read_digits 0 0 body in
    let '(mant, n_frac, rest') :=
      match rest with
      | String "." after => read_digits int_part 0 after
      | _ => (int_part, O, rest)
      end in
    match (n_int + n_frac)%nat with
    | O => None
    | _ =>
        e ← read_exponent rest';
        Some (of_decimal neg mant (e - Z.of_nat n_frac))
    end.

(** [float(n)] for an [int]: the nearest double, [OverflowError] beyond
    the range. *)
Definition of_int (n : Z) : option spec_float :=
  match binary_normalize prec emax n 0 false with
  | S754_infinity _ => None
  | x => Some x
  end.

End Binary64.

#[local] Instance Binary64_float : PyFloat := {|
  float := spec_float;
  float_of_str := Binary64.of_string;
  float_of_int := Binary64.of_int;
  float_add := SFadd Binary64.prec Binary64.emax;
  float_lt := SFltb;
  float_zero := S754_zero false
|}.

(** ** Python values

    The values the adapters move around ([Any]): containers are held by
    value, since the adapters only read them. *)

#[warning="-register-all"]
Inductive pyval `{PyFloat} : Type :=
| VNone
| VBool (b : bool)
| VInt (z : Z)
| VFloat (x : float)
| VStr (s : string)
| VList (l : list pyval)
| VDict (d : gmap string pyval).

(** [Segment(start, end)] of [pyannote.core]: the pair of its two fields. *)
Record Segment `{PyFloat} : Type := mkSegment {
  seg_start : pyval;
  seg_end : pyval
}.

Arguments mkSegment {_} seg_start seg_end.

(** [Annotation] of [pyannote.core] is not part of the repository: the
    adapters use its constructor and [annotation[segment] = label] only,
    and both are taken as they come. *)
Class AnnotationT `{PyFloat} : Type := {
  annotation : Type;
  Annotation_new : annotation;
  Annotation_setitem : annotation -> Segment -> pyval -> annotation
}.

(** Modelled from the spec: the Segment Timeline of section 3, "an ordered
    collection of (time-interval, speaker-label) assignments" that "does not
    auto-merge"; the class [Annotation] of [pyannote.core] itself is
    missing.  Inserting a Labeled Segment appends it. *)
Definition Timeline `{PyFloat} : AnnotationT := {|
  annotation := list (Segment * pyval);
  Annotation_new := [];
  Annotation_setitem := fun a seg label => a ++ [(seg, label)]
|}.

(** ** The format adapters of [DiarizationMetrics] *)

Module DiarizationMetrics.
Import PyStr.

Section Adapters.
Context `{FL : PyFloat} `{AN : !AnnotationT}.

(** [parts[i]] on a list *)
Definition getitem (parts : list string) (i : nat) : result string :=
  or_raise IndexError (parts !! i).

(** [float(s)] on a [str] *)
Definition py_float (s : string) : result float :=
  or_raise ValueError (float_of_str s).

(** The body of the loop of [rttm_to_annotation]: [Ok] with the
    annotation unchanged is a [continue]. *)
Definition rttm_line (ann : annotation) (line : string) : result annotation :=
  let line := strip line in
  if String.eqb line "" || startswith line "#" then Ok ann
  else
    let parts := split line in
    if (List.length parts <? 8)%nat then Ok ann
    else
      tag ← getitem parts 0;
      if negb (String.eqb tag "SPEAKER") then Ok ann
      else
        start ← getitem parts 3 ≫= py_float;
        duration ← getitem parts 4 ≫= py_float;
        speaker ← getitem parts 7;
        let segment := mkSegment (VFloat start) (VFloat (float_add start duration)) in
        Ok (Annotation_setitem ann segment (VStr speaker)).

Fixpoint rttm_loop (ann : annotation) (lines : list string) : result annotation :=
  match lines with
  | [] => Ok ann
  | line :: rest => ann' ← rttm_line ann line; rttm_loop ann' rest
  end.

(** [rttm_to_annotation(rttm_path)], on the text of the file at
    [rttm_path]. *)
Definition rttm_to_annotation (text : string) : result annotation :=
  rttm_loop Annotation_new (file_lines text).

(** What the parser is specified to do with one line: the
    whitespace-separated fields, the lines it skips, and the Labeled
    Segment of a line it keeps. *)
Definition fields (line : string) : list string := split line.

Definition is_blank (line : string) : bool := String.eqb (strip line) "".

Definition is_comment (line : string) : bool := startswith (strip line) "#".

Definition is_speaker (line : string) : bool :=
  match fields line !! 0%nat with
  | Some tag => String.eqb tag "SPEAKER"
  | None => false
  end.

Definition skipped (line : string) : bool :=
  is_blank line || is_comment line
  || (List.length (fields line) <? 8)%nat || negb (is_speaker line).

Definition field (line : string) (i : nat) : string :=
  default "" (fields line !! i).

(** Fields 4, 5 and 8 (counted from 1) as (start, start + duration,
    speaker); [None] when field 4 or field 5 is no float. *)
Definition line_segment (line : string) : option (Segment * pyval) :=
  start ← float_of_str (field line 3);
  duration ← float_of_str (field line 4);
  Some (mkSegment (VFloat start) (VFloat (float_add start duration)),
        VStr (field line 7)).

Definition insert_all (ann : annotation) (segs : list (Segment * pyval))
  : annotation :=
  foldl (fun a sl => Annotation_setitem a sl.1 sl.2) ann segs.

Definition kept_lines (text : string) : list string :=
  filter (fun line => skipped line = false) (file_lines text).

(** [hypothesis.get("segments", [])] *)
Definition get_segments (hypothesis : gmap string pyval) : pyval :=
  default (VList []) (hypothesis !! "segments").

(** The items a [for] loop draws from a value. *)
Definition py_iter (v : pyval) : result (list pyval) :=
  match v with
  | VList l => Ok l
  | VDict d => Ok (VStr <$> (map_to_list d).*1)
  | VStr s => Ok ((fun c => VStr (String c EmptyString)) <$> list_ascii_of_string s)
  | _ => Raise TypeError
  end.

(** [v[key]] for a [str] key *)
Definition subscript (v : pyval) (key : string) : result pyval :=
  match v with
  | VDict d => or_raise (KeyError key) (d !! key)
  | _ => Raise TypeError
  end.

Definition hypothesis_entry (ann : annotation) (segment_data : pyval)
  : result annotation :=
  start ← subscript segment_data "start";
  end_ ← subscript segment_data "end";
  speaker ← subscript segment_data "speaker";
  let segment := mkSegment start end_ in
  Ok (Annotation_setitem ann segment speaker).

Fixpoint hypothesis_loop (ann : annotation) (items : list pyval)
  : result annotation :=
  match items with
  | [] => Ok ann
  | segment_data :: rest =>
      ann' ← hypothesis_entry ann segment_data; hypothesis_loop ann' rest
  end.

(** [hypothesis_to_annotation(hypothesis)] *)
Definition hypothesis_to_annotation (hypothesis : gmap string pyval)
  : result annotation :=
  items ← py_iter (get_segments hypothesis);
  hypothesis_loop Annotation_new items.

(** What a segment entry of a hypothesis record is specified to give:
    its three fields, or the [KeyError] of the first one it lacks. *)
Definition lacks_field (entry : gmap string pyval) : Prop :=
  entry !! "start" = None \/ entry !! "end" = None \/ entry !! "speaker" = None.

Definition entry_segment (entry : gmap string pyval) : result (Segment * pyval) :=
  start ← or_raise (KeyError "start") (entry !! "start");
  end_ ← or_raise (KeyError "end") (entry !! "end");
  speaker ← or_raise (KeyError "speaker") (entry !! "speaker");
  Ok (mkSegment start end_, speaker).

End Adapters.

(** *** Facts on [strip] and [split] *)

Lemma startswith_empty (s : string) : startswith s "" = true.
Proof. destruct s; reflexivity. Qed.

Lemma split_cons (c : ascii) (s : string) :
  split (String c s) =
  if isspace c then split s
  else match s with
       | EmptyString => [String c EmptyString]
       | String c' _ =>
           if isspace c' then String c EmptyString :: split s
           else match split s with
                | w :: ws => String c w :: ws
                | [] => [String c EmptyString]
                end
       end.
Proof. reflexivity. Qed.

Lemma split_lstrip (s : string) : split (lstrip s) = split s.
Proof.
  induction s as [|c s IH]; [reflexivity|].
  cbn [lstrip]. destruct (isspace c) eqn:Hc; [|reflexivity].
  rewrite IH. cbn [split]. rewrite Hc. reflexivity.
Qed.

Lemma rstrip_head (c : ascii) (s : string) (d : ascii) (r : string) :
  rstrip (String c s) = String d r -> d = c.
Proof.
  simpl. destruct (rstrip s); [destruct (isspace c)|]; congruence.
Qed.

Lemma rstrip_empty_split (s : string) : rstrip s = "" -> split s = [].
Proof.
  induction s as [|c s IH]; simpl; [reflexivity|].
  destruct (rstrip s) eqn:E; [|discriminate].
  destruct (isspace c); [intros _; auto | discriminate].
Qed.

Lemma rstrip_empty_head (c : ascii) (s : string) :
  rstrip (String c s) = "" -> isspace c = true.
Proof.
  simpl. destruct (rstrip s); [destruct (isspace c)|]; congruence.
Qed.

Lemma split_rstrip (s : string) : split (rstrip s) = split s.
Proof.
  induction s as [|c s IH]; [reflexivity|].
  change (rstrip (String c s)) with
    (match rstrip s with
     | EmptyString => if isspace c then EmptyString else String c EmptyString
     | r => String c r
     end).
  destruct (rstrip s) as [|d r] eqn:E.
  - pose proof (rstrip_empty_split s E) as Hs.
    simpl. destruct (isspace c) eqn:Hc; simpl; [congruence|].
    rewrite Hc. destruct s as [|c' s']; [reflexivity|].
    rewrite (rstrip_empty_head _ _ E). rewrite Hs. reflexivity.
  - destruct s as [|c' s']; [discriminate|].
    apply rstrip_head in E as Hd. subst d.
    rewrite (split_cons c (String c' r)), (split_cons c (String c' s')).
    cbv iota beta. rewrite IH. reflexivity.
Qed.

Lemma split_strip (s : string) : split (strip s) = split s.
Proof. unfold strip. rewrite split_rstrip. apply split_lstrip. Qed.

(** *** The parser, line by line *)

Section AdapterFacts.
Context `{FL : PyFloat} `{AN : !AnnotationT}.

Lemma rttm_line_spec (ann : annotation) (line : string) :
  rttm_line ann line =
  if skipped line then Ok ann
  else match line_segment line with
       | Some sl => Ok (Annotation_setitem ann sl.1 sl.2)
       | None => Raise ValueError
       end.
Proof.
  unfold rttm_line, skipped, is_blank, is_comment, is_speaker, line_segment,
    field, fields, getitem, py_float.
  rewrite split_strip.
  destruct (String.eqb (strip line) "" || startswith (strip line) "#") eqn:Hskip;
    [reflexivity|].
  clear Hskip. cbn [orb].
  destruct (List.length (split line) <? 8)%nat eqn:Hlen; [reflexivity|].
  apply Nat.ltb_ge in Hlen.
  destruct (lookup_lt_is_Some_2 (split line) 0%nat) as [p0 H0]; [lia|].
  destruct (lookup_lt_is_Some_2 (split line) 3%nat) as [p3 H3]; [lia|].
  destruct (lookup_lt_is_Some_2 (split line) 4%nat) as [p4 H4]; [lia|].
  destruct (lookup_lt_is_Some_2 (split line) 7%nat) as [p7 H7]; [lia|].
  rewrite H0, H3, H4, H7. cbn.
  destruct (String.eqb p0 "SPEAKER"); cbn; [|reflexivity].
  destruct (float_of_str p3) as [start|]; cbn; [|reflexivity].
  destruct (float_of_str p4) as [duration|]; cbn; reflexivity.
Qed.

Lemma rttm_loop_spec (lines : list string) (ann : annotation) :
  rttm_loop ann lines =
  match mapM line_segment (filter (fun line => skipped line = false) lines) with
  | Some segs => Ok (insert_all ann segs)
  | None => Raise ValueError
  end.
Proof.
  revert ann. induction lines as [|line rest IH]; intros ann; [reflexivity|].
  cbn [rttm_loop]. rewrite rttm_line_spec, filter_cons.
  destruct (skipped line) eqn:Hs.
  - rewrite decide_False by discriminate. cbn. apply IH.
  - rewrite decide_True by reflexivity. cbn [mapM].
    destruct (line_segment line) as [sl|]; cbn; [|reflexivity].
    rewrite IH.
    destruct (mapM line_segment (filter _ rest)); reflexivity.
Qed.

(** A line whose first field is [SPEAKER] is neither blank nor a
    comment: whether it is skipped is decided by its fields. *)
Lemma speaker_not_blank (line : string) :
  is_speaker line = true -> is_blank line = false /\ is_comment line = false.
Proof.
  unfold is_speaker, is_blank, is_comment, fields.
  rewrite <- (split_strip line).
  destruct (strip line) as [|c s]; [discriminate|].
  rewrite split_cons. intros H. split; [reflexivity|].
  cbn [startswith]. rewrite startswith_empty, andb_true_r.
  destruct (Ascii.eqb "#" c) eqn:Hc; [|reflexivity].
  apply Ascii.eqb_eq in Hc. subst c. exfalso. revert H.
  change (isspace "#") with false. cbv iota.
  destruct s as [|c' s']; [discriminate|].
  destruct (isspace c'); [discriminate|].
  destruct (split (String c' s')); discriminate.
Qed.

Lemma skipped_by_fields (line : string) :
  skipped line = (List.length (fields line) <? 8)%nat || negb (is_speaker line).
Proof.
  unfold skipped. destruct (is_speaker line) eqn:Hsp.
  - destruct (speaker_not_blank line Hsp) as [-> ->]. reflexivity.
  - cbn. rewrite !orb_true_r. reflexivity.
Qed.

(** Two lines that are records of the parser and carry the same fields
    4, 5 and 8: everything else (file id, channel, placeholders, what
    follows field 8) may differ. *)
Definition same_record (l l' : string) : Prop :=
  (8 <= List.length (fields l))%nat /\ (8 <= List.length (fields l'))%nat
  /\ fields l !! 0%nat = Some "SPEAKER" /\ fields l' !! 0%nat = Some "SPEAKER"
  /\ fields l !! 3%nat = fields l' !! 3%nat
  /\ fields l !! 4%nat = fields l' !! 4%nat
  /\ fields l !! 7%nat = fields l' !! 7%nat.

Lemma same_record_kept (l l' : string) :
  same_record l l' -> skipped l = false /\ skipped l' = false.
Proof.
  intros (H8 & H8' & H0 & H0' & _).
  rewrite !skipped_by_fields. unfold is_speaker. rewrite H0, H0'.
  split; apply orb_false_iff; split; try reflexivity; apply Nat.ltb_ge; lia.
Qed.

Lemma same_record_segment (l l' : string) :
  same_record l l' -> line_segment l = line_segment l'.
Proof.
  intros (_ & _ & _ & _ & H3 & H4 & H7).
  unfold line_segment, field. rewrite H3, H4, H7. reflexivity.
Qed.

Lemma same_record_line (ann : annotation) (l l' : string) :
  same_record l l' -> rttm_line ann l = rttm_line ann l'.
Proof.
  intros H. rewrite !rttm_line_spec.
  destruct (same_record_kept l l' H) as [-> ->].
  rewrite (same_record_segment l l' H). reflexivity.
Qed.

Lemma same_records_loop (lines lines' : list string) :
  Forall2 (fun l l' => l = l' \/ same_record l l') lines lines' ->
  forall ann, rttm_loop ann lines = rttm_loop ann lines'.
Proof.
  induction 1 as [|l l' rest rest' Hl _ IH]; intros ann; [reflexivity|].
  cbn [rttm_loop].
  assert (rttm_line ann l = rttm_line ann l') as ->.
  { destruct Hl as [->|Hl]; [reflexivity | apply same_record_line, Hl]. }
  destruct (rttm_line ann l'); cbn; [apply IH | reflexivity].
Qed.

(** The kept lines of two such inputs give the same Labeled Segments. *)
Lemma same_records_segments (lines lines' : list string) :
  Forall2 (fun l l' => l = l' \/ same_record l l') lines lines' ->
  mapM line_segment (filter (fun line => skipped line = false) lines')
  = mapM line_segment (filter (fun line => skipped line = false) lines).
Proof.
  induction 1 as [|l l' rest rest' Hl _ IH]; [reflexivity|].
  destruct Hl as [<-|Hl].
  - rewrite !filter_cons. destruct (decide (skipped l = false)); [|exact IH].
    cbn [mapM]. rewrite IH. reflexivity.
  - destruct (same_record_kept l l' Hl) as [Hk Hk'].
    rewrite (filter_cons_True _ l) by exact Hk.
    rewrite (filter_cons_True _ l') by exact Hk'.
    cbn [mapM]. rewrite IH, (same_record_segment l l' Hl). reflexivity.
Qed.

(** The Labeled Segments of lines whose fields 4 and 5 are floats. *)
Lemma line_segments_fields (lines : list string) (segs : list (Segment * pyval)) :
  mapM line_segment lines = Some segs ->
  Forall2 (fun line seg =>
             exists start duration,
               float_of_str (field line 3) = Some start
               /\ float_of_str (field line 4) = Some duration
               /\ seg = (mkSegment (VFloat start)
                                   (VFloat (float_add start duration)),
                         VStr (field line 7)))
          lines segs.
Proof.
  intros H. apply mapM_Some in H.
  induction H as [|line seg lines segs Hseg _ IH]; constructor; [|exact IH].
  unfold line_segment in Hseg.
  destruct (float_of_str (field line 3)) as [start|]; [|discriminate].
  destruct (float_of_str (field line 4)) as [duration|]; [|discriminate].
  injection Hseg as <-. eauto.
Qed.

(** *** The hypothesis adapter, entry by entry *)

Lemma hypothesis_entry_spec (ann : annotation) (entry : gmap string pyval) :
  hypothesis_entry ann (VDict entry) =
  sl ← entry_segment entry; Ok (Annotation_setitem ann sl.1 sl.2).
Proof.
  unfold hypothesis_entry, entry_segment, subscript.
  destruct (entry !! "start"); cbn; [|reflexivity].
  destruct (entry !! "end"); cbn; [|reflexivity].
  destruct (entry !! "speaker"); reflexivity.
Qed.

(** The Labeled Segment [sl] carries the three fields of [entry]. *)
Definition segment_of_entry (entry : gmap string pyval) (sl : Segment * pyval)
  : Prop :=
  entry !! "start" = Some (seg_start sl.1)
  /\ entry !! "end" = Some (seg_end sl.1)
  /\ entry !! "speaker" = Some sl.2.

Lemma entry_segment_ok (entry : gmap string pyval) :
  ~ lacks_field entry ->
  exists sl, entry_segment entry = Ok sl /\ segment_of_entry entry sl.
Proof.
  unfold lacks_field, entry_segment, segment_of_entry. intros H.
  destruct (entry !! "start"); [|tauto].
  destruct (entry !! "end"); [|tauto].
  destruct (entry !! "speaker"); [|tauto].
  eexists. cbn. repeat split; reflexivity.
Qed.

Lemma entry_segment_ok_inv (entry : gmap string pyval) (sl : Segment * pyval) :
  entry_segment entry = Ok sl -> ~ lacks_field entry.
Proof.
  unfold lacks_field, entry_segment.
  destruct (entry !! "start"); [|discriminate].
  destruct (entry !! "end"); [|discriminate].
  destruct (entry !! "speaker"); [|discriminate].
  intros _ [H|[H|H]]; discriminate.
Qed.

Lemma entry_segment_raise (entry : gmap string pyval) (e : exn) :
  entry_segment entry = Raise e ->
  lacks_field entry
  /\ (e = KeyError "start" \/ e = KeyError "end" \/ e = KeyError "speaker").
Proof.
  unfold lacks_field, entry_segment.
  destruct (entry !! "start"); cbn; [|intros [= <-]; tauto].
  destruct (entry !! "end"); cbn; [|intros [= <-]; tauto].
  destruct (entry !! "speaker"); cbn; [discriminate | intros [= <-]; tauto].
Qed.

Lemma hypothesis_loop_ok (entries : list (gmap string pyval)) (ann : annotation) :
  Forall (fun entry => ~ lacks_field entry) entries ->
  exists segs,
    Forall2 segment_of_entry entries segs
    /\ hypothesis_loop ann (VDict <$> entries) = Ok (insert_all ann segs).
Proof.
  intros H. revert ann. induction H as [|entry rest He _ IH]; intros ann.
  - exists []. split; [constructor | reflexivity].
  - destruct (entry_segment_ok entry He) as (sl & Hsl & Hfields).
    destruct (IH (Annotation_setitem ann sl.1 sl.2)) as (segs & Hm & Hl).
    exists (sl :: segs). cbn [fmap list_fmap hypothesis_loop].
    rewrite hypothesis_entry_spec, Hsl. cbn.
    split; [constructor; assumption | exact Hl].
Qed.

Lemma hypothesis_loop_ok_inv (entries : list (gmap string pyval))
    (ann a : annotation) :
  hypothesis_loop ann (VDict <$> entries) = Ok a ->
  Forall (fun entry => ~ lacks_field entry) entries.
Proof.
  revert ann. induction entries as [|entry rest IH]; intros ann; [constructor|].
  cbn [fmap list_fmap hypothesis_loop]. rewrite hypothesis_entry_spec.
  destruct (entry_segment entry) as [sl|e'] eqn:Hsl; cbn; [|discriminate].
  intros H. constructor; [eapply entry_segment_ok_inv, Hsl | eapply IH, H].
Qed.

Lemma hypothesis_loop_raise (entries : list (gmap string pyval))
    (ann : annotation) (e : exn) :
  hypothesis_loop ann (VDict <$> entries) = Raise e ->
  Exists lacks_field entries
  /\ (e = KeyError "start" \/ e = KeyError "end" \/ e = KeyError "speaker").
Proof.
  revert ann. induction entries as [|entry rest IH]; intros ann; [discriminate|].
  cbn [fmap list_fmap hypothesis_loop]. rewrite hypothesis_entry_spec.
  destruct (entry_segment entry) as [sl|e'] eqn:Hsl; cbn.
  - intros H. destruct (IH _ H) as [Hex He]. split; [right; exact Hex | exact He].
  - intros [= <-]. destruct (entry_segment_raise entry e' Hsl) as [Hl He].
    split; [left; exact Hl | exact He].
Qed.

Lemma lacks_field_dec (entry : gmap string pyval) :
  lacks_field entry \/ ~ lacks_field entry.
Proof.
  unfold lacks_field.
  destruct (entry !! "start"), (entry !! "end"), (entry !! "speaker");
    first [left; tauto | right; intros [H|[H|H]]; discriminate].
Qed.

End AdapterFacts.

(** *** Concrete inputs, on IEEE doubles and the timeline of the spec *)

Definition NL : string := String LF EmptyString.

(** The double a decimal literal denotes. *)
Definition lit (s : string) : pyval (H:=Binary64_float) :=
  VFloat (default S754_nan (Binary64.of_string s)).

(** The Labeled Segment [(start, end, speaker)]. *)
Definition labeled (start end_ speaker : string)
  : Segment (H:=Binary64_float) * pyval (H:=Binary64_float) :=
  (mkSegment (lit start) (lit end_), VStr speaker).

Definition round_trip_text : string :=
  "SPEAKER f1 1 0.0 2.5 <NA> <NA> A <NA>" +:+ NL +:+
  "SPEAKER f1 1 2.5 3.0 <NA> <NA> B <NA>" +:+ NL.

Definition malformed_text : string :=
  "# comment" +:+ NL +:+
  "SPEAKER f1 1 0.0" +:+ NL +:+
  "SPEAKER f1 1 0.0 2.5 <NA> <NA> A <NA>" +:+ NL.

Definition non_numeric_line : string :=
  "SPEAKER f1 1 abc 2.5 <NA> <NA> A <NA>".

Definition two_files_text : string :=
  "SPEAKER f1 1 0.0 2.5 <NA> <NA> A <NA>" +:+ NL +:+
  "SPEAKER f2 2 2.5 3.0 <X> <Y> B <Z> trailing" +:+ NL.

Definition rttm_to_timeline (text : string)
  : result (list (Segment (H:=Binary64_float) * pyval (H:=Binary64_float))) :=
  rttm_to_annotation (FL:=Binary64_float) (AN:=Timeline) text.

(** C5, as amended.  The parser skips blank lines, lines starting with [#],
    lines with fewer than 8 whitespace-separated fields and lines whose
    first field is not [SPEAKER], without raising.  When fields 4 and 5 of
    every remaining line are floats, each remaining line inserts exactly one
    Labeled Segment (start, start + duration, speaker), in the order of the
    file; when some remaining line has a field 4 or 5 that is no float, the
    parser raises [ValueError].  The two-line input of the round-trip
    property yields (0.0, 2.5, "A") and (2.5, 5.5, "B"), and the input of the
    malformed-line property yields its one valid segment. *)
Theorem rttm_to_annotation_spec :
  (forall (FL : PyFloat) (AN : AnnotationT) (text : string),
     rttm_to_annotation text =
     match mapM line_segment (kept_lines text) with
     | Some segs => Ok (insert_all Annotation_new segs)
     | None => Raise ValueError
     end)
  /\ rttm_to_timeline round_trip_text
     = Ok [labeled "0.0" "2.5" "A"; labeled "2.5" "5.5" "B"]
  /\ rttm_to_timeline malformed_text = Ok [labeled "0.0" "2.5" "A"].
Proof.
  split; [|split].
  - intros FL AN text. unfold rttm_to_annotation, kept_lines.
    apply rttm_loop_spec.
  - reflexivity.
  - reflexivity.
Qed.

(** C5, as stated, fails: a line that none of the four rules skips, with a
    field 4 that is no number, yields no Labeled Segment; the parser
    raises. *)
Lemma rttm_non_numeric_field_raises :
  skipped non_numeric_line = false
  /\ rttm_to_timeline non_numeric_line = Raise ValueError.
Proof. split; reflexivity. Qed.

(** C10.  The result of the parser depends on fields 4, 5 and 8 of the
    lines it keeps only.  Take two inputs whose lines are pairwise equal,
    or pairwise records with the same fields 4, 5 and 8, whatever their
    file ids, channels, placeholders and trailing fields.  The parser
    gives the same outcome on both, and this outcome is fixed by the kept
    lines of either: when fields 4 and 5 of every kept line are floats, it
    is the one timeline of the Labeled Segments (start, start + duration,
    speaker) of all the kept lines, one for each line and in the order of
    the file, so that the records of different file ids are merged into
    it; otherwise it is a [ValueError]. *)
Theorem rttm_depends_on_fields_4_5_8
  (FL : PyFloat) (AN : AnnotationT) (text text' : string) :
  Forall2 (fun l l' => l = l' \/ same_record l l')
          (file_lines text) (file_lines text') ->
  rttm_to_annotation text = rttm_to_annotation text'
  /\ mapM line_segment (kept_lines text') = mapM line_segment (kept_lines text)
  /\ rttm_to_annotation text' =
     match mapM line_segment (kept_lines text) with
     | Some segs => Ok (insert_all Annotation_new segs)
     | None => Raise ValueError
     end
  /\ (forall segs,
        mapM line_segment (kept_lines text) = Some segs ->
        Forall2 (fun line seg =>
                   exists start duration,
                     float_of_str (field line 3) = Some start
                     /\ float_of_str (field line 4) = Some duration
                     /\ seg = (mkSegment (VFloat start)
                                         (VFloat (float_add start duration)),
                               VStr (field line 7)))
                (kept_lines text) segs).
Proof.
  intros H. split; [|split; [|split]].
  - unfold rttm_to_annotation. apply same_records_loop, H.
  - unfold kept_lines. apply same_records_segments, H.
  - unfold rttm_to_annotation, kept_lines.
    rewrite rttm_loop_spec, (same_records_segments _ _ H). reflexivity.
  - intros segs. apply line_segments_fields.
Qed.

(** The records of two file ids, with other channels, placeholders and a
    trailing field, against the same records under one file id: both
    give the timeline of (0.0, 2.5, "A") and (2.5, 5.5, "B"). *)
Lemma rttm_two_file_ids_one_timeline :
  Forall2 (fun l l' => l = l' \/ same_record l l')
          (file_lines round_trip_text) (file_lines two_files_text)
  /\ rttm_to_timeline round_trip_text = rttm_to_timeline two_files_text
  /\ rttm_to_timeline two_files_text
     = Ok [labeled "0.0" "2.5" "A"; labeled "2.5" "5.5" "B"].
Proof.
  assert (Forall2 (fun l l' => l = l' \/ same_record l l')
            (file_lines round_trip_text) (file_lines two_files_text)) as H.
  { vm_compute (file_lines two_files_text).
    vm_compute (file_lines round_trip_text).
    constructor; [left; reflexivity|].
    constructor; [right|constructor].
    unfold same_record. vm_compute. repeat split; lia. }
  split; [exact H|].
  destruct (rttm_depends_on_fields_4_5_8 Binary64_float Timeline _ _ H)
    as (Hsame & _ & Hsegs & _).
  split; [exact Hsame|].
  unfold rttm_to_timeline. rewrite Hsegs. reflexivity.
Defined.

Definition hypothesis_to_timeline (hypothesis : gmap string (pyval (H:=Binary64_float)))
  : result (list (Segment (H:=Binary64_float) * pyval (H:=Binary64_float))) :=
  hypothesis_to_annotation (FL:=Binary64_float) (AN:=Timeline) hypothesis.

(** C6.  On a record whose [segments], when present, is a list of mappings,
    [hypothesis_to_annotation] raises a [KeyError] exactly when some entry
    lacks [start], [end] or [speaker], and it raises nothing else; when no
    entry lacks a field it returns the annotation with one Labeled Segment
    per entry, made of the entry's three fields, in order; a record with no
    [segments] key gives the empty annotation. *)
Theorem hypothesis_to_annotation_key_error
  (FL : PyFloat) (AN : AnnotationT)
  (hypothesis : gmap string pyval) (entries : list (gmap string pyval)) :
  get_segments hypothesis = VList (VDict <$> entries) ->
  ((exists key, hypothesis_to_annotation hypothesis = Raise (KeyError key))
   <-> Exists lacks_field entries)
  /\ (forall e, hypothesis_to_annotation hypothesis = Raise e ->
      e = KeyError "start" \/ e = KeyError "end" \/ e = KeyError "speaker")
  /\ (Forall (fun entry => ~ lacks_field entry) entries ->
      exists segs,
        Forall2 segment_of_entry entries segs
        /\ hypothesis_to_annotation hypothesis
           = Ok (insert_all Annotation_new segs))
  /\ (hypothesis !! "segments" = None ->
      hypothesis_to_annotation hypothesis = Ok Annotation_new).
Proof.
  intros Hshape. unfold hypothesis_to_annotation. rewrite Hshape. cbn.
  change (list_fmap _ _ VDict entries) with (VDict <$> entries).
  split; [split|split; [|split]].
  - intros [key H]. eapply hypothesis_loop_raise, H.
  - intros Hex.
    destruct (hypothesis_loop Annotation_new (VDict <$> entries)) as [a|e] eqn:H.
    + apply hypothesis_loop_ok_inv in H. exfalso.
      apply Exists_exists in Hex as (entry & Hin & Hl).
      rewrite Forall_forall in H. exact (H entry Hin Hl).
    + destruct (hypothesis_loop_raise _ _ _ H) as [_ [-> | [-> | ->]]]; eauto.
  - intros e H. eapply hypothesis_loop_raise, H.
  - apply hypothesis_loop_ok.
  - intros Hnone. unfold get_segments in Hshape. rewrite Hnone in Hshape.
    cbn in Hshape. destruct entries; [reflexivity | discriminate].
Qed.

(** A record of two entries, the second without [end]. *)
Definition entry_A : gmap string (pyval (H:=Binary64_float)) :=
  <["start" := lit "0.0"]> (<["end" := lit "1.5"]> (<["speaker" := VStr "A"]> ∅)).

Definition entry_no_end : gmap string (pyval (H:=Binary64_float)) :=
  <["start" := lit "1.5"]> (<["speaker" := VStr "B"]> ∅).

Definition record_no_end : gmap string (pyval (H:=Binary64_float)) :=
  <["segments" := VList [VDict entry_A; VDict entry_no_end]]>
    (<["num_speakers" := VInt 2]> ∅).

Lemma record_no_end_raises :
  get_segments record_no_end = VList (VDict <$> [entry_A; entry_no_end])
  /\ ((exists key, hypothesis_to_timeline record_no_end = Raise (KeyError key))
      <-> Exists lacks_field [entry_A; entry_no_end]).
Proof.
  assert (get_segments record_no_end = VList (VDict <$> [entry_A; entry_no_end]))
    as H by (reflexivity).
  split; [exact H|].
  exact (proj1 (hypothesis_to_annotation_key_error Binary64_float Timeline
                  record_no_end [entry_A; entry_no_end] H)).
Defined.

Example record_no_end_key : 
  hypothesis_to_timeline record_no_end = Raise (KeyError "end").
Proof. reflexivity. Qed.

Example record_without_segments :
  hypothesis_to_timeline (<["num_speakers" := VInt 2]> ∅) = Ok [].
Proof. reflexivity. Qed.

End DiarizationMetrics.

(** ** [MetricAggregator]

    The aggregator keeps a list object and hands out references to it, so
    its methods run on a store of objects: a reference is an index into the
    store, and a new object goes to the end of it. *)

Module MetricAggregator.

Abbreviation loc := nat.

(** The values a metrics record holds ([Any]): numbers and strings by
    value, containers by reference. *)
Inductive val `{FL : PyFloat} : Type :=
| VNone
| VBool (b : bool)
| VInt (z : Z)
| VFloat (x : float)
| VStr (s : string)
| VRef (l : loc).

Inductive obj `{FL : PyFloat} : Type :=
| ODict (d : gmap string val)
| OList (items : list val).

Abbreviation heap := (list obj).

Section Store.
Context `{FL : PyFloat}.

Definition alloc (h : heap) (o : obj) : heap * loc := (h ++ [o], length h).

(** [statistics.mean], [statistics.stdev] and [statistics.median] of the
    standard library: each returns a float or raises. *)
Class Statistics : Type := {
  stat_mean : list float -> result float;
  stat_stdev : list float -> result float;
  stat_median : list float -> result float
}.

(** [min(values)] and [max(values)]: the first item that no later item
    beats; [ValueError] on an empty list. *)
Definition py_min (values : list float) : result float :=
  match values with
  | [] => Raise ValueError
  | x :: rest =>
      Ok (foldl (fun cur item => if float_lt item cur then item else cur) x rest)
  end.

Definition py_max (values : list float) : result float :=
  match values with
  | [] => Raise ValueError
  | x :: rest =>
      Ok (foldl (fun cur item => if float_lt cur item then item else cur) x rest)
  end.

(** The aggregator object: its one attribute, bound in [__init__]. *)
Record aggregator : Type := mkAggregator { metrics : loc }.

(** [MetricAggregator()] *)
Definition init (h : heap) : heap * aggregator :=
  let '(h', l) := alloc h (OList []) in (h', mkAggregator l).

(** [self.add(metrics, file_id)] *)
Definition add (h : heap) (self : aggregator) (metrics_arg file_id : val)
  : result heap :=
  match h !! metrics self with
  | Some (OList items) =>
      let record := <["metrics" := metrics_arg]> (<["file_id" := file_id]> ∅) in
      let '(h', r) := alloc h (ODict record) in
      Ok (<[metrics self := OList (items ++ [VRef r])]> h')
  | _ => Raise AttributeError
  end.

(** The items a [for] loop draws from the object at [l]. *)
Definition iter_object (h : heap) (l : loc) : result (list val) :=
  match h !! l with
  | Some (OList items) => Ok items
  | Some (ODict d) => Ok (VStr <$> (map_to_list d).*1)
  | None => Raise TypeError
  end.

(** [v[key]] for a [str] key *)
Definition subscript (h : heap) (v : val) (key : string) : result val :=
  match v with
  | VRef l =>
      match h !! l with
      | Some (ODict d) => or_raise (KeyError key) (d !! key)
      | _ => Raise TypeError
      end
  | _ => Raise TypeError
  end.

(** [v.items()] *)
Definition items (h : heap) (v : val) : result (list (string * val)) :=
  match v with
  | VRef l =>
      match h !! l with
      | Some (ODict d) => Ok (map_to_list d)
      | _ => Raise AttributeError
      end
  | _ => Raise AttributeError
  end.

(** [isinstance(value, (int, float))], and [float(value)] when it holds:
    [bool] is a subclass of [int]. *)
Definition as_number (value : val) : option (result float) :=
  match value with
  | VFloat x => Some (Ok x)
  | VInt z => Some (or_raise OverflowError (float_of_int z))
  | VBool b => Some (or_raise OverflowError (float_of_int (Z.b2z b)))
  | _ => None
  end.

(** The body of the inner loop of [aggregate]. *)
Definition collect_value (metric_values : gmap string (list float))
    (kv : string * val) : result (gmap string (list float)) :=
  match as_number kv.2 with
  | Some number =>
      x ← number;
      Ok (<[kv.1 := default [] (metric_values !! kv.1) ++ [x]]> metric_values)
  | None => Ok metric_values
  end.

Fixpoint for_each {A B : Type} (body : A -> B -> result A) (acc : A) (l : list B)
  : result A :=
  match l with
  | [] => Ok acc
  | x :: rest => acc' ← body acc x; for_each body acc' rest
  end.

(** The body of the outer loop of [aggregate]. *)
Definition collect_item (h : heap) (metric_values : gmap string (list float))
    (item : val) : result (gmap string (list float)) :=
  record_metrics ← subscript h item "metrics";
  kvs ← items h record_metrics;
  for_each collect_value metric_values kvs.

Context `{ST : Statistics}.

(** [statistics.stdev(values) if len(values) > 1 else 0.0] *)
Definition stdev_or_zero (values : list float) : result float :=
  if (1 <? List.length values)%nat then stat_stdev values else Ok float_zero.

(** The body of the second loop of [aggregate]. *)
Definition summarize (aggregated : gmap string val)
    (kv : string * list float) : result (gmap string val) :=
  let '(metric_name, values) := kv in
  mean ← stat_mean values;
  let aggregated := <[metric_name +:+ "_mean" := VFloat mean]> aggregated in
  std ← stdev_or_zero values;
  let aggregated := <[metric_name +:+ "_std" := VFloat std]> aggregated in
  lo ← py_min values;
  let aggregated := <[metric_name +:+ "_min" := VFloat lo]> aggregated in
  hi ← py_max values;
  let aggregated := <[metric_name +:+ "_max" := VFloat hi]> aggregated in
  median ← stat_median values;
  Ok (<[metric_name +:+ "_median" := VFloat median]> aggregated).

(** [self.aggregate()]: the store after the call and the value returned. *)
Definition aggregate (h : heap) (self : aggregator) : result (heap * val) :=
  records ← iter_object h (metrics self);
  match records with
  | [] => let '(h', r) := alloc h (ODict ∅) in Ok (h', VRef r)
  | _ =>
      metric_values ← for_each (collect_item h) ∅ records;
      aggregated ← for_each summarize ∅ (map_to_list metric_values);
      let aggregated :=
        <["num_files" := VInt (Z.of_nat (List.length records))]> aggregated in
      let '(h', r) := alloc h (ODict aggregated) in
      Ok (h', VRef r)
  end.

(** [self.get_per_file_metrics()] *)
Definition get_per_file_metrics (h : heap) (self : aggregator) : heap * val :=
  (h, VRef (metrics self)).

(** *** What [aggregate] is specified to compute *)

(** The number a metric value contributes, when it is one. *)
Definition number_of (value : val) : option float :=
  match as_number value with
  | Some (Ok x) => Some x
  | _ => None
  end.

(** [float(value)] does not raise. *)
Definition convertible (value : val) : Prop :=
  forall e, as_number value <> Some (Raise e).

(** The number the record [d] holds for the metric [name], if any. *)
Definition number_at (name : string) (d : gmap string val) : option float :=
  d !! name ≫= number_of.

(** The numeric values of the metric [name] across the records, in the
    order the records were added. *)
Definition column (name : string) (ds : list (gmap string val)) : list float :=
  omap (number_at name) ds.

Definition suffixes : list string :=
  ["_mean"; "_std"; "_min"; "_max"; "_median"].

(** [self.add] for each record of a batch, in order. *)
Fixpoint add_all (h : heap) (self : aggregator) (recs : list (val * val))
  : result heap :=
  match recs with
  | [] => Ok h
  | (metrics_arg, file_id) :: rest =>
      h' ← add h self metrics_arg file_id; add_all h' self rest
  end.

(** A fresh aggregator fed with a batch. *)
Definition session (h : heap) (recs : list (val * val))
  : result (heap * aggregator) :=
  let '(h1, self) := init h in
  h2 ← add_all h1 self recs; Ok (h2, self).

End Store.


(** *** The first loop: collecting the values *)

Section Collect.
Context `{FL : PyFloat}.

Lemma number_of_convertible (value : val) :
  convertible value ->
  as_number value = match number_of value with
                    | Some x => Some (Ok x)
                    | None => None
                    end.
Proof.
  unfold convertible, number_of. intros H.
  destruct (as_number value) as [[x|e]|]; [reflexivity | | reflexivity].
  exfalso. exact (H e eq_refl).
Qed.

Lemma collect_value_convertible (acc : gmap string (list float))
    (k : string) (v : val) :
  convertible v ->
  collect_value acc (k, v) =
  Ok (match number_of v with
      | Some x => <[k := default [] (acc !! k) ++ [x]]> acc
      | None => acc
      end).
Proof.
  intros H. unfold collect_value. cbn [fst snd].
  rewrite (number_of_convertible v H).
  destruct (number_of v); reflexivity.
Qed.

Lemma for_each_collect_value (kvs : list (string * val))
    (acc : gmap string (list float)) :
  NoDup kvs.*1 ->
  Forall (fun kv => convertible kv.2) kvs ->
  exists acc',
    for_each collect_value acc kvs = Ok acc'
    /\ forall k,
        acc' !! k =
        match number_at k (list_to_map kvs) with
        | Some x => Some (default [] (acc !! k) ++ [x])
        | None => acc !! k
        end.
Proof.
  revert acc. induction kvs as [|[k0 v0] rest IH]; intros acc Hnd Hconv.
  - exists acc. split; [reflexivity|]. intros k. unfold number_at. cbn.
    rewrite lookup_empty. reflexivity.
  - cbn in Hnd. apply NoDup_cons in Hnd as [Hk0 Hnd].
    apply Forall_cons in Hconv as [Hv0 Hconv].
    cbn [for_each]. rewrite (collect_value_convertible acc k0 v0 Hv0).
    assert ((list_to_map rest : gmap string val) !! k0 = None) as Hnone
      by (apply not_elem_of_list_to_map_1, Hk0).
    destruct (number_of v0) as [x|] eqn:Hx; cbn.
    + destruct (IH (<[k0 := default [] (acc !! k0) ++ [x]]> acc) Hnd Hconv)
        as (acc' & Hrun & Hacc').
      exists acc'. split; [exact Hrun|]. intros k. rewrite Hacc'.
      unfold number_at. cbn [list_to_map foldr uncurry fst snd].
      destruct (decide (k = k0)) as [->|Hne].
      * rewrite Hnone, lookup_insert_eq. cbn. rewrite lookup_insert_eq. cbn.
        rewrite Hx. reflexivity.
      * rewrite !lookup_insert_ne by congruence. reflexivity.
    + destruct (IH acc Hnd Hconv) as (acc' & Hrun & Hacc').
      exists acc'. split; [exact Hrun|]. intros k. rewrite Hacc'.
      unfold number_at. cbn [list_to_map foldr uncurry fst snd].
      destruct (decide (k = k0)) as [->|Hne].
      * rewrite Hnone, lookup_insert_eq. cbn. rewrite Hx. reflexivity.
      * rewrite lookup_insert_ne by congruence. reflexivity.
Qed.

Lemma collect_dict (d : gmap string val) (acc : gmap string (list float)) :
  map_Forall (fun _ v => convertible v) d ->
  exists acc',
    for_each collect_value acc (map_to_list d) = Ok acc'
    /\ forall k,
        acc' !! k =
        match number_at k d with
        | Some x => Some (default [] (acc !! k) ++ [x])
        | None => acc !! k
        end.
Proof.
  intros Hd.
  destruct (for_each_collect_value (map_to_list d) acc) as (acc' & Hrun & Hacc').
  - apply NoDup_fst_map_to_list.
  - apply Forall_forall. intros [k v] Hin. cbn.
    apply elem_of_map_to_list in Hin. exact (Hd k v Hin).
  - exists acc'. split; [exact Hrun|]. intros k. rewrite Hacc'.
    rewrite list_to_map_to_list. reflexivity.
Qed.

End Collect.

(** *** The first loop over the store *)

Section CollectStore.
Context `{FL : PyFloat}.

(** [item] refers to a record of the aggregator whose metrics are the
    mapping [d]. *)
Definition record_at (h : heap) (item : val) (d : gmap string val) : Prop :=
  exists r record m,
    item = VRef r /\ h !! r = Some (ODict record)
    /\ record !! "metrics" = Some (VRef m) /\ h !! m = Some (ODict d).

Lemma collect_item_at (h : heap) (acc : gmap string (list float))
    (item : val) (d : gmap string val) :
  record_at h item d ->
  collect_item h acc item = for_each collect_value acc (map_to_list d).
Proof.
  intros (r & record & m & -> & Hr & Hm & Hd).
  unfold collect_item, subscript, items. rewrite Hr, Hm. cbn.
  rewrite Hd. reflexivity.
Qed.

Lemma column_cons (k : string) (d : gmap string val) (ds : list (gmap string val)) :
  column k (d :: ds) = match number_at k d with
                       | Some x => x :: column k ds
                       | None => column k ds
                       end.
Proof. reflexivity. Qed.

Lemma for_each_collect_item (h : heap) (items : list val)
    (ds : list (gmap string val)) (acc : gmap string (list float)) :
  Forall2 (record_at h) items ds ->
  Forall (map_Forall (fun _ v => convertible v)) ds ->
  exists mv,
    for_each (collect_item h) acc items = Ok mv
    /\ forall k,
        mv !! k = match column k ds with
                  | [] => acc !! k
                  | vals => Some (default [] (acc !! k) ++ vals)
                  end.
Proof.
  intros Hat. revert acc.
  induction Hat as [|item d items ds Hitem _ IH]; intros acc Hconv.
  - exists acc. split; reflexivity.
  - apply Forall_cons in Hconv as [Hd Hconv].
    destruct (collect_dict d acc Hd) as (acc1 & Hrun1 & Hacc1).
    destruct (IH acc1 Hconv) as (mv & Hrun & Hmv).
    exists mv. cbn [for_each]. rewrite (collect_item_at h acc item d Hitem), Hrun1.
    split; [exact Hrun|]. intros k. rewrite Hmv, Hacc1, column_cons.
    destruct (number_at k d) as [x|]; [|reflexivity].
    cbn. destruct (column k ds); [reflexivity|].
    rewrite <- app_assoc. reflexivity.
Qed.

End CollectStore.

(** *** [add] and the records it stores *)

Section Session.
Context `{FL : PyFloat}.

(** [item] refers to the record [add] makes of a metrics argument and a
    file id. *)
Definition stored (h : heap) (item : val) (rec : val * val) : Prop :=
  exists r,
    item = VRef r
    /\ h !! r = Some (ODict (<["metrics" := rec.1]> (<["file_id" := rec.2]> ∅))).

(** The list of the aggregator holds the records of [recs], in order. *)
Definition holds (h : heap) (self : aggregator) (recs : list (val * val)) : Prop :=
  exists items,
    h !! metrics self = Some (OList items) /\ Forall2 (stored h) items recs.

(** Every object of [h] is still in [h'], except the list of [self]. *)
Definition keeps (h h' : heap) (self : aggregator) : Prop :=
  forall l o, l <> metrics self -> h !! l = Some o -> h' !! l = Some o.

Lemma stored_keeps (h h' : heap) (self : aggregator) (items0 : list val)
    (item : val) (rec : val * val) :
  h !! metrics self = Some (OList items0) ->
  keeps h h' self -> stored h item rec -> stored h' item rec.
Proof.
  intros Hself Hkeep (r & -> & Hr). exists r. split; [reflexivity|].
  apply Hkeep; [|exact Hr]. intros ->. rewrite Hself in Hr. discriminate.
Qed.

Lemma add_spec (h : heap) (self : aggregator) (recs : list (val * val))
    (metrics_arg file_id : val) :
  holds h self recs ->
  exists h',
    add h self metrics_arg file_id = Ok h'
    /\ holds h' self (recs ++ [(metrics_arg, file_id)])
    /\ keeps h h' self
    /\ List.length h' = S (List.length h).
Proof.
  intros (items & Hself & Hitems).
  pose proof (lookup_lt_Some _ _ _ Hself) as Hlt.
  unfold add. rewrite Hself. unfold alloc. eexists. split; [reflexivity|].
  assert (keeps h (<[metrics self := OList (items ++ [VRef (List.length h)])]>
                     (h ++ [ODict (<["metrics" := metrics_arg]>
                                     (<["file_id" := file_id]> ∅))])) self)
    as Hkeep.
  { intros l o Hl Ho. rewrite list_lookup_insert_ne by congruence.
    apply lookup_app_l_Some, Ho. }
  split; [|split; [exact Hkeep|]].
  - exists (items ++ [VRef (List.length h)]). split.
    + apply list_lookup_insert_eq. rewrite length_app. cbn. lia.
    + apply Forall2_app.
      * eapply Forall2_impl; [exact Hitems|].
        intros item rec. apply (stored_keeps h _ self items), Hkeep. exact Hself.
      * constructor; [|constructor]. exists (List.length h).
        split; [reflexivity|]. cbn.
        rewrite list_lookup_insert_ne by lia. apply list_lookup_middle. reflexivity.
  - rewrite length_insert, length_app. cbn. lia.
Qed.

Lemma keeps_trans (h1 h2 h3 : heap) (self : aggregator) :
  keeps h1 h2 self -> keeps h2 h3 self -> keeps h1 h3 self.
Proof. intros H12 H23 l o Hl Ho. apply H23, H12; assumption. Qed.

Lemma add_all_spec (recs recs0 : list (val * val)) (h : heap) (self : aggregator) :
  holds h self recs0 ->
  exists h',
    add_all h self recs = Ok h'
    /\ holds h' self (recs0 ++ recs)
    /\ keeps h h' self.
Proof.
  revert recs0 h. induction recs as [|[metrics_arg file_id] rest IH];
    intros recs0 h Hholds.
  - exists h. rewrite app_nil_r. split; [reflexivity|]. split; [exact Hholds|].
    intros l o _ Ho. exact Ho.
  - destruct (add_spec h self recs0 metrics_arg file_id Hholds)
      as (h1 & Hadd & Hholds1 & Hkeep1 & _).
    destruct (IH _ h1 Hholds1) as (h2 & Hrun & Hholds2 & Hkeep2).
    exists h2. cbn [add_all]. rewrite Hadd. cbn.
    split; [exact Hrun|]. split.
    + rewrite <- app_assoc in Hholds2. exact Hholds2.
    + eapply keeps_trans; eassumption.
Qed.

(** A batch fed to a new aggregator: the aggregator holds the records in
    the order they were added, and the objects of the caller are as they
    were. *)
Lemma session_spec (h0 : heap) (recs : list (val * val)) :
  exists h,
    session h0 recs = Ok (h, mkAggregator (List.length h0))
    /\ holds h (mkAggregator (List.length h0)) recs
    /\ forall l o, h0 !! l = Some o -> h !! l = Some o.
Proof.
  unfold session, init, alloc.
  destruct (add_all_spec recs [] (h0 ++ [OList []]) (mkAggregator (List.length h0)))
    as (h & Hrun & Hholds & Hkeep).
  { exists []. split; [|constructor]. cbn. apply list_lookup_middle. reflexivity. }
  exists h. rewrite Hrun. split; [reflexivity|]. split; [exact Hholds|].
  intros l o Ho. apply Hkeep.
  - cbn. apply lookup_lt_Some in Ho. lia.
  - apply lookup_app_l_Some, Ho.
Qed.

Lemma stored_record_at (h : heap) (item : val) (m : loc) (file_id : val)
    (d : gmap string val) :
  stored h item (VRef m, file_id) -> h !! m = Some (ODict d) -> record_at h item d.
Proof.
  intros (r & -> & Hr) Hm. cbn in Hr. eexists r, _, m.
  split; [reflexivity|]. split; [exact Hr|]. split; [|exact Hm].
  apply lookup_insert_eq.
Qed.

End Session.

(** *** The keys of the result *)

Lemma list_ascii_of_append (a b : string) :
  list_ascii_of_string (a +:+ b)
  = list_ascii_of_string a ++ list_ascii_of_string b.
Proof.
  induction a as [|c a IH]; [reflexivity|].
  change (list_ascii_of_string (String c a +:+ b))
    with (c :: list_ascii_of_string (a +:+ b)).
  rewrite IH. reflexivity.
Qed.

Lemma list_ascii_of_string_inj (a b : string) :
  list_ascii_of_string a = list_ascii_of_string b -> a = b.
Proof.
  intros H. rewrite <- (string_of_list_ascii_of_string a),
    <- (string_of_list_ascii_of_string b), H. reflexivity.
Qed.

(** A key read backwards: its suffix comes first. *)
Lemma reversed_key (k sfx : string) :
  rev (list_ascii_of_string (k +:+ sfx))
  = rev (list_ascii_of_string sfx) ++ rev (list_ascii_of_string k).
Proof. rewrite list_ascii_of_append. apply rev_app_distr. Qed.

Ltac one_of_suffixes H :=
  unfold suffixes in H;
  repeat (apply elem_of_cons in H as [H|H]; [subst|]);
  [.. | apply elem_of_nil in H; destruct H].

Lemma key_inj (k k' sfx sfx' : string) :
  sfx ∈ suffixes -> sfx' ∈ suffixes ->
  k +:+ sfx = k' +:+ sfx' -> k = k' /\ sfx = sfx'.
Proof.
  intros Hs Hs' H. apply (f_equal (fun x => rev (list_ascii_of_string x))) in H.
  rewrite !reversed_key in H.
  one_of_suffixes Hs; one_of_suffixes Hs'; cbn in H;
    first [ discriminate H
          | split; [|reflexivity];
            injection H as H; apply (f_equal (@rev ascii)) in H;
            rewrite !rev_involutive in H;
            apply list_ascii_of_string_inj, H ].
Qed.

Lemma key_not_num_files (k sfx : string) :
  sfx ∈ suffixes -> k +:+ sfx <> "num_files".
Proof.
  intros Hs H. apply (f_equal (fun x => rev (list_ascii_of_string x))) in H.
  rewrite reversed_key in H.
  one_of_suffixes Hs; cbn in H; discriminate H.
Qed.

(** *** The second loop: the statistics *)

Section Summarize.
Context `{FL : PyFloat} `{ST : !Statistics}.

(** The entry [entry] of the result is the float that [call] returned. *)
Definition is_result (call : result float) (entry : option val) : Prop :=
  match call with
  | Ok x => entry = Some (VFloat x)
  | Raise _ => False
  end.

(** The five entries [aggregated] holds for the metric [name] are the
    statistics of [values]. *)
Definition summary_of (aggregated : gmap string val) (name : string)
    (values : list float) : Prop :=
  is_result (stat_mean values) (aggregated !! (name +:+ "_mean"))
  /\ is_result (if (2 <=? List.length values)%nat then stat_stdev values
                else Ok float_zero)
               (aggregated !! (name +:+ "_std"))
  /\ is_result (py_min values) (aggregated !! (name +:+ "_min"))
  /\ is_result (py_max values) (aggregated !! (name +:+ "_max"))
  /\ is_result (stat_median values) (aggregated !! (name +:+ "_median")).

(** The three calls into [statistics] return on [values]. *)
Definition summarizable (values : list float) : Prop :=
  (exists mean, stat_mean values = Ok mean)
  /\ (exists std, stdev_or_zero values = Ok std)
  /\ (exists median, stat_median values = Ok median).

Lemma suffix_mean : "_mean" ∈ suffixes. Proof. repeat constructor. Qed.
Lemma suffix_std : "_std" ∈ suffixes. Proof. repeat constructor. Qed.
Lemma suffix_min : "_min" ∈ suffixes. Proof. repeat constructor. Qed.
Lemma suffix_max : "_max" ∈ suffixes. Proof. repeat constructor. Qed.
Lemma suffix_median : "_median" ∈ suffixes. Proof. repeat constructor. Qed.

Lemma key_ne (k sfx sfx' : string) :
  sfx ∈ suffixes -> sfx' ∈ suffixes -> sfx <> sfx' -> k +:+ sfx <> k +:+ sfx'.
Proof. intros Hs Hs' Hne H. apply key_inj in H as [_ H]; auto. Qed.

(** One round of the second loop adds the five entries of its metric and
    leaves every other key alone. *)
Lemma summarize_step (aggregated : gmap string val) (name : string)
    (values : list float) :
  values <> [] ->
  summarizable values ->
  exists aggregated',
    summarize aggregated (name, values) = Ok aggregated'
    /\ summary_of aggregated' name values
    /\ forall key,
        (forall sfx, sfx ∈ suffixes -> key <> name +:+ sfx) ->
        aggregated' !! key = aggregated !! key.
Proof.
  intros Hne ([mean Hmean] & [std Hstd] & [median Hmedian]).
  destruct values as [|x rest]; [congruence|].
  unfold summarize. rewrite Hmean, Hstd, Hmedian.
  cbn [py_min py_max mbind result_bind].
  eexists. split; [reflexivity|]. split.
  - unfold summary_of, is_result. rewrite Hmean, Hmedian.
    change (if (2 <=? List.length (x :: rest))%nat then stat_stdev (x :: rest)
            else Ok float_zero) with (stdev_or_zero (x :: rest)).
    rewrite Hstd. cbn [py_min py_max].
    pose proof suffix_mean. pose proof suffix_std. pose proof suffix_min.
    pose proof suffix_max. pose proof suffix_median.
    repeat split;
      repeat first
        [ rewrite lookup_insert_eq; reflexivity
        | rewrite lookup_insert_ne by (apply key_ne; auto; discriminate) ].
  - intros key Hkey.
    rewrite !lookup_insert_ne; [reflexivity | ..];
      intros Heq; symmetry in Heq; revert Heq; apply Hkey;
      auto using suffix_mean, suffix_std, suffix_min, suffix_max, suffix_median.
Qed.

Lemma summary_of_ext (agg agg' : gmap string val) (name : string)
    (values : list float) :
  (forall sfx, sfx ∈ suffixes -> agg' !! (name +:+ sfx) = agg !! (name +:+ sfx)) ->
  summary_of agg name values -> summary_of agg' name values.
Proof.
  intros Hext (Hmean & Hstd & Hmin & Hmax & Hmedian). unfold summary_of.
  rewrite !Hext by auto using suffix_mean, suffix_std, suffix_min, suffix_max,
    suffix_median.
  repeat split; assumption.
Qed.

Lemma for_each_summarize (kvs : list (string * list float))
    (aggregated : gmap string val) :
  NoDup kvs.*1 ->
  Forall (fun kv => kv.2 <> [] /\ summarizable kv.2) kvs ->
  exists aggregated',
    for_each summarize aggregated kvs = Ok aggregated'
    /\ (forall name values, (name, values) ∈ kvs ->
        summary_of aggregated' name values)
    /\ (forall key,
        (forall name sfx, name ∈ kvs.*1 -> sfx ∈ suffixes -> key <> name +:+ sfx) ->
        aggregated' !! key = aggregated !! key).
Proof.
  revert aggregated.
  induction kvs as [|[name0 values0] rest IH]; intros aggregated Hnd Hne.
  - exists aggregated. split; [reflexivity|]. split; [|reflexivity].
    intros name values Hin. apply elem_of_nil in Hin. destruct Hin.
  - cbn in Hnd. apply NoDup_cons in Hnd as [Hname0 Hnd].
    apply Forall_cons in Hne as [[Hvalues0 Hsum0] Hne]. cbn in Hvalues0, Hsum0.
    destruct (summarize_step aggregated name0 values0 Hvalues0 Hsum0)
      as (agg1 & Hstep & Hsum1 & Hframe1).
    destruct (IH agg1 Hnd Hne) as (agg2 & Hrun & Hsum2 & Hframe2).
    exists agg2. cbn [for_each]. rewrite Hstep. cbn. split; [exact Hrun|]. split.
    + intros name values Hin. apply elem_of_cons in Hin as [Heq|Hin].
      * injection Heq as -> ->. eapply summary_of_ext; [|exact Hsum1].
        intros sfx Hsfx. apply Hframe2. intros name sfx' Hname Hsfx' Heq.
        apply key_inj in Heq as [-> _]; auto.
      * apply Hsum2, Hin.
    + intros key Hkey. rewrite Hframe2, Hframe1; [reflexivity | |].
      * intros sfx Hsfx. apply Hkey; [|exact Hsfx]. cbn. left.
      * intros name sfx Hname Hsfx. apply Hkey; [|exact Hsfx]. cbn. right. exact Hname.
Qed.

(** What [aggregate] returns for a non-empty batch whose records hold the
    mappings [ds]. *)
Definition aggregated_from (agg : gmap string val) (n : nat)
    (ds : list (gmap string val)) : Prop :=
  agg !! "num_files" = Some (VInt (Z.of_nat n))
  /\ (forall name, column name ds <> [] -> summary_of agg name (column name ds))
  /\ (forall key, is_Some (agg !! key) ->
      key = "num_files"
      \/ exists name sfx,
          column name ds <> [] /\ sfx ∈ suffixes /\ key = name +:+ sfx).

Lemma collected_lookup (ds : list (gmap string val))
    (mv : gmap string (list float)) :
  (forall k, mv !! k = match column k ds with
                       | [] => (∅ : gmap string (list float)) !! k
                       | vals => Some (default [] ((∅ : gmap string (list float)) !! k) ++ vals)
                       end) ->
  forall k vals, mv !! k = Some vals <-> column k ds = vals /\ vals <> [].
Proof.
  intros Hmv k vals. rewrite Hmv, lookup_empty. cbn.
  destruct (column k ds) as [|x rest]; split.
  - discriminate.
  - intros [<- H]. congruence.
  - intros [= <-]. split; [reflexivity | discriminate].
  - intros [<- _]. reflexivity.
Qed.

Lemma aggregate_nonempty (h : heap) (self : aggregator) (records : list val)
    (ds : list (gmap string val)) :
  h !! metrics self = Some (OList records) ->
  records <> [] ->
  Forall2 (record_at h) records ds ->
  Forall (map_Forall (fun _ v => convertible v)) ds ->
  (forall name, column name ds <> [] -> summarizable (column name ds)) ->
  exists agg,
    aggregate h self = Ok (h ++ [ODict agg], VRef (List.length h))
    /\ aggregated_from agg (List.length records) ds.
Proof.
  intros Hself Hne Hat Hconv Hstat.
  destruct (for_each_collect_item h records ds ∅ Hat Hconv) as (mv & Hrun1 & Hmv).
  pose proof (collected_lookup ds mv Hmv) as Hcol.
  destruct (for_each_summarize (map_to_list mv) ∅) as (agg0 & Hrun2 & Hsum & Hframe).
  { apply NoDup_fst_map_to_list. }
  { apply Forall_forall. intros [k vals] Hin. cbn.
    apply elem_of_map_to_list, Hcol in Hin as [<- Hvals].
    split; [exact Hvals | apply Hstat, Hvals]. }
  exists (<["num_files" := VInt (Z.of_nat (List.length records))]> agg0). split.
  - unfold aggregate, iter_object. rewrite Hself. cbn.
    destruct records as [|item rest]; [congruence|].
    rewrite Hrun1. cbn. rewrite Hrun2. reflexivity.
  - split; [apply lookup_insert_eq | split].
    + intros name Hname. eapply summary_of_ext.
      * intros sfx Hsfx. apply lookup_insert_ne.
        intros Heq. symmetry in Heq. revert Heq. apply key_not_num_files, Hsfx.
      * apply Hsum, elem_of_map_to_list, Hcol. tauto.
    + intros key Hkey.
      destruct (decide (key = "num_files")) as [->|Hnum]; [left; reflexivity|].
      right. rewrite lookup_insert_ne in Hkey by congruence.
      destruct (decide (Exists (fun name => Exists (fun sfx => key = name +:+ sfx)
                                             suffixes) (map_to_list mv).*1))
        as [Hex|Hnex].
      * apply Exists_exists in Hex as (name & Hname & Hex).
        apply Exists_exists in Hex as (sfx & Hsfx & ->).
        exists name, sfx. split; [|split; [exact Hsfx | reflexivity]].
        apply list_elem_of_fmap in Hname as ([name' vals] & -> & Hin). cbn.
        apply elem_of_map_to_list, Hcol in Hin as [-> Hvals]. exact Hvals.
      * exfalso. rewrite Hframe, lookup_empty in Hkey.
        { destruct Hkey as [? Hkey]. discriminate. }
        intros name sfx Hname Hsfx ->. apply Hnex.
        apply Exists_exists. exists name. split; [exact Hname|].
        apply Exists_exists. exists sfx. split; [exact Hsfx | reflexivity].
Qed.

(** *** [aggregate] reads the store and adds one object to it *)

Lemma subscript_extend (h extra : heap) (v : val) (key : string) (r : val) :
  subscript h v key = Ok r -> subscript (h ++ extra) v key = Ok r.
Proof.
  unfold subscript. destruct v as [| | | | |l]; try discriminate.
  destruct (h !! l) as [o|] eqn:Hl; [|discriminate].
  rewrite (lookup_app_l_Some _ _ _ _ Hl). trivial.
Qed.

Lemma items_extend (h extra : heap) (v : val) (kvs : list (string * val)) :
  items h v = Ok kvs -> items (h ++ extra) v = Ok kvs.
Proof.
  unfold items. destruct v as [| | | | |l]; try discriminate.
  destruct (h !! l) as [o|] eqn:Hl; [|discriminate].
  rewrite (lookup_app_l_Some _ _ _ _ Hl). trivial.
Qed.

Lemma collect_item_extend (h extra : heap) (acc acc' : gmap string (list float))
    (item : val) :
  collect_item h acc item = Ok acc' -> collect_item (h ++ extra) acc item = Ok acc'.
Proof.
  unfold collect_item.
  destruct (subscript h item "metrics") as [m|] eqn:Hm; [|discriminate].
  rewrite (subscript_extend _ extra _ _ _ Hm). cbn.
  destruct (items h m) as [kvs|] eqn:Hkvs; [|discriminate].
  rewrite (items_extend _ extra _ _ Hkvs). trivial.
Qed.

Lemma for_each_collect_extend (h extra : heap) (records : list val)
    (acc acc' : gmap string (list float)) :
  for_each (collect_item h) acc records = Ok acc' ->
  for_each (collect_item (h ++ extra)) acc records = Ok acc'.
Proof.
  revert acc. induction records as [|item rest IH]; intros acc; [trivial|].
  cbn [for_each].
  destruct (collect_item h acc item) as [acc1|] eqn:H1; [|discriminate].
  rewrite (collect_item_extend _ extra _ _ _ H1). cbn. apply IH.
Qed.

Lemma iter_object_extend (h extra : heap) (l : loc) (records : list val) :
  iter_object h l = Ok records -> iter_object (h ++ extra) l = Ok records.
Proof.
  unfold iter_object. destruct (h !! l) as [o|] eqn:Hl; [|discriminate].
  rewrite (lookup_app_l_Some _ _ _ _ Hl). trivial.
Qed.

(** A call that returns has added one mapping at the end of the store and
    returns a reference to it. *)
Lemma aggregate_allocates (h h' : heap) (self : aggregator) (v : val) :
  aggregate h self = Ok (h', v) ->
  exists agg, h' = h ++ [ODict agg] /\ v = VRef (List.length h).
Proof.
  unfold aggregate.
  destruct (iter_object h (metrics self)) as [records|]; [|discriminate]. cbn.
  destruct records as [|item rest].
  - intros [= <- <-]. eexists. split; reflexivity.
  - destruct (for_each (collect_item h) ∅ (item :: rest)) as [mv|]; [|discriminate].
    cbn. destruct (for_each summarize ∅ (map_to_list mv)) as [agg|]; [|discriminate].
    cbn. intros [= <- <-]. eexists. split; reflexivity.
Qed.

(** On a larger store, a call that returned returns the same mapping. *)
Lemma aggregate_extend (h extra : heap) (self : aggregator)
    (agg : gmap string val) (v : val) :
  aggregate h self = Ok (h ++ [ODict agg], v) ->
  aggregate (h ++ extra) self
  = Ok ((h ++ extra) ++ [ODict agg], VRef (List.length (h ++ extra))).
Proof.
  unfold aggregate.
  destruct (iter_object h (metrics self)) as [records|] eqn:Hrec; [|discriminate].
  rewrite (iter_object_extend _ extra _ _ Hrec). cbn.
  destruct records as [|item rest].
  - intros [= Heq _]. apply app_inv_head in Heq. injection Heq as <-. reflexivity.
  - destruct (for_each (collect_item h) ∅ (item :: rest)) as [mv|] eqn:Hmv;
      [|discriminate].
    rewrite (for_each_collect_extend _ extra _ _ _ Hmv). cbn.
    destruct (for_each summarize ∅ (map_to_list mv)) as [agg0|]; [|discriminate].
    cbn. intros [= Heq _]. apply app_inv_head in Heq. injection Heq as <-.
    reflexivity.
Qed.

(** With no record, [aggregate] returns a new empty mapping. *)
Lemma aggregate_empty (h : heap) (self : aggregator) :
  h !! metrics self = Some (OList []) ->
  aggregate h self = Ok (h ++ [ODict ∅], VRef (List.length h)).
Proof. intros Hself. unfold aggregate, iter_object. rewrite Hself. reflexivity. Qed.

End Summarize.

(** *** [statistics] on IEEE doubles *)

(** A finite double as the integer pair [(m, e)] of its value [m * 2^e]. *)
Definition exact (x : spec_float) : option (Z * Z) :=
  match x with
  | S754_zero _ => Some (0, 0)%Z
  | S754_finite s m e => Some (cond_Zopp s (Zpos m), e)
  | _ => None
  end.

Definition add_exact (a b : Z * Z) : Z * Z :=
  let e := Z.min a.2 b.2 in
  (a.1 * 2 ^ (a.2 - e) + b.1 * 2 ^ (b.2 - e), e)%Z.

(** The double nearest to [m * 2^e / n]. *)
Definition div_round (m e : Z) (n : positive) : spec_float :=
  match m with
  | Z0 => S754_zero false
  | Zpos p =>
      SFdiv Binary64.prec Binary64.emax (S754_finite false p e) (S754_finite false n 0)
  | Zneg p =>
      SFdiv Binary64.prec Binary64.emax (S754_finite true p e) (S754_finite false n 0)
  end.

Definition is_finite (x : spec_float) : bool :=
  match exact x with Some _ => true | None => false end.

(** [statistics.mean(data)] on floats: the exact sum of the data divided
    by their number, rounded once; with an infinity or a NaN among the
    data, the float sum of those. *)
Definition mean64 (data : list spec_float) : result spec_float :=
  match data with
  | [] => Raise StatisticsError
  | _ =>
      match mapM exact data with
      | Some parts =>
          let total := foldl add_exact (0, 0)%Z parts in
          Ok (div_round total.1 total.2 (Pos.of_nat (List.length data)))
      | None =>
          Ok (foldl (SFadd Binary64.prec Binary64.emax) (S754_zero false)
                (filter (fun x => is_finite x = false) data))
      end
  end.

Fixpoint insert_sorted (x : spec_float) (l : list spec_float) : list spec_float :=
  match l with
  | [] => [x]
  | y :: l' => if SFltb x y then x :: l else y :: insert_sorted x l'
  end.

(** [sorted(data)]: a stable sort by [<]. *)
Definition sorted64 (data : list spec_float) : list spec_float :=
  foldl (fun acc x => insert_sorted x acc) [] data.

(** [statistics.median(data)]: the middle of the sorted data, or the mean
    of the two middle values. *)
Definition median64 (data : list spec_float) : result spec_float :=
  let data := sorted64 data in
  let n := List.length data in
  if (n =? 0)%nat then Raise StatisticsError
  else if Nat.odd n then or_raise IndexError (data !! (n / 2)%nat)
  else
    let i := (n / 2)%nat in
    lower ← or_raise IndexError (data !! (i - 1)%nat);
    upper ← or_raise IndexError (data !! i);
    Ok (SFdiv Binary64.prec Binary64.emax
          (SFadd Binary64.prec Binary64.emax lower upper)
          (S754_finite false 4503599627370496 (-51))).

(** The statistics on doubles; [statistics.stdev] is left open. *)
Definition Statistics64 (stdev : list spec_float -> result spec_float)
  : @Statistics Binary64_float := {|
  stat_mean := mean64;
  stat_stdev := stdev;
  stat_median := median64
|}.

(** The double a decimal literal denotes. *)
Definition dbl (s : string) : spec_float :=
  default S754_nan (Binary64.of_string s).

(** Three records, each with one DER value, as the caller holds them. *)
Definition der_store : list (obj (FL:=Binary64_float)) :=
  [ODict (<["DER" := VFloat (dbl "0.10")]> ∅);
   ODict (<["DER" := VFloat (dbl "0.20")]> ∅);
   ODict (<["DER" := VFloat (dbl "0.30")]> ∅)].

Definition der_batch : list (val (FL:=Binary64_float) * val (FL:=Binary64_float)) :=
  [(VRef 0, VStr "a.wav"); (VRef 1, VStr "b.wav"); (VRef 2, VNone)].

(** A batch with an integer beyond the range of a double. *)
Definition big_store : list (obj (FL:=Binary64_float)) :=
  [ODict (<["frames" := VInt (2 ^ 1024)]> ∅)].

Definition big_batch : list (val (FL:=Binary64_float) * val (FL:=Binary64_float)) :=
  [(VRef 0, VNone)].

(** The metrics arguments of a batch given by the places of its mappings. *)
Definition batch `{FL : PyFloat} (recs : list (loc * val)) : list (val * val) :=
  (fun rec => (VRef rec.1, rec.2)) <$> recs.

(** What a caller sees of [aggregate()] on a new aggregator fed with a
    batch: the mapping returned. *)
Definition aggregate_batch `{FL : PyFloat} `{ST : !Statistics}
    (h0 : heap) (recs : list (val * val)) : result (gmap string val) :=
  hs ← session h0 recs;
  hv ← aggregate hs.1 hs.2;
  match hv.2 with
  | VRef l =>
      match hv.1 !! l with
      | Some (ODict d) => Ok d
      | _ => Raise TypeError
      end
  | _ => Raise TypeError
  end.

Definition keys_of `{FL : PyFloat} (r : result (gmap string val))
  : option (list string) :=
  match r with
  | Ok d => Some (map_to_list d).*1
  | Raise _ => None
  end.

Definition float_entry (r : result (gmap string (val (FL:=Binary64_float))))
    (key : string) : option spec_float :=
  match r with
  | Ok d => match d !! key with Some (VFloat x) => Some x | _ => None end
  | Raise _ => None
  end.

Definition int_entry `{FL : PyFloat} (r : result (gmap string val))
    (key : string) : option Z :=
  match r with
  | Ok d => match d !! key with Some (VInt n) => Some n | _ => None end
  | Raise _ => None
  end.

Definition raised {A : Type} (r : result A) : option exn :=
  match r with
  | Ok _ => None
  | Raise e => Some e
  end.

Lemma stored_app `{FL : PyFloat} (h extra : heap) (item : val) (rec : val * val) :
  stored h item rec -> stored (h ++ extra) item rec.
Proof.
  intros (r & -> & Hr). exists r. split; [reflexivity|].
  apply lookup_app_l_Some, Hr.
Qed.

Lemma batch_record_at `{FL : PyFloat} (h0 h : heap) (items : list val)
    (recs : list (loc * val)) (ds : list (gmap string val)) :
  (forall l o, h0 !! l = Some o -> h !! l = Some o) ->
  Forall2 (stored h) items (batch recs) ->
  Forall2 (fun rec d => h0 !! rec.1 = Some (ODict d)) recs ds ->
  Forall2 (record_at h) items ds.
Proof.
  intros Hkeep Hitems. revert ds. unfold batch in Hitems.
  remember ((fun rec => (VRef rec.1, rec.2)) <$> recs) as vrecs eqn:Hv.
  revert recs Hv.
  induction Hitems as [|item vrec items vrecs Hitem _ IH]; intros recs Hv ds Hds.
  - destruct recs; [|discriminate]. inversion Hds. constructor.
  - destruct recs as [|[m fid] recs]; [discriminate|].
    cbn in Hv. injection Hv as -> ->.
    inversion Hds as [|? d ? ds' Hd Hds']; subst.
    constructor; [|apply (IH recs); [reflexivity | exact Hds']].
    eapply stored_record_at; [exact Hitem|]. apply Hkeep, Hd.
Qed.

(** A batch of records whose numbers convert, fed to a new aggregator:
    [aggregate()] returns a new mapping, empty for the empty batch and
    made of the statistics and [num_files] otherwise. *)
Lemma aggregate_of_batch `{FL : PyFloat} `{ST : !Statistics} (h0 : heap)
    (recs : list (loc * val)) (ds : list (gmap string val)) :
  Forall2 (fun rec d => h0 !! rec.1 = Some (ODict d)) recs ds ->
  Forall (map_Forall (fun _ v => convertible v)) ds ->
  (forall name, column name ds <> [] -> summarizable (column name ds)) ->
  exists h self agg,
    session h0 (batch recs) = Ok (h, self)
    /\ aggregate h self = Ok (h ++ [ODict agg], VRef (List.length h))
    /\ match recs with
       | [] => agg = ∅
       | _ => aggregated_from agg (List.length recs) ds
       end.
Proof.
  intros Hds Hconv Hstat.
  destruct (session_spec h0 (batch recs))
    as (h & Hrun & (items & Hself & Hitems) & Hkeep).
  exists h, (mkAggregator (List.length h0)).
  pose proof (Forall2_length _ _ _ Hitems) as Hlen.
  unfold batch in Hlen. rewrite length_fmap in Hlen.
  destruct recs as [|rec recs].
  - destruct items; [|discriminate]. exists ∅.
    split; [exact Hrun|]. split; [|reflexivity]. apply aggregate_empty, Hself.
  - destruct (aggregate_nonempty h (mkAggregator (List.length h0)) items ds Hself)
      as (agg & Hagg & Hfrom).
    + destruct items; discriminate.
    + eapply batch_record_at; eassumption.
    + exact Hconv.
    + exact Hstat.
    + exists agg. split; [exact Hrun|]. split; [exact Hagg|].
      rewrite <- Hlen. exact Hfrom.
Qed.

Lemma aggregate_batch_returns `{FL : PyFloat} `{ST : !Statistics} (h0 : heap)
    (recs : list (loc * val)) (ds : list (gmap string val)) :
  Forall2 (fun rec d => h0 !! rec.1 = Some (ODict d)) recs ds ->
  Forall (map_Forall (fun _ v => convertible v)) ds ->
  (forall name, column name ds <> [] -> summarizable (column name ds)) ->
  exists agg,
    aggregate_batch h0 (batch recs) = Ok agg
    /\ match recs with
       | [] => agg = ∅
       | _ => aggregated_from agg (List.length recs) ds
       end.
Proof.
  intros Hds Hconv Hstat.
  destruct (aggregate_of_batch h0 recs ds Hds Hconv Hstat)
    as (h & self & agg & Hrun & Hagg & Hfrom).
  exists agg. split; [|exact Hfrom].
  unfold aggregate_batch. rewrite Hrun. cbn. rewrite Hagg. cbn.
  rewrite list_lookup_middle by reflexivity. reflexivity.
Qed.

Lemma convertible_float `{FL : PyFloat} (x : float) : convertible (VFloat x).
Proof. intros e. discriminate. Qed.

Definition der_recs : list (loc * val (FL:=Binary64_float)) :=
  [(0, VStr "a.wav"); (1, VStr "b.wav"); (2, VNone)]%nat.

Definition der_dicts : list (gmap string (val (FL:=Binary64_float))) :=
  [<["DER" := VFloat (dbl "0.10")]> ∅;
   <["DER" := VFloat (dbl "0.20")]> ∅;
   <["DER" := VFloat (dbl "0.30")]> ∅].

Definition der_values : list spec_float := [dbl "0.10"; dbl "0.20"; dbl "0.30"].

Lemma der_store_holds :
  Forall2 (fun rec d => der_store !! rec.1 = Some (ODict d)) der_recs der_dicts.
Proof. repeat constructor. Qed.

Lemma der_dicts_convertible :
  Forall (map_Forall (fun _ v => convertible v)) der_dicts.
Proof.
  repeat constructor;
    (apply map_Forall_insert_2; [apply convertible_float | apply map_Forall_empty]).
Qed.

Lemma der_column (name : string) :
  column name der_dicts = if String.eqb name "DER" then der_values else [].
Proof.
  unfold column, der_dicts, number_at. cbn [omap list_omap].
  destruct (String.eqb name "DER") eqn:Hname.
  - apply String.eqb_eq in Hname. subst name.
    rewrite !lookup_insert_eq. reflexivity.
  - apply String.eqb_neq in Hname.
    rewrite !lookup_insert_ne, !lookup_empty by congruence. reflexivity.
Qed.

Lemma der_summarizable (stdev : list spec_float -> result spec_float)
    (std : spec_float) (name : string) :
  stdev der_values = Ok std ->
  column name der_dicts <> [] ->
  summarizable (ST:=Statistics64 stdev) (column name der_dicts).
Proof.
  intros Hstd. rewrite der_column. destruct (String.eqb name "DER"); [|congruence].
  intros _. split; [|split].
  - eexists. vm_compute. reflexivity.
  - exists std. exact Hstd.
  - eexists. vm_compute. reflexivity.
Qed.

(** C7, as amended.  For every non-empty sequence of records added with
    [add], whose numbers convert to [float], [aggregate()] returns a new
    mapping that holds, for each metric key with a numeric value in some
    record, the mean, the sample standard deviation (0.0 with fewer than 2
    values), the minimum, the maximum and the median of the numeric values
    of that key, in the order of the records, under the key followed by
    [_mean], [_std], [_min], [_max], [_median]; [num_files], the number of
    records; and nothing else.  For no record it returns a new empty
    mapping.  For the DER values 0.10, 0.20, 0.30 the mapping has
    mean 0.20, min 0.10, max 0.30, median 0.20 and [num_files] 3. *)
Theorem aggregate_statistics :
  (forall (FL : PyFloat) (ST : Statistics) (h0 : heap)
          (recs : list (loc * val)) (ds : list (gmap string val)),
     Forall2 (fun rec d => h0 !! rec.1 = Some (ODict d)) recs ds ->
     Forall (map_Forall (fun _ v => convertible v)) ds ->
     (forall name, column name ds <> [] -> summarizable (column name ds)) ->
     exists h self agg,
       session h0 (batch recs) = Ok (h, self)
       /\ aggregate h self = Ok (h ++ [ODict agg], VRef (List.length h))
       /\ match recs with
          | [] => agg = ∅
          | _ => aggregated_from agg (List.length recs) ds
          end)
  /\ (forall stdev std,
       stdev der_values = Ok std ->
       let r := aggregate_batch (ST:=Statistics64 stdev) der_store der_batch in
       float_entry r "DER_mean" = Some (dbl "0.20")
       /\ float_entry r "DER_min" = Some (dbl "0.10")
       /\ float_entry r "DER_max" = Some (dbl "0.30")
       /\ float_entry r "DER_median" = Some (dbl "0.20")
       /\ int_entry r "num_files" = Some 3%Z).
Proof.
  split.
  - intros FL ST h0 recs ds. apply aggregate_of_batch.
  - intros stdev std Hstd r. subst r.
    destruct (aggregate_batch_returns (ST:=Statistics64 stdev) der_store der_recs
                der_dicts der_store_holds der_dicts_convertible
                (fun name => der_summarizable stdev std name Hstd))
      as (agg & Hagg & Hnum & Hsum & _).
    change (batch der_recs) with der_batch in Hagg. rewrite Hagg.
    unfold float_entry, int_entry. rewrite Hnum.
    assert (column "DER" der_dicts <> []) as Hne by (rewrite der_column; discriminate).
    destruct (Hsum "DER" Hne) as (Hmean & _ & Hmin & Hmax & Hmedian).
    rewrite der_column in Hmean, Hmin, Hmax, Hmedian.
    cbn [String.eqb Ascii.eqb Bool.eqb] in Hmean, Hmin, Hmax, Hmedian.
    change (stat_mean (Statistics:=Statistics64 stdev) der_values)
      with (Ok (dbl "0.20") : result spec_float) in Hmean.
    change (py_min (FL:=Binary64_float) der_values)
      with (Ok (dbl "0.10") : result spec_float) in Hmin.
    change (py_max (FL:=Binary64_float) der_values)
      with (Ok (dbl "0.30") : result spec_float) in Hmax.
    change (stat_median (Statistics:=Statistics64 stdev) der_values)
      with (Ok (dbl "0.20") : result spec_float) in Hmedian.
    cbn [is_result] in Hmean, Hmin, Hmax, Hmedian.
    change ("DER" +:+ "_mean") with "DER_mean" in Hmean.
    change ("DER" +:+ "_min") with "DER_min" in Hmin.
    change ("DER" +:+ "_max") with "DER_max" in Hmax.
    change ("DER" +:+ "_median") with "DER_median" in Hmedian.
    rewrite Hmean, Hmin, Hmax, Hmedian. repeat split; reflexivity.
Qed.

(** C7, as stated, fails.  With no record added, [aggregate()] returns the
    empty mapping: there is no [num_files] in it.  With an integer beyond
    the range of a double among the values, it raises [OverflowError]. *)
Lemma aggregate_empty_has_no_num_files :
  (forall stdev,
     keys_of (aggregate_batch (ST:=Statistics64 stdev) [] []) = Some [])
  /\ (forall stdev,
       raised (aggregate_batch (ST:=Statistics64 stdev) big_store big_batch)
       = Some OverflowError).
Proof. split; intros stdev; vm_compute; reflexivity. Qed.

(** The three DER records: what the caller holds, and what [aggregate()]
    returns for them. *)
Lemma aggregate_der_records :
  Forall2 (fun rec d => der_store !! rec.1 = Some (ODict d)) der_recs der_dicts
  /\ Forall (map_Forall (fun _ v => convertible v)) der_dicts
  /\ forall stdev std,
      stdev der_values = Ok std ->
      exists h self agg,
        session der_store (batch der_recs) = Ok (h, self)
        /\ aggregate (ST:=Statistics64 stdev) h self
           = Ok (h ++ [ODict agg], VRef (List.length h))
        /\ aggregated_from (ST:=Statistics64 stdev) agg 3 der_dicts.
Proof.
  split; [exact der_store_holds|]. split; [exact der_dicts_convertible|].
  intros stdev std Hstd.
  exact (proj1 aggregate_statistics Binary64_float (Statistics64 stdev)
           der_store der_recs der_dicts der_store_holds der_dicts_convertible
           (fun name => der_summarizable stdev std name Hstd)).
Defined.

(** C9.  [aggregate()] reads the records and changes nothing it finds: a
    call that returns has added one new mapping to the store and returns a
    reference to it; a second call returns another new mapping with the same
    contents; the list [get_per_file_metrics()] returns is the list of the
    aggregator, which holds the records made by [add] in the order they were
    added, before and after.  When the metrics of the records are mappings
    whose numbers convert to [float], the call returns. *)
Theorem aggregate_is_pure (FL : PyFloat) (ST : Statistics)
    (h0 : heap) (recs : list (val * val)) :
  exists h self items,
    session h0 recs = Ok (h, self)
    /\ get_per_file_metrics h self = (h, VRef (metrics self))
    /\ h !! metrics self = Some (OList items)
    /\ Forall2 (stored h) items recs
    /\ (forall h1 v1,
         aggregate h self = Ok (h1, v1) ->
         exists agg,
           h1 = h ++ [ODict agg]
           /\ v1 = VRef (List.length h)
           /\ h !! List.length h = None
           /\ aggregate h1 self
              = Ok (h1 ++ [ODict agg], VRef (List.length h1))
           /\ get_per_file_metrics h1 self = (h1, VRef (metrics self))
           /\ h1 !! metrics self = Some (OList items)
           /\ Forall2 (stored h1) items recs)
    /\ (forall (places : list (loc * val)) (ds : list (gmap string val)),
         recs = batch places ->
         Forall2 (fun rec d => h0 !! rec.1 = Some (ODict d)) places ds ->
         Forall (map_Forall (fun _ v => convertible v)) ds ->
         (forall name, column name ds <> [] -> summarizable (column name ds)) ->
         exists h1 v1, aggregate h self = Ok (h1, v1)).
Proof.
  destruct (session_spec h0 recs) as (h & Hrun & (items & Hself & Hitems) & Hkeep).
  exists h, (mkAggregator (List.length h0)), items.
  split; [exact Hrun|]. split; [reflexivity|]. split; [exact Hself|].
  split; [exact Hitems|]. split.
  - intros h1 v1 Hagg.
    destruct (aggregate_allocates h h1 _ v1 Hagg) as (agg & -> & ->).
    exists agg. split; [reflexivity|]. split; [reflexivity|].
    split; [apply lookup_ge_None_2; lia|].
    split; [eapply aggregate_extend, Hagg|].
    split; [reflexivity|].
    split; [apply lookup_app_l_Some, Hself|].
    eapply Forall2_impl; [exact Hitems|]. intros item rec. apply stored_app.
  - intros places ds -> Hds Hconv Hstat.
    destruct (aggregate_of_batch h0 places ds Hds Hconv Hstat)
      as (h' & self' & agg & Hrun' & Hagg & _).
    rewrite Hrun in Hrun'. injection Hrun' as <- <-. eauto.
Qed.

End MetricAggregator.

(** ** The scoring engine

    [compute_der] and [compute_jer] hand the two timelines to
    [DiarizationErrorRate] and [JaccardErrorRate] of [pyannote.metrics],
    which are not part of the repository.  The engine below is the one
    section 4.2 of the specification describes, in exact arithmetic
    (times and durations are rationals, in seconds). *)

Module Scoring.

Local Open Scope Q_scope.

(** Modelled from the spec: the Segment Timeline of section 3, a list of
    Labeled Segments (start, end, speaker); the [Annotation] the code
    passes to the engine is missing. *)
Definition timeline : Type := list (Q * Q * string).

Definition speaker_of (seg : Q * Q * string) : string := seg.2.

(** The speakers of a timeline, each once, in the order they appear. *)
Definition speakers (tl : timeline) : list string :=
  remove_dups (speaker_of <$> tl).

(** [sum] of a list of durations. *)
Definition Qsum (l : list Q) : Q := foldr Qplus 0 l.

(** Inserts [x] into a sorted list without repetition. *)
Fixpoint insert_boundary (x : Q) (l : list Q) : list Q :=
  match l with
  | [] => [x]
  | y :: l' =>
      if Qeq_bool x y then l
      else if Qle_bool x y then x :: l
      else y :: insert_boundary x l'
  end.

(** Modelled from the spec: the turn boundaries of a timeline, "start or
    end of a ... segment" (section 4.2, step 2), in increasing order. *)
Definition boundaries (tl : timeline) : list Q :=
  foldr insert_boundary [] (flat_map (fun seg => [seg.1.1; seg.1.2]) tl).

(** The intervals between consecutive boundaries. *)
Fixpoint between (bs : list Q) : list (Q * Q) :=
  match bs with
  | a :: ((b :: _) as rest) => (a, b) :: between rest
  | _ => []
  end.

(** The speaker [spk] of [tl] has a segment that lasts throughout the
    interval from [ab.1] to [ab.2]. *)
Definition speaks (tl : timeline) (spk : string) (ab : Q * Q) : bool :=
  existsb (fun seg => String.eqb seg.2 spk
                      && Qle_bool seg.1.1 ab.1 && Qle_bool ab.2 seg.1.2) tl.

(** Modelled from the spec: "the set of ... speakers active during" an
    interval (section 4.2, step 4): the speakers of [tl] with a segment
    that lasts throughout it, each once.  The intervals that are scored
    are cut at every boundary of [tl], so that a segment lasts throughout
    an interval or shares no time with it; a segment of zero length lasts
    throughout none and "contribute[s] no duration" (section 3). *)
Definition active (tl : timeline) (ab : Q * Q) : list string :=
  filter (fun spk => speaks tl spk ab = true) (speakers tl).

(** One scored segment: its duration, and the reference and hypothesis
    speakers active during it. *)
Record scored : Type := mkScored {
  duration : Q;
  refs : list string;
  hyps : list string
}.

(** Modelled from the spec: the edges of the windows of [collar] seconds
    on both sides of "every reference speaker-turn boundary (start or end
    of a reference segment)" (section 4.2, step 2). *)
Definition collar_edges (collar : Q) (reference : timeline) : list Q :=
  flat_map (fun t => [t - collar; t + collar]) (boundaries reference).

(** The points at which the time axis is cut: the boundaries of the
    reference, between which the set of active reference speakers is
    constant (step 1); the boundaries of the hypothesis, so that the
    active hypothesis speakers are constant as well and every speaker is
    counted for the time it overlaps only; and the edges of the collar
    windows.  In increasing order. *)
Definition cuts (collar : Q) (reference hypothesis : timeline) : list Q :=
  foldr insert_boundary (boundaries (reference ++ hypothesis))
        (collar_edges collar reference).

(** The interval lies in the collar window of a reference boundary. *)
Definition in_collar (collar : Q) (reference : timeline) (ab : Q * Q) : bool :=
  existsb (fun t => Qle_bool (t - collar) ab.1 && Qle_bool ab.2 (t + collar))
          (boundaries reference).

(** Modelled from the spec: section 4.2, steps 1 to 4, on one interval
    between two consecutive cuts.  The interval is left out when it lies
    in a collar window and, with [skip_overlap], when more than one
    reference speaker is active during it; otherwise it is scored with its
    duration and the speakers of both timelines active during it.  Where
    no reference speaker is active, the hypothesis speakers are still
    counted: their time is false alarm. *)
Definition scored_segment (collar : Q) (skip_overlap : bool)
    (reference hypothesis : timeline) (ab : Q * Q) : option scored :=
  if in_collar collar reference ab then None
  else
    let r := active reference ab in
    if skip_overlap && (1 <? List.length r)%nat then None
    else Some (mkScored (ab.2 - ab.1) r (active hypothesis ab)).

Definition scored_segments (collar : Q) (skip_overlap : bool)
    (reference hypothesis : timeline) : list scored :=
  omap (scored_segment collar skip_overlap reference hypothesis)
       (between (cuts collar reference hypothesis)).

(** A one-to-one mapping from hypothesis speakers to reference speakers,
    as the list of its pairs. *)
Definition mapping : Type := list (string * string).

Fixpoint mapped (m : mapping) (h : string) : option string :=
  match m with
  | [] => None
  | (h', r) :: m' => if String.eqb h h' then Some r else mapped m' h
  end.

(** Every one-to-one mapping from the speakers [hs] to the speakers
    [rs]: each speaker of [hs] is left out, or takes a speaker of [rs]
    that no other takes. *)
Fixpoint mappings (hs rs : list string) : list mapping :=
  match hs with
  | [] => [[]]
  | h :: hs' =>
      mappings hs' rs
      ++ flat_map (fun r =>
           cons (h, r) <$> mappings hs' (filter (fun r' => r' <> r) rs)) rs
  end.

(** The hypothesis speakers of a scored segment that the mapping sends to
    a reference speaker of the segment. *)
Definition correct (m : mapping) (s : scored) : nat :=
  List.length
    (filter (fun h => match mapped m h with
                      | Some r => bool_decide (r ∈ refs s)
                      | None => false
                      end = true) (hyps s)).

Definition Qnat (n : nat) : Q := inject_Z (Z.of_nat n).

(** Modelled from the spec: section 4.2, steps 6 and 7, per scored
    segment, with [N_ref] reference and [N_hyp] hypothesis speakers:
    miss is [duration * max(0, N_ref - N_hyp)], false alarm is
    [duration * max(0, N_hyp - N_ref)], confusion is [duration] times the
    speakers paired in the segment that the mapping does not match, and
    the total is [duration * N_ref]. *)
Definition miss_of (s : scored) : Q :=
  duration s * Qnat (List.length (refs s) - List.length (hyps s)).

Definition false_alarm_of (s : scored) : Q :=
  duration s * Qnat (List.length (hyps s) - List.length (refs s)).

Definition confusion_of (m : mapping) (s : scored) : Q :=
  duration s
  * Qnat (Nat.min (List.length (refs s)) (List.length (hyps s)) - correct m s).

Definition total_of (s : scored) : Q :=
  duration s * Qnat (List.length (refs s)).

Definition total_confusion (segs : list scored) (m : mapping) : Q :=
  Qsum (confusion_of m <$> segs).

Definition Qmin_list (x : Q) (l : list Q) : Q := foldr Qmin x l.
Definition Qmax_list (x : Q) (l : list Q) : Q := foldr Qmax x l.

(** Modelled from the spec: section 4.2, step 5, the confusion left by
    the "global one-to-one mapping ... that minimizes total confusion
    duration across the whole file". *)
Definition least_confusion (segs : list scored) (hs rs : list string) : Q :=
  Qmin_list (total_confusion segs []) (total_confusion segs <$> mappings hs rs).

(** Modelled from the spec: the Score Components of section 3 with the
    DER of section 4.2, step 8; when no reference speech is scored the
    total is 0, [undefined] is set and the DER is reported as 0. *)
Record score : Type := mkScore {
  DER : Q;
  miss : Q;
  false_alarm : Q;
  confusion : Q;
  total : Q;
  undefined : bool
}.

(** Modelled from the spec: the DER algorithm of section 4.2, which the
    code leaves to [DiarizationErrorRate] of [pyannote.metrics]. *)
Definition compute_der (reference hypothesis : timeline)
    (collar : Q) (skip_overlap : bool) : score :=
  let segs := scored_segments collar skip_overlap reference hypothesis in
  let m := Qsum (miss_of <$> segs) in
  let fa := Qsum (false_alarm_of <$> segs) in
  let c := least_confusion segs (speakers hypothesis) (speakers reference) in
  let t := Qsum (total_of <$> segs) in
  if Qeq_bool t 0 then mkScore 0 m fa c t true
  else mkScore ((m + fa + c) / t) m fa c t false.

(** The defaults of [compute_der]: [collar = 0.25], [skip_overlap = False]. *)
Definition default_collar : Q := 1 # 4.
Definition default_skip_overlap : bool := false.

Definition measure (cells : list (Q * Q)) (inside : Q * Q -> bool) : Q :=
  Qsum ((fun ab => if inside ab then ab.2 - ab.1 else 0) <$> cells).

(** The intervals between the boundaries of both timelines. *)
Definition cells (reference hypothesis : timeline) : list (Q * Q) :=
  between (boundaries (reference ++ hypothesis)).

(** The time both speakers are active, and the time one of them is. *)
Definition shared_time (reference hypothesis : timeline) (r h : string) : Q :=
  measure (cells reference hypothesis)
          (fun ab => speaks reference r ab && speaks hypothesis h ab).

Definition joint_time (reference hypothesis : timeline) (r h : string) : Q :=
  measure (cells reference hypothesis)
          (fun ab => speaks reference r ab || speaks hypothesis h ab).

(** Modelled from the spec: the Jaccard index of a reference and a
    hypothesis speaker, "intersection duration / union duration of their
    active-time sets" (section 4.2), measured on the intervals between
    the boundaries of both timelines.  Two speakers that are never active
    (section 3 permits segments of zero length) have a union of duration
    0, for which the quotient has no value: their active-time sets are
    both empty, and the index of two empty sets is 1, as it is for any two
    equal sets. *)
Definition jaccard (reference hypothesis : timeline) (r h : string) : Q :=
  let joint := joint_time reference hypothesis r h in
  if Qeq_bool joint 0 then 1
  else shared_time reference hypothesis r h / joint.

Definition total_jaccard (reference hypothesis : timeline) (m : mapping) : Q :=
  Qsum ((fun hr => jaccard reference hypothesis hr.2 hr.1) <$> m).

(** Modelled from the spec: the JER of section 4.2, which the code leaves
    to [JaccardErrorRate] of [pyannote.metrics].  Reference and hypothesis
    speakers are paired one to one so that the Jaccard indices add up to
    the most; a speaker left without a partner scores 0; with the smaller
    side paired in full, the pairs and the speakers left alone are
    [max(N_ref, N_hyp)], over which the mean is taken. *)
Definition compute_jer (reference hypothesis : timeline) : Q :=
  let hs := speakers hypothesis in
  let rs := speakers reference in
  let best := Qmax_list 0 (total_jaccard reference hypothesis <$> mappings hs rs) in
  1 - best / Qnat (Nat.max (List.length rs) (List.length hs)).

(** *** Sums *)

Lemma Qsum_zero {A : Type} (f : A -> Q) (l : list A) :
  Forall (fun x => f x == 0) l -> Qsum (f <$> l) == 0.
Proof.
  induction 1 as [|x l Hx _ IH]; cbn; [reflexivity|].
  change (foldr Qplus 0 (f <$> l)) with (Qsum (f <$> l)). rewrite Hx, IH. lra.
Qed.

Lemma Qsum_ext {A : Type} (f g : A -> Q) (l : list A) :
  Forall (fun x => f x == g x) l -> Qsum (f <$> l) == Qsum (g <$> l).
Proof.
  induction 1 as [|x l Hx _ IH]; cbn; [reflexivity|].
  change (foldr Qplus 0 (f <$> l)) with (Qsum (f <$> l)).
  change (foldr Qplus 0 (g <$> l)) with (Qsum (g <$> l)). rewrite Hx, IH. lra.
Qed.

Lemma Qnat_0 : Qnat 0 == 0.
Proof. reflexivity. Qed.

(** *** The scored segments *)

Lemma scored_segments_spec (collar : Q) (skip_overlap : bool)
    (reference hypothesis : timeline) (s : scored) :
  s ∈ scored_segments collar skip_overlap reference hypothesis ->
  exists ab,
    ab ∈ between (cuts collar reference hypothesis)
    /\ in_collar collar reference ab = false
    /\ duration s = ab.2 - ab.1
    /\ refs s = active reference ab /\ hyps s = active hypothesis ab.
Proof.
  unfold scored_segments. intros Hs.
  apply list_elem_of_omap in Hs as (ab & Hab & Hs).
  unfold scored_segment in Hs.
  destruct (in_collar collar reference ab) eqn:Hin; [discriminate|].
  cbv zeta in Hs. destruct (skip_overlap && _); [discriminate|].
  injection Hs as <-. exists ab. repeat split; assumption.
Qed.

(** *** The cuts are increasing *)

Lemma Qle_bool_false (x y : Q) : Qle_bool x y = false -> y < x.
Proof.
  intros H. destruct (Qlt_le_dec y x) as [Hlt|Hle]; [exact Hlt|].
  apply Qle_bool_iff in Hle. congruence.
Qed.

Lemma insert_boundary_head (a x : Q) (l : list Q) :
  a < x -> HdRel Qlt a l -> HdRel Qlt a (insert_boundary x l).
Proof.
  intros Hax Hl. destruct l as [|y l]; cbn; [constructor; exact Hax|].
  destruct (Qeq_bool x y); [exact Hl|].
  destruct (Qle_bool x y); constructor; [exact Hax|].
  inversion Hl; assumption.
Qed.

Lemma insert_boundary_sorted (x : Q) (l : list Q) :
  Sorted Qlt l -> Sorted Qlt (insert_boundary x l).
Proof.
  induction 1 as [|y l Hl IH Hy]; cbn; [repeat constructor|].
  destruct (Qeq_bool x y) eqn:Heq; [constructor; assumption|].
  apply Qeq_bool_neq in Heq.
  destruct (Qle_bool x y) eqn:Hle.
  - apply Qle_bool_iff in Hle. constructor; [constructor; assumption|].
    constructor. apply Qle_lteq in Hle as [Hlt|Heq']; [exact Hlt | contradiction].
  - apply Qle_bool_false in Hle. constructor; [exact IH|].
    apply insert_boundary_head; assumption.
Qed.

Lemma boundaries_sorted (tl : timeline) : Sorted Qlt (boundaries tl).
Proof.
  unfold boundaries. induction (flat_map _ tl) as [|x l IH]; cbn;
    [constructor | apply insert_boundary_sorted, IH].
Qed.

Lemma cuts_sorted (collar : Q) (reference hypothesis : timeline) :
  Sorted Qlt (cuts collar reference hypothesis).
Proof.
  unfold cuts. induction (collar_edges collar reference) as [|x l IH]; cbn;
    [apply boundaries_sorted | apply insert_boundary_sorted, IH].
Qed.

Lemma between_increasing (bs : list Q) (ab : Q * Q) :
  Sorted Qlt bs -> ab ∈ between bs -> ab.1 < ab.2.
Proof.
  induction 1 as [|a l Hl IH Ha]; [intros H; apply elem_of_nil in H; destruct H|].
  destruct l as [|b l]; [intros H; apply elem_of_nil in H; destruct H|].
  cbn [between]. intros H. apply elem_of_cons in H as [->|H].
  - cbn. inversion Ha; assumption.
  - apply IH, H.
Qed.

(** Every scored segment lasts for some time. *)
Lemma duration_pos (collar : Q) (skip_overlap : bool)
    (reference hypothesis : timeline) (s : scored) :
  s ∈ scored_segments collar skip_overlap reference hypothesis -> 0 < duration s.
Proof.
  intros Hs. apply scored_segments_spec in Hs as (ab & Hab & _ & -> & _).
  apply between_increasing in Hab; [lra | apply cuts_sorted].
Qed.

(** *** No segment and no collar window ends inside a scored interval *)

Lemma insert_boundary_keeps (x y : Q) (l : list Q) :
  y ∈ l -> y ∈ insert_boundary x l.
Proof.
  induction l as [|z l IH]; intros Hy; [apply elem_of_nil in Hy; destruct Hy|].
  cbn. destruct (Qeq_bool x z); [exact Hy|].
  destruct (Qle_bool x z); [right; exact Hy|].
  apply elem_of_cons in Hy as [->|Hy]; [left | right; apply IH, Hy].
Qed.

Lemma insert_boundary_has (x : Q) (l : list Q) :
  exists y, y ∈ insert_boundary x l /\ y == x.
Proof.
  induction l as [|z l (y & Hy & Hyx)]; cbn.
  - exists x. split; [left | reflexivity].
  - destruct (Qeq_bool x z) eqn:Heq.
    + apply Qeq_bool_iff in Heq. exists z. split; [left | symmetry; exact Heq].
    + destruct (Qle_bool x z).
      * exists x. split; [left | reflexivity].
      * exists y. split; [right; exact Hy | exact Hyx].
Qed.

Lemma insert_all_keeps (xs base : list Q) (y : Q) :
  y ∈ base -> y ∈ foldr insert_boundary base xs.
Proof.
  intros Hy. induction xs as [|x xs IH]; [exact Hy|].
  cbn. apply insert_boundary_keeps, IH.
Qed.

Lemma insert_all_has (xs base : list Q) (x : Q) :
  x ∈ xs -> exists y, y ∈ foldr insert_boundary base xs /\ y == x.
Proof.
  induction xs as [|z xs IH]; intros Hx; [apply elem_of_nil in Hx; destruct Hx|].
  cbn. apply elem_of_cons in Hx as [->|Hx]; [apply insert_boundary_has|].
  destruct (IH Hx) as (y & Hy & Hyx). exists y.
  split; [apply insert_boundary_keeps, Hy | exact Hyx].
Qed.

(** The start and the end of every segment of either timeline are cuts. *)
Lemma segment_ends_are_cuts (collar : Q) (reference hypothesis : timeline)
    (seg : Q * Q * string) :
  seg ∈ reference ++ hypothesis ->
  exists y y', y ∈ cuts collar reference hypothesis
               /\ y' ∈ cuts collar reference hypothesis
               /\ y == seg.1.1 /\ y' == seg.1.2.
Proof.
  intros Hseg. unfold cuts, boundaries.
  assert (forall x, x ∈ [seg.1.1; seg.1.2] ->
            x ∈ flat_map (fun seg => [seg.1.1; seg.1.2]) (reference ++ hypothesis))
    as Hends.
  { intros x Hx. apply list_elem_of_In, in_flat_map. exists seg.
    split; apply list_elem_of_In; assumption. }
  destruct (insert_all_has _ [] seg.1.1 (Hends _ ltac:(left))) as (y & Hy & Hyx).
  destruct (insert_all_has _ [] seg.1.2 (Hends _ ltac:(right; left)))
    as (y' & Hy' & Hyx').
  exists y, y'. repeat split; try assumption; apply insert_all_keeps; assumption.
Qed.

(** So are the two edges of the collar window of every reference
    boundary. *)
Lemma collar_edges_are_cuts (collar : Q) (reference hypothesis : timeline)
    (t : Q) :
  t ∈ boundaries reference ->
  exists y y', y ∈ cuts collar reference hypothesis
               /\ y' ∈ cuts collar reference hypothesis
               /\ y == t - collar /\ y' == t + collar.
Proof.
  intros Ht. unfold cuts.
  assert (forall x, x ∈ [t - collar; t + collar] ->
            x ∈ collar_edges collar reference) as Hedges.
  { intros x Hx. apply list_elem_of_In, in_flat_map. exists t.
    split; apply list_elem_of_In; assumption. }
  destruct (insert_all_has _ (boundaries (reference ++ hypothesis))
              (t - collar) (Hedges _ ltac:(left))) as (y & Hy & Hyx).
  destruct (insert_all_has _ (boundaries (reference ++ hypothesis))
              (t + collar) (Hedges _ ltac:(right; left))) as (y' & Hy' & Hyx').
  exists y, y'. repeat split; assumption.
Qed.

Lemma between_ends (bs : list Q) (ab : Q * Q) :
  ab ∈ between bs -> ab.1 ∈ bs /\ ab.2 ∈ bs.
Proof.
  induction bs as [|a bs IH]; [intros H; apply elem_of_nil in H; destruct H|].
  destruct bs as [|b bs]; [intros H; apply elem_of_nil in H; destruct H|].
  cbn [between]. intros H. apply elem_of_cons in H as [->|H].
  - cbn. split; [left | right; left].
  - destruct (IH H) as [H1 H2]. split; right; assumption.
Qed.

(** No point of an increasing list lies strictly between two consecutive
    ones. *)
Lemma between_gap (bs : list Q) (ab : Q * Q) (y : Q) :
  Sorted Qlt bs -> ab ∈ between bs -> y ∈ bs -> y <= ab.1 \/ ab.2 <= y.
Proof.
  intros Hs. apply Sorted_StronglySorted in Hs; [|intros x1 x2 x3; apply Qlt_trans].
  induction Hs as [|a l Hl IH Ha];
    [intros H; apply elem_of_nil in H; destruct H|].
  destruct l as [|b l]; [intros H; apply elem_of_nil in H; destruct H|].
  change (between (a :: b :: l)) with ((a, b) :: between (b :: l)).
  intros Hab Hy.
  pose proof (proj1 (Forall_forall _ _) Ha) as Hafter.
  apply elem_of_cons in Hab as [->|Hab]; cbn [fst snd].
  - apply elem_of_cons in Hy as [->|Hy]; [left; apply Qle_refl|].
    apply elem_of_cons in Hy as [->|Hy]; [right; apply Qle_refl|].
    right. apply Qlt_le_weak.
    apply StronglySorted_inv in Hl as [_ Hb].
    exact (proj1 (Forall_forall _ _) Hb y Hy).
  - apply elem_of_cons in Hy as [->|Hy]; [|apply IH; assumption].
    left. apply Qlt_le_weak, Hafter. apply between_ends in Hab as [H1 _]. exact H1.
Qed.

(** A segment of either timeline lasts throughout an interval between two
    consecutive cuts, or shares no time with it: how long a speaker is
    active is the sum of the intervals on which it [speaks]. *)
Lemma segment_lasts_or_misses (collar : Q) (reference hypothesis : timeline)
    (ab : Q * Q) (seg : Q * Q * string) :
  ab ∈ between (cuts collar reference hypothesis) ->
  seg ∈ reference ++ hypothesis ->
  (seg.1.1 <= ab.1 /\ ab.2 <= seg.1.2) \/ seg.1.2 <= ab.1 \/ ab.2 <= seg.1.1.
Proof.
  intros Hab Hseg.
  destruct (segment_ends_are_cuts collar reference hypothesis seg Hseg)
    as (y & y' & Hy & Hy' & Hyx & Hyx').
  pose proof (cuts_sorted collar reference hypothesis) as Hs.
  destruct (between_gap _ ab y Hs Hab Hy) as [H1|H1];
    destruct (between_gap _ ab y' Hs Hab Hy') as [H2|H2]; lra.
Qed.

(** An interval between two consecutive cuts lies in the collar window of
    a reference boundary, or shares no time with it. *)
Lemma window_holds_or_misses (collar : Q) (reference hypothesis : timeline)
    (ab : Q * Q) (t : Q) :
  ab ∈ between (cuts collar reference hypothesis) ->
  t ∈ boundaries reference ->
  (t - collar <= ab.1 /\ ab.2 <= t + collar)
  \/ t + collar <= ab.1 \/ ab.2 <= t - collar.
Proof.
  intros Hab Ht.
  destruct (collar_edges_are_cuts collar reference hypothesis t Ht)
    as (y & y' & Hy & Hy' & Hyx & Hyx').
  pose proof (cuts_sorted collar reference hypothesis) as Hs.
  destruct (between_gap _ ab y Hs Hab Hy) as [H1|H1];
    destruct (between_gap _ ab y' Hs Hab Hy') as [H2|H2]; lra.
Qed.

(** *** An empty hypothesis *)












(** *** Least and greatest *)

Lemma Qsum_le {A : Type} (f g : A -> Q) (l : list A) :
  Forall (fun x => f x <= g x) l -> Qsum (f <$> l) <= Qsum (g <$> l).
Proof.
  induction 1 as [|x l Hx _ IH]; cbn; [lra|].
  change (foldr Qplus 0 (f <$> l)) with (Qsum (f <$> l)).
  change (foldr Qplus 0 (g <$> l)) with (Qsum (g <$> l)). lra.
Qed.

Lemma Qsum_nonneg {A : Type} (f : A -> Q) (l : list A) :
  Forall (fun x => 0 <= f x) l -> 0 <= Qsum (f <$> l).
Proof.
  induction 1 as [|x l Hx _ IH]; cbn; [lra|].
  change (foldr Qplus 0 (f <$> l)) with (Qsum (f <$> l)). lra.
Qed.

Lemma Qmin_list_le (x y : Q) (l : list Q) : y ∈ l -> Qmin_list x l <= y.
Proof.
  induction 1 as [y l|y z l _ IH]; cbn;
    change (foldr Qmin x l) with (Qmin_list x l).
  - apply Q.le_min_l.
  - pose proof (Q.le_min_r z (Qmin_list x l)). lra.
Qed.

Lemma Qmin_list_ge (b x : Q) (l : list Q) :
  b <= x -> Forall (Qle b) l -> b <= Qmin_list x l.
Proof.
  intros Hx. induction 1 as [|y l Hy _ IH]; cbn; [exact Hx|].
  apply Q.min_glb; assumption.
Qed.

Lemma Qmax_list_ge (x y : Q) (l : list Q) : y ∈ l -> y <= Qmax_list x l.
Proof.
  induction 1 as [y l|y z l _ IH]; cbn;
    change (foldr Qmax x l) with (Qmax_list x l).
  - apply Q.le_max_l.
  - pose proof (Q.le_max_r z (Qmax_list x l)). lra.
Qed.

Lemma Qmax_list_le (b x : Q) (l : list Q) :
  x <= b -> Forall (fun y => y <= b) l -> Qmax_list x l <= b.
Proof.
  intros Hx. induction 1 as [|y l Hy _ IH]; cbn; [exact Hx|].
  apply Q.max_lub; assumption.
Qed.

Lemma Qnat_nonneg (n : nat) : 0 <= Qnat n.
Proof.
  unfold Qnat. change 0 with (inject_Z 0). rewrite <- Zle_Qle. lia.
Qed.

Lemma Qnat_S (n : nat) : Qnat (S n) == Qnat n + 1.
Proof.
  unfold Qnat. rewrite Nat2Z.inj_succ, <- Z.add_1_r, inject_Z_plus. reflexivity.
Qed.

Lemma Qnat_le (n k : nat) : (n <= k)%nat -> Qnat n <= Qnat k.
Proof. intros H. unfold Qnat. rewrite <- Zle_Qle. lia. Qed.

(** *** Identical timelines *)

(** The mapping of every speaker to itself. *)
Definition same_speakers (l : list string) : mapping := (fun x => (x, x)) <$> l.

Lemma same_speakers_mapping (l : list string) :
  NoDup l -> same_speakers l ∈ mappings l l.
Proof.
  induction 1 as [|x l Hx Hnd IH]; [apply list_elem_of_here|].
  cbn [mappings same_speakers fmap list_fmap].
  apply elem_of_app. right. cbn [flat_map]. apply elem_of_app. left.
  rewrite filter_cons_False by (intros H; apply H; reflexivity).
  assert (filter (fun r' => r' <> x) l = l) as ->.
  { clear IH Hnd. induction l as [|y l IH]; [reflexivity|].
    apply not_elem_of_cons in Hx as [Hne Hx].
    rewrite filter_cons_True by congruence. rewrite (IH Hx). reflexivity. }
  apply list_elem_of_fmap. exists (same_speakers l). split; [reflexivity | exact IH].
Qed.

Lemma mapped_same_speakers (l : list string) (x : string) :
  x ∈ l -> mapped (same_speakers l) x = Some x.
Proof.
  induction l as [|y l IH]; intros Hx; [apply elem_of_nil in Hx; destruct Hx|].
  cbn. destruct (String.eqb x y) eqn:Hxy.
  - apply String.eqb_eq in Hxy. congruence.
  - apply String.eqb_neq in Hxy. apply elem_of_cons in Hx as [Hx|Hx]; [congruence|].
    apply IH, Hx.
Qed.

Lemma active_speakers (tl : timeline) (ab : Q * Q) (x : string) :
  x ∈ active tl ab -> x ∈ speakers tl.
Proof. unfold active. intros H. apply list_elem_of_filter in H as [_ H]. exact H. Qed.

Lemma correct_same_speakers (l : list string) (s : scored) :
  hyps s = refs s -> (forall x, x ∈ hyps s -> x ∈ l) ->
  correct (same_speakers l) s = List.length (hyps s).
Proof.
  intros Heq Hsub. unfold correct. f_equal.
  rewrite <- Heq. clear Heq.
  assert (forall hs : list string, (forall x, x ∈ hs -> x ∈ hyps s) ->
            filter (fun h => match mapped (same_speakers l) h with
                             | Some r => bool_decide (r ∈ hyps s)
                             | None => false
                             end = true) hs = hs) as H.
  { induction hs as [|h hs IH]; intros Hhs; [reflexivity|].
    rewrite filter_cons_True.
    - rewrite IH; [reflexivity|]. intros x Hx. apply Hhs. right. exact Hx.
    - rewrite mapped_same_speakers by (apply Hsub, Hhs; left).
      apply bool_decide_eq_true. apply Hhs. left. }
  apply H. auto.
Qed.

Lemma confusion_nonneg (collar : Q) (skip_overlap : bool)
    (reference hypothesis : timeline) (m : mapping) :
  0 <= total_confusion (scored_segments collar skip_overlap reference hypothesis) m.
Proof.
  apply Qsum_nonneg, Forall_forall. intros s Hs. unfold confusion_of.
  apply Qmult_le_0_compat; [|apply Qnat_nonneg].
  apply Qlt_le_weak. eapply duration_pos, Hs.
Qed.

Lemma identical_segments (collar : Q) (skip_overlap : bool) (reference : timeline) :
  Forall (fun s => hyps s = refs s /\ forall x, x ∈ hyps s -> x ∈ speakers reference)
         (scored_segments collar skip_overlap reference reference).
Proof.
  apply Forall_forall. intros s Hs.
  apply scored_segments_spec in Hs as (ab & _ & _ & _ & -> & ->).
  split; [reflexivity|]. intros x. apply active_speakers.
Qed.

(** A timeline against itself has no miss, no false alarm and no
    confusion, whatever the collar and [skip_overlap]; its DER is 0, or
    undefined and reported as 0 when nothing of it is scored. *)
Lemma der_of_identical (reference : timeline) (collar : Q) (skip_overlap : bool) :
  let r := compute_der reference reference collar skip_overlap in
  DER r == 0 /\ miss r == 0 /\ false_alarm r == 0 /\ confusion r == 0.
Proof.
  pose proof (identical_segments collar skip_overlap reference) as Hsame.
  pose proof (confusion_nonneg collar skip_overlap reference reference) as Hpos.
  set (segs := scored_segments collar skip_overlap reference reference) in *.
  assert (Qsum (miss_of <$> segs) == 0) as Hm.
  { apply Qsum_zero. eapply Forall_impl; [exact Hsame|]. intros s [Heq _].
    unfold miss_of. rewrite Heq, Nat.sub_diag, Qnat_0. lra. }
  assert (Qsum (false_alarm_of <$> segs) == 0) as Hfa.
  { apply Qsum_zero. eapply Forall_impl; [exact Hsame|]. intros s [Heq _].
    unfold false_alarm_of. rewrite Heq, Nat.sub_diag, Qnat_0. lra. }
  assert (total_confusion segs (same_speakers (speakers reference)) == 0) as Hid.
  { apply Qsum_zero. eapply Forall_impl; [exact Hsame|]. intros s [Heq Hsub].
    unfold confusion_of. rewrite (correct_same_speakers _ s Heq Hsub).
    rewrite Heq, Nat.min_id, Nat.sub_diag, Qnat_0. lra. }
  assert (least_confusion segs (speakers reference) (speakers reference) == 0) as Hc.
  { apply Qle_antisym.
    - rewrite <- Hid. apply Qmin_list_le. apply list_elem_of_fmap.
      eexists. split; [reflexivity|].
      apply same_speakers_mapping, NoDup_remove_dups.
    - apply Qmin_list_ge; [apply Hpos|]. apply Forall_forall. intros q Hq.
      apply list_elem_of_fmap in Hq as (m & -> & _). apply Hpos. }
  cbv zeta. unfold compute_der. fold segs.
  generalize dependent (Qsum (miss_of <$> segs)). intros m Hm.
  generalize dependent (Qsum (false_alarm_of <$> segs)). intros fa Hfa.
  generalize dependent (least_confusion segs (speakers reference) (speakers reference)).
  intros c Hc.
  generalize (Qsum (total_of <$> segs)). intros t.
  destruct (Qeq_bool t 0) eqn:Ht; cbn.
  - repeat split; try assumption; reflexivity.
  - apply Qeq_bool_neq in Ht. repeat split; try assumption.
    field_simplify_eq; [lra | exact Ht].
Qed.

Lemma cells_increasing (reference hypothesis : timeline) (ab : Q * Q) :
  ab ∈ cells reference hypothesis -> ab.1 < ab.2.
Proof. apply between_increasing, boundaries_sorted. Qed.

Lemma measure_le (cs : list (Q * Q)) (inside inside' : Q * Q -> bool) :
  (forall ab, ab ∈ cs -> ab.1 < ab.2) ->
  (forall ab, inside ab = true -> inside' ab = true) ->
  measure cs inside <= measure cs inside'.
Proof.
  intros Hcs Himp. apply Qsum_le, Forall_forall. intros ab Hab.
  specialize (Hcs ab Hab). specialize (Himp ab).
  destruct (inside ab); [rewrite Himp by reflexivity; lra|].
  destruct (inside' ab); lra.
Qed.

Lemma measure_nonneg (cs : list (Q * Q)) (inside : Q * Q -> bool) :
  (forall ab, ab ∈ cs -> ab.1 < ab.2) -> 0 <= measure cs inside.
Proof.
  intros Hcs. apply Qsum_nonneg, Forall_forall. intros ab Hab.
  specialize (Hcs ab Hab). destruct (inside ab); lra.
Qed.

Lemma measure_ext (cs : list (Q * Q)) (inside inside' : Q * Q -> bool) :
  (forall ab, inside ab = inside' ab) -> measure cs inside == measure cs inside'.
Proof.
  intros Hext. apply Qsum_ext, Forall_forall. intros ab _. rewrite Hext. reflexivity.
Qed.

(** A Jaccard index lies between 0 and 1. *)
Lemma jaccard_bounds (reference hypothesis : timeline) (r h : string) :
  0 <= jaccard reference hypothesis r h <= 1.
Proof.
  unfold jaccard. cbv zeta.
  pose proof (measure_nonneg (cells reference hypothesis)
    (fun ab => speaks reference r ab && speaks hypothesis h ab)
    (cells_increasing reference hypothesis)) as Hs.
  pose proof (measure_le (cells reference hypothesis)
    (fun ab => speaks reference r ab && speaks hypothesis h ab)
    (fun ab => speaks reference r ab || speaks hypothesis h ab)
    (cells_increasing reference hypothesis)) as Hle.
  fold (shared_time reference hypothesis r h) in Hs, Hle.
  fold (joint_time reference hypothesis r h) in Hle.
  assert (shared_time reference hypothesis r h <= joint_time reference hypothesis r h)
    as Hsj.
  { apply Hle. intros ab Hab. apply andb_true_iff in Hab as [-> _]. reflexivity. }
  clear Hle.
  generalize dependent (shared_time reference hypothesis r h).
  generalize (joint_time reference hypothesis r h). intros j sh Hs Hsj.
  destruct (Qeq_bool j 0) eqn:Hj; [lra|].
  apply Qeq_bool_neq in Hj. assert (0 < j) by lra. split.
  - apply Qle_shift_div_l; lra.
  - apply Qle_shift_div_r; lra.
Qed.

(** The index of a speaker with itself is 1. *)
Lemma jaccard_same (reference : timeline) (x : string) :
  jaccard reference reference x x == 1.
Proof.
  unfold jaccard. cbv zeta.
  assert (shared_time reference reference x x == joint_time reference reference x x)
    as Heq.
  { apply measure_ext. intros ab. rewrite andb_diag, orb_diag. reflexivity. }
  generalize dependent (shared_time reference reference x x).
  generalize (joint_time reference reference x x).
  intros j sh Heq.
  destruct (Qeq_bool j 0) eqn:Hj0; [reflexivity|].
  apply Qeq_bool_neq in Hj0. field_simplify_eq; lra.
Qed.

Lemma mappings_length (hs rs : list string) (m : mapping) :
  m ∈ mappings hs rs -> (List.length m <= List.length hs)%nat.
Proof.
  revert rs m. induction hs as [|h hs IH]; intros rs m Hm.
  - apply list_elem_of_singleton in Hm as ->. cbn. lia.
  - cbn [mappings] in Hm. apply elem_of_app in Hm as [Hm|Hm].
    + apply IH in Hm. cbn. lia.
    + apply list_elem_of_In, in_flat_map in Hm as (r & _ & Hm).
      apply list_elem_of_In, list_elem_of_fmap in Hm as (m' & -> & Hm').
      apply IH in Hm'. cbn. lia.
Qed.

Lemma total_jaccard_le (reference hypothesis : timeline) (m : mapping) :
  total_jaccard reference hypothesis m <= Qnat (List.length m).
Proof.
  unfold total_jaccard. induction m as [|hr m IH]; cbn; [apply Qle_refl|].
  change (foldr Qplus 0 ((fun hr => jaccard reference hypothesis hr.2 hr.1) <$> m))
    with (Qsum ((fun hr => jaccard reference hypothesis hr.2 hr.1) <$> m)).
  pose proof (jaccard_bounds reference hypothesis hr.2 hr.1) as [_ H].
  rewrite Qnat_S. lra.
Qed.

Lemma total_jaccard_same (reference : timeline) (l : list string) :
  total_jaccard reference reference (same_speakers l) == Qnat (List.length l).
Proof.
  unfold total_jaccard. induction l as [|x l IH]; [reflexivity|].
  cbn [same_speakers fmap list_fmap Qsum foldr List.length].
  change (foldr Qplus 0 ((fun hr => jaccard reference reference hr.2 hr.1)
                           <$> ((fun x => (x, x)) <$> l)))
    with (Qsum ((fun hr => jaccard reference reference hr.2 hr.1)
                  <$> same_speakers l)).
  rewrite IH. cbn [fst snd]. rewrite jaccard_same, Qnat_S. lra.
Qed.

(** A timeline that is not empty has JER 0 against itself: pairing every
    speaker with itself gives every speaker the index 1, and no pairing
    gives more. *)
Lemma jer_of_identical (reference : timeline) :
  reference <> [] -> compute_jer reference reference == 0.
Proof.
  intros Hne. unfold compute_jer.
  set (l := speakers reference) in *.
  assert (Qmax_list 0 (total_jaccard reference reference <$> mappings l l)
          == Qnat (List.length l)) as Hbest.
  { apply Qle_antisym.
    - apply Qmax_list_le; [apply Qnat_nonneg|]. apply Forall_forall. intros q Hq.
      apply list_elem_of_fmap in Hq as (m & -> & Hm).
      eapply Qle_trans; [apply total_jaccard_le|].
      apply Qnat_le. eapply mappings_length, Hm.
    - rewrite <- (total_jaccard_same reference l).
      apply Qmax_list_ge, list_elem_of_fmap. eexists. split; [reflexivity|].
      apply same_speakers_mapping, NoDup_remove_dups. }
  rewrite Nat.max_id.
  assert (0 < Qnat (List.length l)) as Hn.
  { destruct reference as [|seg tl]; [congruence|].
    assert (speaker_of seg ∈ l) as Hin
      by (apply elem_of_remove_dups; left).
    destruct l as [|x l']; [apply elem_of_nil in Hin; destruct Hin|].
    unfold Qnat. change 0 with (inject_Z 0). rewrite <- Zlt_Qlt. cbn. lia. }
  generalize dependent (Qmax_list 0 (total_jaccard reference reference <$> mappings l l)).
  generalize dependent (Qnat (List.length l)). intros n Hn best Hbest.
  field_simplify_eq; lra.
Qed.

(** The timeline of the round-trip example: A from 0 to 2.5, B from 2.5
    to 5.5. *)
Definition two_turns : timeline := [(0, 5 # 2, "A"); (5 # 2, 11 # 2, "B")].

(** A reference of one segment of zero length, which section 3 permits. *)
Definition instant_reference : timeline := [(1, 1, "A")].

(** C1.  A reference timeline that is not empty, scored against an
    identical copy of itself under the default collar and [skip_overlap]
    (and under any other), has miss, false alarm and confusion 0 and DER
    0, and it has JER 0.  Where no reference speech is scored the total is
    0 and the DER, undefined, is reported as 0; a speaker that is never
    active has the index 1 with itself. *)
Theorem identical_timelines_score_zero (reference : timeline) (collar : Q)
    (skip_overlap : bool) :
  reference <> [] ->
  (let r := compute_der reference reference default_collar default_skip_overlap in
   DER r == 0 /\ miss r == 0 /\ false_alarm r == 0 /\ confusion r == 0)
  /\ (let r := compute_der reference reference collar skip_overlap in
      DER r == 0 /\ miss r == 0 /\ false_alarm r == 0 /\ confusion r == 0
      /\ (undefined r = true <-> total r == 0))
  /\ compute_jer reference reference == 0.
Proof.
  intros Hne. split; [apply der_of_identical|]. split.
  - cbv zeta.
    destruct (der_of_identical reference collar skip_overlap)
      as (Hder & Hm & Hfa & Hc).
    repeat split; try assumption.
    + unfold compute_der. cbv zeta. destruct (Qeq_bool _ 0) eqn:Ht; cbn.
      * intros _. apply Qeq_bool_iff, Ht.
      * discriminate.
    + unfold compute_der. cbv zeta. destruct (Qeq_bool _ 0) eqn:Ht; cbn.
      * reflexivity.
      * intros H. apply Qeq_bool_neq in Ht. contradiction.
  - apply jer_of_identical, Hne.
Qed.

(** The two turns against themselves: 4.5 seconds are scored under the
    default collar, none of them in error; and the instant reference
    against itself, of which nothing is scored. *)
Lemma two_turns_score_zero :
  (let r := compute_der two_turns two_turns default_collar default_skip_overlap in
   DER r == 0 /\ total r == 9 # 2 /\ undefined r = false)
  /\ compute_jer two_turns two_turns == 0
  /\ (let r := compute_der instant_reference instant_reference
                           default_collar default_skip_overlap in
      DER r == 0 /\ total r == 0 /\ undefined r = true)
  /\ compute_jer instant_reference instant_reference == 0.
Proof.
  destruct (identical_timelines_score_zero two_turns default_collar
              default_skip_overlap ltac:(discriminate))
    as ((Hder & _) & _ & Hjer).
  destruct (identical_timelines_score_zero instant_reference default_collar
              default_skip_overlap ltac:(discriminate))
    as ((Hder' & _) & _ & Hjer').
  cbv zeta in *.
  split; [split; [exact Hder | split; reflexivity]|].
  split; [exact Hjer|].
  split; [split; [exact Hder' | split; reflexivity] | exact Hjer'].
Defined.

(** *** Worked scores *)

(** A hypothesis with the turn one second late, under labels of its own. *)
Definition late_turn : timeline := [(0, 7 # 2, "S1"); (7 # 2, 11 # 2, "S2")].

(** Without a collar, the second between the two turns is confusion and
    nothing else is an error: the two hypothesis speakers are never
    active together.  The default collar removes a quarter of that second,
    and the half second around the three reference boundaries from the
    total. *)
Lemma late_turn_scores :
  let r := compute_der two_turns late_turn 0 false in
  let r' := compute_der two_turns late_turn default_collar default_skip_overlap in
  (miss r == 0 /\ false_alarm r == 0 /\ confusion r == 1
   /\ total r == 11 # 2 /\ DER r == 2 # 11)
  /\ (miss r' == 0 /\ false_alarm r' == 0 /\ confusion r' == 3 # 4
      /\ total r' == 9 # 2 /\ DER r' == 1 # 6)
  /\ compute_jer two_turns late_turn == 13 # 42.
Proof. vm_compute. repeat split. Qed.

(** A hypothesis is counted for the time it lasts: one second of a
    reference of ten leaves nine seconds missed; a segment of zero length
    leaves all of it missed; speech after the end of the reference is
    false alarm. *)
Lemma partial_hypothesis_scores :
  let reference : timeline := [(0, 10, "A")] in
  (let r := compute_der reference [(0, 1, "A")] 0 false in
   miss r == 9 /\ false_alarm r == 0 /\ confusion r == 0 /\ DER r == 9 # 10)
  /\ (let r := compute_der reference [(5, 5, "A")] 0 false in
      miss r == 10 /\ DER r == 1)
  /\ (let r := compute_der reference [(0, 10, "A"); (10, 1000, "A")] 0 false in
      miss r == 0 /\ false_alarm r == 990 /\ DER r == 99).
Proof. vm_compute. repeat split. Qed.

(** *** Relabelling the hypothesis *)

(** The hypothesis with every speaker label [l] replaced by [f l]. *)
Definition relabel (f : string -> string) (tl : timeline) : timeline :=
  (fun seg => (seg.1, f seg.2)) <$> tl.

Definition relabel_scored (f : string -> string) (s : scored) : scored :=
  mkScored (duration s) (refs s) (f <$> hyps s).

Definition relabel_mapping (f : string -> string) (m : mapping) : mapping :=
  (fun hr => (f hr.1, hr.2)) <$> m.

Section Relabel.
Variable f : string -> string.
Hypothesis f_inj : Inj (=) (=) f.

Lemma remove_dups_relabel (l : list string) :
  remove_dups (f <$> l) = f <$> remove_dups l.
Proof.
  induction l as [|x l IH]; [reflexivity|].
  cbn [fmap list_fmap remove_dups]. fold (f <$> l).
  destruct (decide_rel elem_of (f x) (f <$> l)) as [Hin|Hin];
    destruct (decide_rel elem_of x l) as [Hin'|Hin'].
  - exact IH.
  - exfalso. apply list_elem_of_fmap in Hin as (y & Hxy & Hy).
    apply f_inj in Hxy. subst y. contradiction.
  - exfalso. apply Hin, list_elem_of_fmap. exists x. split; [reflexivity | exact Hin'].
  - cbn [fmap list_fmap]. fold (f <$> remove_dups l). rewrite IH. reflexivity.
Qed.

Lemma speakers_relabel (tl : timeline) :
  speakers (relabel f tl) = f <$> speakers tl.
Proof.
  unfold speakers, relabel. rewrite <- remove_dups_relabel, <- !list_fmap_compose.
  reflexivity.
Qed.

Lemma speaks_relabel (tl : timeline) (h : string) (ab : Q * Q) :
  speaks (relabel f tl) (f h) ab = speaks tl h ab.
Proof.
  unfold speaks, relabel. induction tl as [|seg tl IH]; [reflexivity|].
  cbn [fmap list_fmap existsb]. fold ((fun seg => (seg.1, f seg.2)) <$> tl).
  rewrite IH. cbn [fst snd]. do 3 f_equal.
  destruct (String.eqb seg.2 h) eqn:Hh.
  - apply String.eqb_eq in Hh as ->. apply String.eqb_refl.
  - apply String.eqb_neq. intros Hf. apply f_inj in Hf.
    apply String.eqb_neq in Hh. contradiction.
Qed.

Lemma active_relabel (tl : timeline) (ab : Q * Q) :
  active (relabel f tl) ab = f <$> active tl ab.
Proof.
  unfold active. rewrite speakers_relabel.
  induction (speakers tl) as [|h l IH]; [reflexivity|].
  cbn [fmap list_fmap]. fold (f <$> l).
  destruct (speaks tl h ab) eqn:Hh.
  - rewrite (filter_cons_True _ (f h)) by (rewrite speaks_relabel; exact Hh).
    rewrite (filter_cons_True _ h) by exact Hh.
    cbn [fmap list_fmap]. f_equal. exact IH.
  - rewrite (filter_cons_False _ (f h)) by (rewrite speaks_relabel; congruence).
    rewrite (filter_cons_False _ h) by congruence.
    exact IH.
Qed.

Lemma boundaries_relabel (reference hypothesis : timeline) :
  boundaries (reference ++ relabel f hypothesis)
  = boundaries (reference ++ hypothesis).
Proof.
  unfold boundaries. rewrite !flat_map_app. do 2 f_equal.
  unfold relabel. induction hypothesis as [|seg tl IH]; [reflexivity|].
  cbn [fmap list_fmap flat_map]. fold ((fun seg => (seg.1, f seg.2)) <$> tl).
  rewrite IH. reflexivity.
Qed.

Lemma scored_segment_relabel (collar : Q) (skip_overlap : bool)
    (reference hypothesis : timeline) (ab : Q * Q) :
  scored_segment collar skip_overlap reference (relabel f hypothesis) ab
  = relabel_scored f <$> scored_segment collar skip_overlap reference hypothesis ab.
Proof.
  unfold scored_segment. cbv zeta.
  destruct (in_collar collar reference ab); [reflexivity|].
  destruct (skip_overlap && _); [reflexivity|].
  rewrite active_relabel. reflexivity.
Qed.

Lemma scored_segments_relabel (collar : Q) (skip_overlap : bool)
    (reference hypothesis : timeline) :
  scored_segments collar skip_overlap reference (relabel f hypothesis)
  = relabel_scored f <$> scored_segments collar skip_overlap reference hypothesis.
Proof.
  unfold scored_segments, cuts. rewrite boundaries_relabel, list_fmap_omap.
  induction (between _) as [|ab l IH]; [reflexivity|].
  cbn [omap list_omap]. rewrite scored_segment_relabel, IH. reflexivity.
Qed.

Lemma miss_of_relabel (s : scored) : miss_of (relabel_scored f s) = miss_of s.
Proof. unfold miss_of, relabel_scored. cbn. rewrite length_fmap. reflexivity. Qed.

Lemma false_alarm_of_relabel (s : scored) :
  false_alarm_of (relabel_scored f s) = false_alarm_of s.
Proof.
  unfold false_alarm_of, relabel_scored. cbn. rewrite length_fmap. reflexivity.
Qed.

Lemma mapped_relabel (m : mapping) (h : string) :
  mapped (relabel_mapping f m) (f h) = mapped m h.
Proof.
  induction m as [|[h' r] m IH]; [reflexivity|].
  cbn. fold (relabel_mapping f m). rewrite IH.
  destruct (String.eqb h h') eqn:Hh.
  - apply String.eqb_eq in Hh as ->. rewrite String.eqb_refl. reflexivity.
  - destruct (String.eqb (f h) (f h')) eqn:Hf; [|reflexivity].
    apply String.eqb_eq, f_inj in Hf. apply String.eqb_neq in Hh. contradiction.
Qed.

Lemma correct_relabel (m : mapping) (s : scored) :
  correct (relabel_mapping f m) (relabel_scored f s) = correct m s.
Proof.
  unfold correct, relabel_scored. cbn [hyps refs].
  induction (hyps s) as [|h l IH]; [reflexivity|].
  cbn [fmap list_fmap]. fold (f <$> l).
  destruct (match mapped m h with
            | Some r => bool_decide (r ∈ refs s)
            | None => false
            end) eqn:Hm.
  - rewrite (filter_cons_True _ (f h)) by (rewrite mapped_relabel; exact Hm).
    rewrite (filter_cons_True _ h) by exact Hm.
    cbn [List.length]. rewrite IH. reflexivity.
  - rewrite (filter_cons_False _ (f h)) by (rewrite mapped_relabel; congruence).
    rewrite (filter_cons_False _ h) by congruence.
    exact IH.
Qed.

Lemma confusion_of_relabel (m : mapping) (s : scored) :
  confusion_of (relabel_mapping f m) (relabel_scored f s) = confusion_of m s.
Proof.
  unfold confusion_of. rewrite correct_relabel.
  unfold relabel_scored. cbn. rewrite length_fmap. reflexivity.
Qed.

Lemma total_confusion_relabel (segs : list scored) (m : mapping) :
  total_confusion (relabel_scored f <$> segs) (relabel_mapping f m)
  = total_confusion segs m.
Proof.
  unfold total_confusion. rewrite <- list_fmap_compose. f_equal.
  apply list_fmap_ext. intros _ s _. apply confusion_of_relabel.
Qed.

Lemma fmap_flat_map {A B C : Type} (g : B -> C) (k : A -> list B) (l : list A) :
  g <$> flat_map k l = flat_map (fun x => g <$> k x) l.
Proof.
  induction l as [|x l IH]; [reflexivity|].
  cbn [flat_map]. rewrite fmap_app, IH. reflexivity.
Qed.

(** The one-to-one mappings from the relabelled speakers are the
    one-to-one mappings from the speakers, relabelled. *)
Lemma mappings_relabel (hs rs : list string) :
  mappings (f <$> hs) rs = relabel_mapping f <$> mappings hs rs.
Proof.
  revert rs. induction hs as [|h hs IH]; intros rs; [reflexivity|].
  cbn [fmap list_fmap mappings]. fold (f <$> hs).
  rewrite fmap_app, fmap_flat_map, IH. f_equal.
  apply flat_map_ext. intros r. rewrite IH, <- !list_fmap_compose. reflexivity.
Qed.

Lemma least_confusion_relabel (segs : list scored) (hs rs : list string) :
  least_confusion (relabel_scored f <$> segs) (f <$> hs) rs
  = least_confusion segs hs rs.
Proof.
  unfold least_confusion. rewrite mappings_relabel, <- list_fmap_compose.
  change [] with (relabel_mapping f []) at 1. rewrite total_confusion_relabel.
  f_equal. apply list_fmap_ext. intros _ m _. apply total_confusion_relabel.
Qed.

Lemma der_relabel (reference hypothesis : timeline) (collar : Q)
    (skip_overlap : bool) :
  compute_der reference (relabel f hypothesis) collar skip_overlap
  = compute_der reference hypothesis collar skip_overlap.
Proof.
  unfold compute_der. cbv zeta.
  rewrite scored_segments_relabel, speakers_relabel, least_confusion_relabel.
  rewrite <- !list_fmap_compose.
  rewrite (list_fmap_ext (miss_of ∘ relabel_scored f) miss_of)
    by (intros _ s _; apply miss_of_relabel).
  rewrite (list_fmap_ext (false_alarm_of ∘ relabel_scored f) false_alarm_of)
    by (intros _ s _; apply false_alarm_of_relabel).
  reflexivity.
Qed.

Lemma cells_relabel (reference hypothesis : timeline) :
  cells reference (relabel f hypothesis) = cells reference hypothesis.
Proof. unfold cells. rewrite boundaries_relabel. reflexivity. Qed.

Lemma jaccard_relabel (reference hypothesis : timeline) (r h : string) :
  jaccard reference (relabel f hypothesis) r (f h) = jaccard reference hypothesis r h.
Proof.
  unfold jaccard, shared_time, joint_time, measure. rewrite cells_relabel.
  rewrite (list_fmap_ext
             (fun ab => if speaks reference r ab || speaks (relabel f hypothesis) (f h) ab
                        then ab.2 - ab.1 else 0)
             (fun ab => if speaks reference r ab || speaks hypothesis h ab
                        then ab.2 - ab.1 else 0) (cells reference hypothesis))
    by (intros _ ab _; rewrite speaks_relabel; reflexivity).
  rewrite (list_fmap_ext
             (fun ab => if speaks reference r ab && speaks (relabel f hypothesis) (f h) ab
                        then ab.2 - ab.1 else 0)
             (fun ab => if speaks reference r ab && speaks hypothesis h ab
                        then ab.2 - ab.1 else 0) (cells reference hypothesis))
    by (intros _ ab _; rewrite speaks_relabel; reflexivity).
  reflexivity.
Qed.

Lemma total_jaccard_relabel (reference hypothesis : timeline) (m : mapping) :
  total_jaccard reference (relabel f hypothesis) (relabel_mapping f m)
  = total_jaccard reference hypothesis m.
Proof.
  unfold total_jaccard, relabel_mapping. rewrite <- list_fmap_compose. f_equal.
  apply list_fmap_ext. intros _ hr _. apply jaccard_relabel.
Qed.

Lemma jer_relabel (reference hypothesis : timeline) :
  compute_jer reference (relabel f hypothesis) = compute_jer reference hypothesis.
Proof.
  unfold compute_jer. cbv zeta.
  rewrite speakers_relabel, mappings_relabel, <- list_fmap_compose, length_fmap.
  do 3 f_equal. apply list_fmap_ext. intros _ m _. apply total_jaccard_relabel.
Qed.

End Relabel.

(** C3.  Replacing every hypothesis speaker label [l] by [f l], for a
    one-to-one [f] (a bijection on the labels is one), changes neither
    the result of [compute_der], with its DER, its four components and
    its undefined flag, nor the JER of [compute_jer], nor the Jaccard
    index of any reference speaker with any hypothesis speaker, whatever
    the two timelines, the collar and [skip_overlap]. *)
Theorem relabelling_keeps_der_and_jer (f : string -> string)
    (reference hypothesis : timeline) (collar : Q) (skip_overlap : bool) :
  Inj (=) (=) f ->
  compute_der reference (relabel f hypothesis) collar skip_overlap
  = compute_der reference hypothesis collar skip_overlap
  /\ compute_jer reference (relabel f hypothesis)
     = compute_jer reference hypothesis
  /\ forall r h, jaccard reference (relabel f hypothesis) r (f h)
                 = jaccard reference hypothesis r h.
Proof.
  intros Hf. split; [apply der_relabel, Hf|].
  split; [apply jer_relabel, Hf|].
  intros r h. apply jaccard_relabel, Hf.
Qed.

(** Prefixing every label with [x] is one to one: the late turn under the
    labels [xS1] and [xS2] has the scores of the late turn, a DER of 1/6
    under the defaults and a JER of 13/42. *)
Lemma primed_labels_score_alike :
  relabel (String "x") late_turn = [(0, 7 # 2, "xS1"); (7 # 2, 11 # 2, "xS2")]
  /\ compute_der two_turns (relabel (String "x") late_turn)
                 default_collar default_skip_overlap
     = compute_der two_turns late_turn default_collar default_skip_overlap
  /\ compute_jer two_turns (relabel (String "x") late_turn)
     = compute_jer two_turns late_turn
  /\ DER (compute_der two_turns (relabel (String "x") late_turn)
                      default_collar default_skip_overlap) == 1 # 6
  /\ compute_jer two_turns (relabel (String "x") late_turn) == 13 # 42.
Proof.
  assert (Inj (=) (=) (String "x")) as Hinj.
  { intros a b H. injection H as ->. reflexivity. }
  destruct (relabelling_keeps_der_and_jer (String "x") two_turns late_turn
              default_collar default_skip_overlap Hinj) as (Hder & Hjer & _).
  split; [reflexivity|]. split; [exact Hder|]. split; [exact Hjer|].
  rewrite Hder, Hjer. split; reflexivity.
Defined.

End Scoring.

(** ** [compute_der], [compute_jer] and [compute_all_metrics]

    The three methods of [DiarizationMetrics] that call the error rates of
    [pyannote.metrics].  The error rates are taken as they come: a call
    returns a value or raises. *)

Module ComputeMetrics.
Import DiarizationMetrics.

Section Wrappers.
Context `{FL : PyFloat} `{AN : !AnnotationT}.

(** The literal [1.0]. *)
Variable float_one : float.

(** [DiarizationErrorRate(collar, skip_overlap)] called on a reference and
    a hypothesis, its [compute_components], and [JaccardErrorRate()] called
    on a reference and a hypothesis. *)
Class ErrorRates : Type := {
  der_call : pyval -> pyval -> annotation -> annotation -> result pyval;
  der_components : pyval -> pyval -> annotation -> annotation -> result pyval;
  jer_call : annotation -> annotation -> result pyval
}.

Context `{ER : ErrorRates}.

(** [float(v)] *)
Definition to_float (v : pyval) : result float :=
  match v with
  | VFloat x => Ok x
  | VInt z => or_raise OverflowError (float_of_int z)
  | VBool b => or_raise OverflowError (float_of_int (Z.b2z b))
  | VStr s => or_raise ValueError (float_of_str s)
  | _ => Raise TypeError
  end.

(** [v.get(key, dflt)] *)
Definition dict_get (v : pyval) (key : string) (dflt : pyval) : result pyval :=
  match v with
  | VDict d => Ok (default dflt (d !! key))
  | _ => Raise AttributeError
  end.

(** [compute_der(reference, hypothesis, collar, skip_overlap)] *)
Definition compute_der (reference hypothesis : annotation)
    (collar skip_overlap : pyval) : result (gmap string pyval) :=
  der_value ← der_call collar skip_overlap reference hypothesis;
  components ← der_components collar skip_overlap reference hypothesis;
  der ← to_float der_value;
  miss_dflt ← dict_get components "miss" (VFloat float_zero);
  miss ← dict_get components "false negative" miss_dflt ≫= to_float;
  fa_dflt ← dict_get components "false alarm" (VFloat float_zero);
  fa ← dict_get components "false positive" fa_dflt ≫= to_float;
  confusion ← dict_get components "confusion" (VFloat float_zero) ≫= to_float;
  total ← dict_get components "total" (VFloat float_one) ≫= to_float;
  Ok (<["DER" := VFloat der]>
        (<["miss" := VFloat miss]>
           (<["false_alarm" := VFloat fa]>
              (<["confusion" := VFloat confusion]>
                 (<["total" := VFloat total]> ∅))))).

(** [compute_jer(reference, hypothesis)] *)
Definition compute_jer (reference hypothesis : annotation)
  : result (gmap string pyval) :=
  jer_value ← jer_call reference hypothesis;
  jer ← to_float jer_value;
  Ok (<["JER" := VFloat jer]> ∅).

(** [compute_all_metrics(reference_rttm, hypothesis, collar, skip_overlap)],
    on the text of the file at [reference_rttm]; in [{**der_metrics,
    **jer_metrics}] an entry of [jer_metrics] wins. *)
Definition compute_all_metrics (text : string) (hypothesis : gmap string pyval)
    (collar skip_overlap : pyval) : result (gmap string pyval) :=
  reference ← rttm_to_annotation text;
  hypothesis_ann ← hypothesis_to_annotation hypothesis;
  der_metrics ← compute_der reference hypothesis_ann collar skip_overlap;
  jer_metrics ← compute_jer reference hypothesis_ann;
  Ok (jer_metrics ∪ der_metrics).

(** The keys of the result of [compute_der]. *)
Definition der_keys : list string :=
  ["DER"; "miss"; "false_alarm"; "confusion"; "total"].

(** What [compute_der] reads of the components for an entry: the value
    under the first of [names] that is there, or [dflt]. *)
Fixpoint first_of (d : gmap string pyval) (names : list string) (dflt : pyval)
  : pyval :=
  match names with
  | [] => dflt
  | name :: rest => default (first_of d rest dflt) (d !! name)
  end.

Lemma to_float_bind (v : pyval) (k : float -> result (gmap string pyval))
    (r : gmap string pyval) :
  (to_float v ≫= k) = Ok r -> exists x, to_float v = Ok x /\ k x = Ok r.
Proof.
  destruct (to_float v) as [x|e]; [|discriminate]. intros H. exists x. auto.
Qed.

(** A call of [compute_der] that returns: the two calls of the error rate
    returned, the components are a mapping, and the five entries are the
    floats of what was read. *)
Lemma compute_der_returns (reference hypothesis : annotation)
    (collar skip_overlap : pyval) (r : gmap string pyval) :
  compute_der reference hypothesis collar skip_overlap = Ok r ->
  exists der_value d der miss fa confusion total,
    der_call collar skip_overlap reference hypothesis = Ok der_value
    /\ der_components collar skip_overlap reference hypothesis = Ok (VDict d)
    /\ to_float der_value = Ok der
    /\ to_float (first_of d ["false negative"; "miss"] (VFloat float_zero)) = Ok miss
    /\ to_float (first_of d ["false positive"; "false alarm"] (VFloat float_zero))
       = Ok fa
    /\ to_float (first_of d ["confusion"] (VFloat float_zero)) = Ok confusion
    /\ to_float (first_of d ["total"] (VFloat float_one)) = Ok total
    /\ r = <["DER" := VFloat der]>
             (<["miss" := VFloat miss]>
                (<["false_alarm" := VFloat fa]>
                   (<["confusion" := VFloat confusion]>
                      (<["total" := VFloat total]> ∅)))).
Proof.
  unfold compute_der.
  destruct (der_call collar skip_overlap reference hypothesis) as [der_value|];
    [|discriminate].
  destruct (der_components collar skip_overlap reference hypothesis)
    as [components|]; [|discriminate].
  cbn [mbind result_bind]. intros H.
  apply to_float_bind in H as (der & Hder & H).
  destruct components as [| | | | | |d]; try discriminate H.
  cbn [dict_get mbind result_bind] in H.
  apply to_float_bind in H as (miss & Hmiss & H).
  apply to_float_bind in H as (fa & Hfa & H).
  apply to_float_bind in H as (confusion & Hconf & H).
  apply to_float_bind in H as (total & Htotal & H).
  injection H as <-.
  exists der_value, d, der, miss, fa, confusion, total.
  repeat split; assumption.
Qed.

(** The keys of a result of [compute_der]. *)
Lemma compute_der_dom (reference hypothesis : annotation)
    (collar skip_overlap : pyval) (r : gmap string pyval) :
  compute_der reference hypothesis collar skip_overlap = Ok r ->
  dom r = list_to_set der_keys.
Proof.
  intros H.
  apply compute_der_returns in H
    as (_ & _ & der & miss & fa & confusion & total & _ & _ & _ & _ & _ & _ & _ & ->).
  rewrite !dom_insert_L, dom_empty_L. unfold der_keys. cbn [list_to_set].
  reflexivity.
Qed.

(** X1.  A call of [compute_der] that returns gives a mapping with exactly
    the keys [DER], [miss], [false_alarm], [confusion] and [total], each
    holding a float: nothing else comes with the result. *)
Theorem compute_der_five_floats (reference hypothesis : annotation)
    (collar skip_overlap : pyval) (r : gmap string pyval) :
  compute_der reference hypothesis collar skip_overlap = Ok r ->
  dom r = list_to_set der_keys
  /\ forall key v, r !! key = Some v -> exists x, v = VFloat x.
Proof.
  intros H. split; [exact (compute_der_dom _ _ _ _ _ H)|].
  apply compute_der_returns in H
    as (_ & _ & der & miss & fa & confusion & total & _ & _ & _ & _ & _ & _ & _ & ->).
  intros key v Hv.
  repeat (apply lookup_insert_Some in Hv as [[_ <-] | [_ Hv]]; [eauto|]).
  rewrite lookup_empty in Hv. discriminate.
Qed.

(** X2.  [compute_der] reads the components under fixed names: the miss
    under [false negative], which wins, or else [miss]; the false alarm
    under [false positive], which wins, or else [false alarm]; the
    confusion under [confusion] and the total under [total].  What it
    reports for a component is the float of the value found under the
    first of its names that is there, and a component found under none of
    its names is reported as 0.0, a missing total as 1.0. *)
Theorem compute_der_component_names (reference hypothesis : annotation)
    (collar skip_overlap : pyval) (d r : gmap string pyval) :
  der_components collar skip_overlap reference hypothesis = Ok (VDict d) ->
  compute_der reference hypothesis collar skip_overlap = Ok r ->
  (exists miss fa confusion total,
     r !! "miss" = Some (VFloat miss)
     /\ r !! "false_alarm" = Some (VFloat fa)
     /\ r !! "confusion" = Some (VFloat confusion)
     /\ r !! "total" = Some (VFloat total)
     /\ to_float (default (default (VFloat float_zero) (d !! "miss"))
                          (d !! "false negative")) = Ok miss
     /\ to_float (default (default (VFloat float_zero) (d !! "false alarm"))
                          (d !! "false positive")) = Ok fa
     /\ to_float (default (VFloat float_zero) (d !! "confusion")) = Ok confusion
     /\ to_float (default (VFloat float_one) (d !! "total")) = Ok total)
  /\ (forall x, d !! "false negative" = Some (VFloat x) ->
                r !! "miss" = Some (VFloat x))
  /\ (forall x, d !! "false negative" = None -> d !! "miss" = Some (VFloat x) ->
                r !! "miss" = Some (VFloat x))
  /\ (d !! "false negative" = None -> d !! "miss" = None ->
      r !! "miss" = Some (VFloat float_zero))
  /\ (forall x, d !! "false positive" = Some (VFloat x) ->
                r !! "false_alarm" = Some (VFloat x))
  /\ (forall x, d !! "false positive" = None ->
                d !! "false alarm" = Some (VFloat x) ->
                r !! "false_alarm" = Some (VFloat x))
  /\ (d !! "false positive" = None -> d !! "false alarm" = None ->
      r !! "false_alarm" = Some (VFloat float_zero))
  /\ (forall x, d !! "confusion" = Some (VFloat x) ->
                r !! "confusion" = Some (VFloat x))
  /\ (d !! "confusion" = None -> r !! "confusion" = Some (VFloat float_zero))
  /\ (forall x, d !! "total" = Some (VFloat x) -> r !! "total" = Some (VFloat x))
  /\ (d !! "total" = None -> r !! "total" = Some (VFloat float_one)).
Proof.
  intros Hd H.
  apply compute_der_returns in H
    as (_ & d' & der & miss & fa & confusion & total
        & _ & Hd' & _ & Hmiss & Hfa & Hconf & Htotal & ->).
  rewrite Hd in Hd'. injection Hd' as <-.
  cbn [first_of] in Hmiss, Hfa, Hconf, Htotal.
  split.
  { exists miss, fa, confusion, total. repeat split; assumption || reflexivity. }
  repeat split.
  - intros x Hx. rewrite Hx in Hmiss. injection Hmiss as <-. reflexivity.
  - intros x Hfn Hx. rewrite Hfn, Hx in Hmiss. injection Hmiss as <-. reflexivity.
  - intros Hfn Hm. rewrite Hfn, Hm in Hmiss. injection Hmiss as <-. reflexivity.
  - intros x Hx. rewrite Hx in Hfa. injection Hfa as <-. reflexivity.
  - intros x Hfp Hx. rewrite Hfp, Hx in Hfa. injection Hfa as <-. reflexivity.
  - intros Hfp Hfal. rewrite Hfp, Hfal in Hfa. injection Hfa as <-. reflexivity.
  - intros x Hx. rewrite Hx in Hconf. injection Hconf as <-. reflexivity.
  - intros Hc. rewrite Hc in Hconf. injection Hconf as <-. reflexivity.
  - intros x Hx. rewrite Hx in Htotal. injection Htotal as <-. reflexivity.
  - intros Ht. rewrite Ht in Htotal. injection Htotal as <-. reflexivity.
Qed.

(** X3.  [compute_all_metrics] runs four stages in order: the reference
    parser, the hypothesis adapter, [compute_der], [compute_jer].  When it
    returns, all four returned, and the result is the five entries of
    [compute_der] with the one entry [JER] of [compute_jer]; when it
    raises, the exception is the one of the first stage that raised. *)
Theorem compute_all_metrics_stages (text : string)
    (hypothesis : gmap string pyval) (collar skip_overlap : pyval) :
  match compute_all_metrics text hypothesis collar skip_overlap with
  | Ok r =>
      exists reference hypothesis_ann der_metrics jer,
        rttm_to_annotation text = Ok reference
        /\ hypothesis_to_annotation hypothesis = Ok hypothesis_ann
        /\ compute_der reference hypothesis_ann collar skip_overlap = Ok der_metrics
        /\ compute_jer reference hypothesis_ann = Ok (<["JER" := VFloat jer]> ∅)
        /\ r !! "JER" = Some (VFloat jer)
        /\ (forall key, key <> "JER" -> r !! key = der_metrics !! key)
        /\ dom r = list_to_set ("JER" :: der_keys)
  | Raise e =>
      rttm_to_annotation text = Raise e
      \/ exists reference,
          rttm_to_annotation text = Ok reference
          /\ (hypothesis_to_annotation hypothesis = Raise e
              \/ exists hypothesis_ann,
                  hypothesis_to_annotation hypothesis = Ok hypothesis_ann
                  /\ (compute_der reference hypothesis_ann collar skip_overlap
                      = Raise e
                      \/ ((exists der_metrics,
                             compute_der reference hypothesis_ann collar
                                         skip_overlap = Ok der_metrics)
                          /\ compute_jer reference hypothesis_ann = Raise e)))
  end.
Proof.
  unfold compute_all_metrics.
  destruct (rttm_to_annotation text) as [reference|e]; [|left; reflexivity].
  cbn [mbind result_bind].
  destruct (hypothesis_to_annotation hypothesis) as [hypothesis_ann|e];
    [|right; eauto].
  cbn [mbind result_bind].
  destruct (compute_der reference hypothesis_ann collar skip_overlap)
    as [der_metrics|e] eqn:Hder.
  2:{ right. exists reference. split; [reflexivity|]. right.
      exists hypothesis_ann. split; [reflexivity|]. left. exact Hder. }
  cbn [mbind result_bind].
  destruct (compute_jer reference hypothesis_ann) as [jer_metrics|e] eqn:Hjer.
  2:{ right. exists reference. split; [reflexivity|]. right.
      exists hypothesis_ann. split; [reflexivity|]. right.
      split; [exists der_metrics; exact Hder | exact Hjer]. }
  cbn [mbind result_bind].
  assert (exists jer, jer_metrics = <["JER" := VFloat jer]> ∅) as [jer ->].
  { unfold compute_jer in Hjer.
    destruct (jer_call reference hypothesis_ann) as [jer_value|]; [|discriminate].
    cbn [mbind result_bind] in Hjer.
    destruct (to_float jer_value) as [jer|]; [|discriminate].
    injection Hjer as <-. eauto. }
  exists reference, hypothesis_ann, der_metrics, jer.
  split; [reflexivity|]. split; [reflexivity|]. split; [exact Hder|].
  split; [exact Hjer|]. split; [|split].
  - apply lookup_union_Some_l, lookup_insert_eq.
  - intros key Hkey. apply lookup_union_r.
    rewrite lookup_insert_ne by congruence. apply lookup_empty.
  - apply compute_der_dom in Hder as Hdom.
    rewrite dom_union_L, Hdom, dom_insert_L, dom_empty_L. cbn [list_to_set].
    set_solver.
Qed.

End Wrappers.

Definition one64 : spec_float := MetricAggregator.dbl "1.0".

(** Components that name the missed speech [missed detection] and give no
    total. *)
Definition half_missed_components : gmap string (pyval (H:=Binary64_float)) :=
  <["missed detection" := lit "2.0"]>
    (<["false alarm" := lit "0.0"]>
       (<["confusion" := lit "0.0"]>
          (<["correct" := lit "2.0"]> ∅))).

(** An error rate that returns 0.5 and these components, whatever it is
    given. *)
Definition half_missed : ErrorRates (FL:=Binary64_float) (AN:=Timeline) := {|
  der_call := fun _ _ _ _ => Ok (lit "0.5");
  der_components := fun _ _ _ _ => Ok (VDict half_missed_components);
  jer_call := fun _ _ => Ok (lit "0.5")
|}.

Definition half_missed_result : gmap string (pyval (H:=Binary64_float)) :=
  <["DER" := lit "0.5"]>
    (<["miss" := VFloat (S754_zero false)]>
       (<["false_alarm" := lit "0.0"]>
          (<["confusion" := lit "0.0"]>
             (<["total" := VFloat one64]> ∅)))).

Lemma half_missed_returns :
  compute_der (FL:=Binary64_float) (AN:=Timeline) (ER:=half_missed)
              one64 [] [] (lit "0.25") (VBool false)
  = Ok half_missed_result.
Proof. reflexivity. Qed.

(** The result for [half_missed] has the five keys. *)
Lemma half_missed_five_floats :
  dom half_missed_result = list_to_set der_keys
  /\ forall key v, half_missed_result !! key = Some v -> exists x, v = VFloat x.
Proof.
  exact (compute_der_five_floats (FL:=Binary64_float) (AN:=Timeline)
           (ER:=half_missed) one64 [] [] (lit "0.25") (VBool false)
           half_missed_result half_missed_returns).
Defined.

(** Components with a value under every name that is read: both names of
    the miss, the second name of the false alarm, a confusion and a
    total. *)
Definition named_components : gmap string (pyval (H:=Binary64_float)) :=
  <["false negative" := lit "1.0"]>
    (<["miss" := lit "3.0"]>
       (<["false alarm" := lit "0.5"]>
          (<["confusion" := lit "0.25"]>
             (<["total" := lit "4.0"]> ∅)))).

Definition named : ErrorRates (FL:=Binary64_float) (AN:=Timeline) := {|
  der_call := fun _ _ _ _ => Ok (lit "0.4375");
  der_components := fun _ _ _ _ => Ok (VDict named_components);
  jer_call := fun _ _ => Ok (lit "0.5")
|}.

Definition named_result : gmap string (pyval (H:=Binary64_float)) :=
  <["DER" := lit "0.4375"]>
    (<["miss" := lit "1.0"]>
       (<["false_alarm" := lit "0.5"]>
          (<["confusion" := lit "0.25"]>
             (<["total" := lit "4.0"]> ∅)))).

Lemma named_returns :
  compute_der (FL:=Binary64_float) (AN:=Timeline) (ER:=named)
              one64 [] [] (lit "0.25") (VBool false)
  = Ok named_result.
Proof. reflexivity. Qed.

(** The components of [named] are read under their names: the miss is the
    1.0 under [false negative], not the 3.0 under [miss]; the false alarm
    is the 0.5 under [false alarm]; the confusion is 0.25 and the total
    4.0.  The miss of [half_missed], under [missed detection], is not
    read: the result has miss 0.0, and total 1.0. *)
Lemma named_components_are_read :
  (named_result !! "miss" = Some (lit "1.0")
   /\ named_result !! "false_alarm" = Some (lit "0.5")
   /\ named_result !! "confusion" = Some (lit "0.25")
   /\ named_result !! "total" = Some (lit "4.0"))
  /\ (half_missed_result !! "miss" = Some (VFloat (S754_zero false))
      /\ half_missed_result !! "total" = Some (VFloat one64)).
Proof.
  split.
  - destruct (compute_der_component_names (FL:=Binary64_float) (AN:=Timeline)
                (ER:=named) one64 [] []
                (lit "0.25") (VBool false) named_components
                named_result eq_refl named_returns)
      as (_ & Hmiss & _ & _ & _ & Hfa & _ & Hconf & _ & Htotal & _).
    split; [apply Hmiss; reflexivity|].
    split; [apply Hfa; reflexivity|].
    split; [apply Hconf | apply Htotal]; reflexivity.
  - destruct (compute_der_component_names (FL:=Binary64_float) (AN:=Timeline)
                (ER:=half_missed) one64 [] []
                (lit "0.25") (VBool false) half_missed_components
                half_missed_result eq_refl half_missed_returns)
      as (_ & _ & _ & Hmiss & _ & _ & _ & _ & _ & _ & Htotal).
    split; [apply Hmiss | apply Htotal]; reflexivity.
Defined.

End ComputeMetrics.

(** ** More on [MetricAggregator]: what it stores and when [aggregate] raises *)

Module AggregatorStore.
Import MetricAggregator.

Section Records.
Context `{FL : PyFloat}.

(** The record [add] makes of a metrics argument and a file id. *)
Definition record_of (rec : val * val) : obj :=
  ODict (<["metrics" := rec.1]> (<["file_id" := rec.2]> ∅)).

(** The objects of an aggregator that was created on a store of [n]
    objects and fed with [recs]: its list, then one record per [add]. *)
Definition own_objects (n : nat) (recs : list (val * val)) : heap :=
  OList (VRef <$> seq (S n) (List.length recs)) :: (record_of <$> recs).

Lemma add_store (h0 : heap) (done : list (val * val)) (metrics_arg file_id : val) :
  add (h0 ++ own_objects (List.length h0) done) (mkAggregator (List.length h0))
      metrics_arg file_id
  = Ok (h0 ++ own_objects (List.length h0) (done ++ [(metrics_arg, file_id)])).
Proof.
  unfold add, own_objects. cbn [metrics].
  rewrite list_lookup_middle by reflexivity. unfold alloc. f_equal.
  rewrite <- app_assoc. cbn [app].
  rewrite (insert_app_r_alt h0) by reflexivity. rewrite Nat.sub_diag.
  cbn [insert list_insert]. f_equal. f_equal.
  - f_equal. rewrite !length_app. cbn [List.length].
    rewrite length_fmap, Nat.add_1_r, seq_S, fmap_app. cbn.
    do 3 f_equal. lia.
  - rewrite fmap_app. reflexivity.
Qed.

Lemma add_all_store (h0 : heap) (recs done : list (val * val)) :
  add_all (h0 ++ own_objects (List.length h0) done)
          (mkAggregator (List.length h0)) recs
  = Ok (h0 ++ own_objects (List.length h0) (done ++ recs)).
Proof.
  revert done. induction recs as [|[metrics_arg file_id] rest IH]; intros done.
  - rewrite app_nil_r. reflexivity.
  - cbn [add_all]. rewrite add_store. cbn [mbind result_bind].
    rewrite IH, <- app_assoc. reflexivity.
Qed.

(** The store after a session: the store of the caller as it was, then
    the objects of the aggregator. *)
Lemma session_store (h0 : heap) (recs : list (val * val)) :
  session h0 recs
  = Ok (h0 ++ own_objects (List.length h0) recs, mkAggregator (List.length h0)).
Proof.
  unfold session, init, alloc.
  change [OList []] with (own_objects (List.length h0) []).
  rewrite add_all_store. reflexivity.
Qed.

(** [float(value)] raises [OverflowError]: an [int] beyond the range of a
    float. *)
Definition overflows (value : val) : Prop :=
  as_number value = Some (Raise OverflowError).

Lemma collect_value_cases (acc : gmap string (list float)) (kv : string * val) :
  (exists acc', collect_value acc kv = Ok acc')
  \/ (collect_value acc kv = Raise OverflowError /\ overflows kv.2).
Proof.
  unfold collect_value, overflows. destruct kv as [k v]. cbn [fst snd].
  destruct v as [|b|z|x|s|l]; cbn [as_number]; eauto.
  - destruct (float_of_int (Z.b2z b)); cbn; eauto.
  - destruct (float_of_int z); cbn; eauto.
Qed.

Lemma for_each_collect_value_cases (kvs : list (string * val))
    (acc : gmap string (list float)) :
  (exists acc', for_each collect_value acc kvs = Ok acc'
                /\ Forall (fun kv => ~ overflows kv.2) kvs)
  \/ for_each collect_value acc kvs = Raise OverflowError.
Proof.
  revert acc. induction kvs as [|kv rest IH]; intros acc.
  - left. exists acc. split; [reflexivity | constructor].
  - cbn [for_each].
    destruct (collect_value_cases acc kv) as [[acc1 H1] | [H1 _]].
    + rewrite H1. cbn [mbind result_bind].
      destruct (IH acc1) as [(acc' & Hrun & Hrest) | Hrun]; [left | right; exact Hrun].
      exists acc'. split; [exact Hrun|]. constructor; [|exact Hrest].
      unfold overflows. unfold collect_value in H1.
      destruct (as_number kv.2) as [[x|e]|]; [discriminate | | discriminate].
      cbn in H1. discriminate H1.
    + rewrite H1. right. reflexivity.
Qed.

Lemma for_each_collect_item_cases (h : heap) (items : list val)
    (ds : list (gmap string val)) (acc : gmap string (list float)) :
  Forall2 (record_at h) items ds ->
  (exists acc', for_each (collect_item h) acc items = Ok acc'
                /\ Forall (map_Forall (fun _ v => ~ overflows v)) ds)
  \/ for_each (collect_item h) acc items = Raise OverflowError.
Proof.
  intros Hat. revert acc.
  induction Hat as [|item d items ds Hitem _ IH]; intros acc.
  - left. exists acc. split; [reflexivity | constructor].
  - cbn [for_each]. rewrite (collect_item_at h acc item d Hitem).
    destruct (for_each_collect_value_cases (map_to_list d) acc)
      as [(acc1 & H1 & Hd) | H1]; rewrite H1; [|right; reflexivity].
    cbn [mbind result_bind].
    destruct (IH acc1) as [(acc' & Hrun & Hrest) | Hrun]; [left | right; exact Hrun].
    exists acc'. split; [exact Hrun|]. constructor; [|exact Hrest].
    intros k v Hkv. rewrite Forall_forall in Hd.
    apply (Hd (k, v)), elem_of_map_to_list, Hkv.
Qed.

Lemma for_each_app {A B : Type} (body : A -> B -> result A) (acc : A)
    (l1 l2 : list B) :
  for_each body acc (l1 ++ l2)
  = (for_each body acc l1 ≫= fun acc' => for_each body acc' l2).
Proof.
  revert acc. induction l1 as [|x l1 IH]; intros acc; [reflexivity|].
  cbn [app for_each]. destruct (body acc x) as [acc1|e]; [|reflexivity].
  cbn [mbind result_bind]. apply IH.
Qed.

Context `{ST : !Statistics}.

(** X4.  [add] keeps the reference it is given, not a copy: the objects a
    session adds to the store depend on the references and file ids only,
    so when the caller changes its metrics mappings after the calls of
    [add], [aggregate()] gives the statistics of the mappings as they are
    when it is called. *)
Theorem add_keeps_references (h0 h0' : heap) (places : list (loc * val))
    (ds' : list (gmap string val)) :
  List.length h0' = List.length h0 ->
  places <> [] ->
  Forall2 (fun rec d => h0' !! rec.1 = Some (ODict d)) places ds' ->
  Forall (map_Forall (fun _ v => convertible v)) ds' ->
  (forall name, column name ds' <> [] -> summarizable (column name ds')) ->
  exists own self agg,
    session h0 (batch places) = Ok (h0 ++ own, self)
    /\ aggregate (h0' ++ own) self
       = Ok ((h0' ++ own) ++ [ODict agg], VRef (List.length (h0' ++ own)))
    /\ aggregated_from agg (List.length places) ds'.
Proof.
  intros Hlen Hne Hds Hconv Hstat.
  destruct (aggregate_of_batch h0' places ds' Hds Hconv Hstat)
    as (h & self & agg & Hrun & Hagg & Hfrom).
  rewrite session_store in Hrun. injection Hrun as <- <-.
  exists (own_objects (List.length h0) (batch places)),
    (mkAggregator (List.length h0)), agg.
  rewrite session_store, <- Hlen. split; [reflexivity|]. split; [exact Hagg|].
  destruct places; [congruence | exact Hfrom].
Qed.

(** X5.  When the metrics of the records are mappings and one of them
    holds an [int] that [float] cannot take, [aggregate()] raises
    [OverflowError], wherever the value stands. *)
Theorem aggregate_overflow (h : heap) (self : aggregator) (records : list val)
    (ds : list (gmap string val)) :
  h !! metrics self = Some (OList records) ->
  Forall2 (record_at h) records ds ->
  Exists (fun d => exists k v, d !! k = Some v /\ overflows v) ds ->
  aggregate h self = Raise OverflowError.
Proof.
  intros Hself Hat Hbad. unfold aggregate, iter_object. rewrite Hself.
  cbn [mbind result_bind].
  destruct records as [|item rest].
  { apply Forall2_nil_inv_l in Hat. subst ds. apply Exists_nil in Hbad.
    destruct Hbad. }
  destruct (for_each_collect_item_cases h (item :: rest) ds ∅ Hat)
    as [(acc & _ & Hnone) | Hrun]; [|rewrite Hrun; reflexivity].
  exfalso. apply Exists_exists in Hbad as (d & Hd & k & v & Hkv & Hv).
  rewrite Forall_forall in Hnone. exact (Hnone d Hd k v Hkv Hv).
Qed.

(** X6.  [add] takes any value for the metrics.  When the records before
    it hold mappings whose numbers convert, a record whose metrics are not
    a mapping makes [aggregate()] raise [AttributeError]. *)
Theorem aggregate_rejects_non_mapping (h : heap) (self : aggregator)
    (good rest : list val) (bad metrics_arg file_id : val)
    (ds : list (gmap string val)) :
  h !! metrics self = Some (OList (good ++ bad :: rest)) ->
  Forall2 (record_at h) good ds ->
  Forall (map_Forall (fun _ v => convertible v)) ds ->
  stored h bad (metrics_arg, file_id) ->
  (forall m d, metrics_arg = VRef m -> h !! m <> Some (ODict d)) ->
  aggregate h self = Raise AttributeError.
Proof.
  intros Hself Hat Hconv (r & -> & Hr) Hbad.
  unfold aggregate, iter_object. rewrite Hself. cbn [mbind result_bind].
  destruct (for_each_collect_item h good ds ∅ Hat Hconv) as (mv & Hrun & _).
  assert (for_each (collect_item h) ∅ (good ++ VRef r :: rest)
          = Raise AttributeError) as Hraise.
  { assert (collect_item h mv (VRef r) = Raise AttributeError) as Hitem.
    { unfold collect_item, subscript. rewrite Hr. cbn [fst snd].
      rewrite lookup_insert_eq. cbn [or_raise mbind result_bind].
      unfold items. destruct metrics_arg as [| | | | |m]; try reflexivity.
      destruct (h !! m) as [[d|l]|] eqn:Hm; try reflexivity.
      exfalso. exact (Hbad m d eq_refl Hm). }
    rewrite for_each_app, Hrun. cbn [mbind result_bind for_each].
    rewrite Hitem. reflexivity. }
  destruct (good ++ VRef r :: rest) as [|item items] eqn:Hitems.
  { destruct good; discriminate. }
  rewrite Hraise. reflexivity.
Qed.

End Records.

(** One record with the DER 0.10, changed to 0.30 after it was added. *)
Definition one_record : list (obj (FL:=Binary64_float)) :=
  [ODict (<["DER" := VFloat (dbl "0.10")]> ∅)].

Definition one_record_changed : list (obj (FL:=Binary64_float)) :=
  [ODict (<["DER" := VFloat (dbl "0.30")]> ∅)].

Definition no_stdev : list spec_float -> result spec_float :=
  fun _ => Raise StatisticsError.

Lemma one_record_column (name : string) :
  column name [<["DER" := VFloat (dbl "0.30")]> (∅ : gmap string (val (FL:=Binary64_float)))]
  = if String.eqb name "DER" then [dbl "0.30"] else [].
Proof.
  unfold column, number_at. cbn [omap list_omap].
  destruct (String.eqb name "DER") eqn:Hname.
  - apply String.eqb_eq in Hname. subst name. rewrite lookup_insert_eq. reflexivity.
  - apply String.eqb_neq in Hname.
    rewrite lookup_insert_ne, lookup_empty by congruence. reflexivity.
Qed.

(** The statistics are those of 0.30, the value at the time of the call. *)
Lemma changed_record_is_read :
  exists own self agg,
    session one_record (batch [(0%nat, VNone)]) = Ok (one_record ++ own, self)
    /\ aggregate (ST:=Statistics64 no_stdev) (one_record_changed ++ own) self
       = Ok ((one_record_changed ++ own) ++ [ODict agg],
             VRef (List.length (one_record_changed ++ own)))
    /\ aggregated_from (ST:=Statistics64 no_stdev) agg 1
         [<["DER" := VFloat (dbl "0.30")]> ∅].
Proof.
  apply (add_keeps_references (ST:=Statistics64 no_stdev) one_record
           one_record_changed [(0%nat, VNone)]).
  - reflexivity.
  - discriminate.
  - repeat constructor.
  - repeat constructor.
    apply map_Forall_insert_2; [apply convertible_float | apply map_Forall_empty].
  - intros name. rewrite one_record_column.
    destruct (String.eqb name "DER"); [|congruence].
    intros _. split; [|split].
    + eexists. vm_compute. reflexivity.
    + eexists. reflexivity.
    + eexists. vm_compute. reflexivity.
Defined.

(** The store after one [add] of the record of [big_store]. *)
Lemma big_record_overflows :
  aggregate (ST:=Statistics64 no_stdev)
            (big_store ++ own_objects 1 big_batch) (mkAggregator 1)
  = Raise OverflowError.
Proof.
  apply (aggregate_overflow (ST:=Statistics64 no_stdev) _ _ [VRef 2]
           [<["frames" := VInt (2 ^ 1024)]> ∅]).
  - reflexivity.
  - constructor; [|constructor].
    exists 2%nat, (<["metrics" := VRef 0]> (<["file_id" := VNone]> ∅)), 0%nat.
    repeat split; reflexivity.
  - constructor. exists "frames", (VInt (2 ^ 1024)).
    split; [apply lookup_insert_eq|].
    unfold overflows. cbn [as_number]. reflexivity.
Defined.

(** [add(None)] on a new aggregator, then [aggregate()]. *)
Lemma none_record_is_rejected :
  aggregate (FL:=Binary64_float) (ST:=Statistics64 no_stdev)
            (own_objects 0 [(VNone, VNone)]) (mkAggregator 0)
  = Raise AttributeError.
Proof.
  apply (aggregate_rejects_non_mapping (FL:=Binary64_float)
           (ST:=Statistics64 no_stdev) _ _ [] [] (VRef 1) VNone VNone []).
  - reflexivity.
  - constructor.
  - constructor.
  - exists 1%nat. split; reflexivity.
  - discriminate.
Defined.

End AggregatorStore.

(** ** File names: the test data, the AMI setup and the runners

    [run_and_save.py] and [test_sequestered.py] take the annotation of an
    audio file [f] from the file named [f.replace(".wav", ".rttm")];
    [scripts/generate_test_data.py] and [scripts/setup_ami.py] name the
    audio and annotation files they write. *)

Module FileNames.
Import PyStr.

(** [s.replace(old, new)] for a non-empty [old]: the occurrences of
    [old] are replaced from the left, and the search goes on after each
    one; [skip] counts the characters of an occurrence still to pass. *)
Fixpoint replace_from (old new : string) (skip : nat) (s : string) : string :=
  match skip with
  | S k =>
      match s with
      | EmptyString => EmptyString
      | String _ s' => replace_from old new k s'
      end
  | O =>
      match s with
      | EmptyString => EmptyString
      | String c s' =>
          if startswith s old
          then new +:+ replace_from old new (String.length old - 1) s'
          else String c (replace_from old new 0 s')
      end
  end.

(** With an empty [old], [new] goes before every character and at the
    end. *)
Fixpoint interleave (new s : string) : string :=
  match s with
  | EmptyString => new
  | String c s' => new +:+ String c (interleave new s')
  end.

(** [s.replace(old, new)] *)
Definition replace (s old new : string) : string :=
  match old with
  | EmptyString => interleave new s
  | _ => replace_from old new 0 s
  end.

(** [audio_file.replace(".wav", ".rttm")] *)
Definition annotation_name (audio_file : string) : string :=
  replace audio_file ".wav" ".rttm".

(** [str(n)] for a natural number. *)
Definition decimal (n : N) : string :=
  DecimalString.NilEmpty.string_of_uint (N.to_uint n).

Fixpoint zeros (n : nat) : string :=
  match n with
  | O => EmptyString
  | S k => String "0" (zeros k)
  end.

(** [f"{n:0{width}d}"] for a natural number. *)
Definition format_d (width : nat) (n : N) : string :=
  let digits := decimal n in
  zeros (width - String.length digits) +:+ digits.

(** [generate_ami_test_set]: the files written for the index [i]. *)
Definition ami_file_id (i : N) : string := "TEST" +:+ format_d 4 i.
Definition ami_wav_name (i : N) : string := ami_file_id i +:+ ".Mix-Headset.wav".
Definition ami_rttm_name (i : N) : string := ami_file_id i +:+ ".rttm".

(** [generate_sequestered_test_set]: the files written for the index [i]. *)
Definition sequestered_file_id (source : string) (i : N) : string :=
  source +:+ "_" +:+ format_d 3 i.
Definition sequestered_wav_name (source : string) (i : N) : string :=
  sequestered_file_id source i +:+ ".wav".
Definition sequestered_rttm_name (source : string) (i : N) : string :=
  sequestered_file_id source i +:+ ".rttm".

(** [AMISetup]: the audio file looked for and the annotation written for
    a file id. *)
Definition setup_wav_name (file_id : string) : string :=
  file_id +:+ ".Mix-Headset.wav".
Definition setup_rttm_name (file_id : string) : string :=
  file_id +:+ ".Mix-Headset.rttm".

(** No character of [s] is a dot. *)
Fixpoint dotless (s : string) : bool :=
  match s with
  | EmptyString => true
  | String c s' => negb (Ascii.eqb c ".") && dotless s'
  end.

(** [old] occurs in [s]. *)
Definition occurs (old s : string) : Prop :=
  exists before after, s = before +:+ old +:+ after.

Lemma app_assoc_string (a b c : string) : (a +:+ b) +:+ c = a +:+ (b +:+ c).
Proof.
  induction a as [|x a IH]; [reflexivity|].
  change (String x ((a +:+ b) +:+ c) = String x (a +:+ (b +:+ c))).
  rewrite IH. reflexivity.
Qed.

Lemma app_empty_r (a : string) : a +:+ "" = a.
Proof.
  induction a as [|x a IH]; [reflexivity|].
  change (String x (a +:+ "") = String x a). rewrite IH. reflexivity.
Qed.

Lemma app_cancel_l (a b c : string) : a +:+ b = a +:+ c -> b = c.
Proof.
  induction a as [|x a IH]; [trivial|].
  change (String x (a +:+ b) = String x (a +:+ c) -> b = c).
  intros [= H]. apply IH, H.
Qed.

Lemma startswith_prefix (s old : string) :
  startswith s old = true -> exists rest, s = old +:+ rest.
Proof.
  revert s. induction old as [|a old IH]; intros s H.
  - exists s. reflexivity.
  - destruct s as [|b s]; [discriminate|]. cbn [startswith] in H.
    apply andb_true_iff in H as [Hab H]. apply Ascii.eqb_eq in Hab as ->.
    destruct (IH s H) as [rest ->]. exists rest. reflexivity.
Qed.

Lemma startswith_app (s t old : string) :
  startswith s old = true -> startswith (s +:+ t) old = true.
Proof.
  revert s. induction old as [|a old IH]; intros s H.
  - apply DiarizationMetrics.startswith_empty.
  - destruct s as [|b s]; [discriminate|].
    change (String b s +:+ t) with (String b (s +:+ t)). cbn [startswith] in *.
    apply andb_true_iff in H as [-> H]. apply IH, H.
Qed.

(** A name in which [old] does not occur is left as it is. *)
Lemma replace_from_absent (old new s : string) :
  ~ occurs old s -> replace_from old new 0 s = s.
Proof.
  induction s as [|c s IH]; intros Hno; [reflexivity|].
  cbn [replace_from]. destruct (startswith (String c s) old) eqn:Hs.
  - exfalso. apply startswith_prefix in Hs as [rest Hrest].
    apply Hno. exists "", rest. exact Hrest.
  - rewrite IH; [reflexivity|]. intros (before & after & ->).
    apply Hno. exists (String c before), after. reflexivity.
Qed.

Lemma replace_from_dotless_head (new a b : string) :
  dotless a = true ->
  replace_from ".wav" new 0 (a +:+ b) = a +:+ replace_from ".wav" new 0 b.
Proof.
  induction a as [|c a IH]; intros Ha; [reflexivity|].
  cbn [dotless] in Ha. apply andb_true_iff in Ha as [Hc Ha].
  apply negb_true_iff in Hc.
  change (String c a +:+ b) with (String c (a +:+ b)).
  cbn [replace_from startswith]. rewrite Ascii.eqb_sym, Hc. cbn [andb].
  rewrite (IH Ha). reflexivity.
Qed.

Lemma dotless_app (a b : string) :
  dotless (a +:+ b) = dotless a && dotless b.
Proof.
  induction a as [|c a IH]; [reflexivity|].
  change (negb (Ascii.eqb c ".") && dotless (a +:+ b)
          = (negb (Ascii.eqb c ".") && dotless a) && dotless b).
  rewrite IH, andb_assoc. reflexivity.
Qed.

Lemma dotless_zeros (n : nat) : dotless (zeros n) = true.
Proof. induction n as [|n IH]; [reflexivity | exact IH]. Qed.

Lemma dotless_decimal (n : N) : dotless (decimal n) = true.
Proof.
  unfold decimal. induction (N.to_uint n) as [|d IH|d IH|d IH|d IH|d IH
                                              |d IH|d IH|d IH|d IH|d IH];
    [reflexivity | exact IH ..].
Qed.

Lemma dotless_format_d (width : nat) (n : N) : dotless (format_d width n) = true.
Proof.
  unfold format_d. rewrite dotless_app, dotless_zeros, dotless_decimal.
  reflexivity.
Qed.

Lemma startswith_complete (old rest : string) :
  startswith (old +:+ rest) old = true.
Proof.
  induction old as [|a old IH]; [apply DiarizationMetrics.startswith_empty|].
  change (String a old +:+ rest) with (String a (old +:+ rest)).
  cbn [startswith]. rewrite Ascii.eqb_refl, IH. reflexivity.
Qed.

(** The occurrence that ends a name: a name that starts with [.wav] once
    [.wav] is put after it, and is not empty, starts with [.wav] itself. *)
Lemma startswith_wav_app (s : string) :
  s <> "" ->
  startswith (s +:+ ".wav") ".wav" = true -> startswith s ".wav" = true.
Proof.
  intros Hne H. apply startswith_prefix in H as [rest H].
  destruct s as [|c1 [|c2 [|c3 [|c4 s]]]]; [congruence | | | |];
    cbn in H; injection H as; try discriminate.
  subst. apply (startswith_complete ".wav" s).
Qed.

Lemma startswith_length (s old : string) :
  startswith s old = true -> (String.length old <= String.length s)%nat.
Proof.
  revert s. induction old as [|a old IH]; intros s H; [cbn; lia|].
  destruct s as [|b s]; [discriminate|]. cbn [startswith String.length] in *.
  apply andb_true_iff in H as [_ H]. apply IH in H. lia.
Qed.

Lemma replace_from_wav_suffix (new s : string) (skip : nat) :
  (skip <= String.length s)%nat ->
  replace_from ".wav" new skip (s +:+ ".wav")
  = replace_from ".wav" new skip s +:+ new.
Proof.
  revert skip. induction s as [|c s IH]; intros skip Hskip.
  - cbn in Hskip. assert (skip = 0%nat) as -> by lia.
    change (new +:+ "" = new). apply app_empty_r.
  - change (String c s +:+ ".wav") with (String c (s +:+ ".wav")).
    destruct skip as [|k].
    + cbn [replace_from].
      destruct (startswith (String c s) ".wav") eqn:Hs.
      * change (String c (s +:+ ".wav")) with (String c s +:+ ".wav").
        rewrite (startswith_app _ ".wav" _ Hs).
        apply startswith_length in Hs. cbn in Hs.
        rewrite IH by (cbn; lia). rewrite app_assoc_string. reflexivity.
      * destruct (startswith (String c (s +:+ ".wav")) ".wav") eqn:Hs'.
        { change (String c (s +:+ ".wav")) with (String c s +:+ ".wav") in Hs'.
          apply startswith_wav_app in Hs'; [congruence | discriminate]. }
        rewrite IH by lia. reflexivity.
    + cbn [replace_from]. apply IH. cbn in Hskip. lia.
Qed.

Lemma dotless_absent (s : string) : dotless s = true -> ~ occurs ".wav" s.
Proof.
  intros Hs (before & after & ->).
  rewrite dotless_app in Hs. apply andb_true_iff in Hs as [_ Hs].
  discriminate Hs.
Qed.

(** The name looked for beside [stem.wav] when [stem] holds no [.wav]. *)
Lemma annotation_name_suffix (stem : string) :
  ~ occurs ".wav" stem -> annotation_name (stem +:+ ".wav") = stem +:+ ".rttm".
Proof.
  intros Hno. unfold annotation_name, replace.
  rewrite (replace_from_wav_suffix ".rttm" stem 0) by lia.
  rewrite (replace_from_absent ".wav" ".rttm" stem Hno). reflexivity.
Qed.

(** X7.  The annotation of an audio file whose name ends in [.wav] is
    looked for under a name that ends in [.rttm]; what stands before the
    ending is rewritten too, since every [.wav] of the name is replaced,
    and it is kept as it is when it holds no [.wav]. *)
Theorem annotation_name_of_wav (stem : string) :
  annotation_name (stem +:+ ".wav") = annotation_name stem +:+ ".rttm"
  /\ (~ occurs ".wav" stem -> annotation_name (stem +:+ ".wav") = stem +:+ ".rttm").
Proof.
  assert (annotation_name (stem +:+ ".wav") = annotation_name stem +:+ ".rttm")
    as Hsuffix.
  { unfold annotation_name, replace.
    apply (replace_from_wav_suffix ".rttm" stem 0). lia. }
  split; [exact Hsuffix|].
  intros Hno. rewrite Hsuffix. unfold annotation_name, replace.
  rewrite (replace_from_absent ".wav" ".rttm" stem Hno). reflexivity.
Qed.

(** X8.  The annotation the runners look for beside an audio file of the
    generated AMI test set, [TESTnnnn.Mix-Headset.wav], is
    [TESTnnnn.Mix-Headset.rttm]: it is never the file [TESTnnnn.rttm] that
    [generate_ami_test_set] writes for it. *)
Theorem ami_test_set_names_differ (i : N) :
  annotation_name (ami_wav_name i) = ami_file_id i +:+ ".Mix-Headset.rttm"
  /\ annotation_name (ami_wav_name i) <> ami_rttm_name i.
Proof.
  assert (annotation_name (ami_wav_name i) = ami_file_id i +:+ ".Mix-Headset.rttm")
    as Hname.
  { unfold ami_wav_name, annotation_name, replace.
    change (ami_file_id i +:+ ".Mix-Headset.wav")
      with (ami_file_id i +:+ (".Mix-Headset" +:+ ".wav")).
    rewrite replace_from_dotless_head.
    - rewrite (replace_from_wav_suffix ".rttm" ".Mix-Headset" 0) by (cbn; lia).
      reflexivity.
    - unfold ami_file_id. rewrite dotless_app, dotless_format_d. reflexivity. }
  split; [exact Hname|].
  rewrite Hname. unfold ami_rttm_name. intros H.
  apply app_cancel_l in H. discriminate H.
Qed.

(** X9.  For a source name and a file id without a dot, the names agree:
    the annotation the runners look for beside an audio file is the file
    [generate_sequestered_test_set] writes for it, and the annotation
    [AMISetup.extract_annotations] writes for a file id is the one looked
    for beside the audio file [AMISetup.check_audio_files] expects. *)
Theorem written_names_agree :
  (forall source i,
     dotless source = true ->
     annotation_name (sequestered_wav_name source i)
     = sequestered_rttm_name source i)
  /\ (forall file_id,
       dotless file_id = true ->
       annotation_name (setup_wav_name file_id) = setup_rttm_name file_id).
Proof.
  split.
  - intros source i Hsource.
    unfold sequestered_wav_name, sequestered_rttm_name.
    apply annotation_name_suffix. apply dotless_absent.
    unfold sequestered_file_id.
    rewrite !dotless_app, Hsource, dotless_format_d. reflexivity.
  - intros file_id Hid. unfold setup_wav_name, setup_rttm_name.
    unfold annotation_name, replace.
    change (file_id +:+ ".Mix-Headset.wav")
      with (file_id +:+ (".Mix-Headset" +:+ ".wav")).
    rewrite (replace_from_dotless_head _ _ _ Hid).
    rewrite (replace_from_wav_suffix ".rttm" ".Mix-Headset" 0) by (cbn; lia).
    reflexivity.
Qed.

End FileNames.

(** ** More of Python: exceptions of the scripts, float arithmetic *)

Module Py.

(** What a call of the scripts can raise besides the exceptions above. *)
Inductive failure : Type :=
| Raised (e : exn)
| ZeroDivisionError
| FileNotFoundError (path : string).

Inductive outcome (A : Type) : Type :=
| Done (a : A)
| Failed (f : failure).

Arguments Done {A} a.
Arguments Failed {A} f.

#[global] Instance outcome_ret : MRet outcome := fun _ a => Done a.

#[global] Instance outcome_bind : MBind outcome := fun _ _ k r =>
  match r with
  | Done a => k a
  | Failed f => Failed f
  end.

Definition of_result {A : Type} (r : result A) : outcome A :=
  match r with
  | Ok a => Done a
  | Raise e => Failed (Raised e)
  end.

(** Division, multiplication, [==] and [format(x, ".1f")] on floats. *)
Class PyFloatOps `{FL : PyFloat} : Type := {
  float_div : float -> float -> float;
  float_mul : float -> float -> float;
  float_eqb : float -> float -> bool;
  format_1f : float -> string
}.

Section Arith.
Context `{FO : PyFloatOps}.

(** [x / n] for a float [x] and an [int] [n]: [n] is made a float, and a
    zero divisor raises. *)
Definition truediv_int (x : float) (n : Z) : outcome float :=
  match float_of_int n with
  | None => Failed (Raised OverflowError)
  | Some y =>
      if float_eqb y float_zero then Failed ZeroDivisionError
      else Done (float_div x y)
  end.

(** [n * x] for an [int] [n] and a float [x]. *)
Definition mul_int (n : Z) (x : float) : outcome float :=
  match float_of_int n with
  | None => Failed (Raised OverflowError)
  | Some y => Done (float_mul y x)
  end.

End Arith.

(** [format(x, ".1f")] on a double: the decimal with one digit after the
    point nearest to [x], ties to even. *)
Definition format64_1f (x : spec_float) : string :=
  match x with
  | S754_nan => "nan"
  | S754_infinity s => if s then "-inf" else "inf"
  | S754_zero s => (if s then "-" else "") +:+ "0.0"
  | S754_finite s m e =>
      let n := (10 * Zpos m)%Z in
      let tenths :=
        if (0 <=? e)%Z then (n * 2 ^ e)%Z
        else
          let d := (2 ^ (- e))%Z in
          let a := (n / d)%Z in
          let r := (n mod d)%Z in
          match (2 * r ?= d)%Z with
          | Lt => a
          | Gt => (a + 1)%Z
          | Eq => if Z.even a then a else (a + 1)%Z
          end in
      (if s then "-" else "")
      +:+ FileNames.decimal (Z.to_N (tenths / 10))
      +:+ "." +:+ FileNames.decimal (Z.to_N (tenths mod 10))
  end.

#[local] Instance Binary64_ops : PyFloatOps (FL:=Binary64_float) := {|
  float_div := SFdiv Binary64.prec Binary64.emax;
  float_mul := SFmul Binary64.prec Binary64.emax;
  float_eqb := SFeqb;
  format_1f := format64_1f
|}.

End Py.

(** ** [scripts/generate_test_data.py]: the RTTM files of the test sets *)

Module TestData.
Import PyStr DiarizationMetrics Py.

Section Generate.
Context `{FO : PyFloatOps}.

(** [chr(n)], a builtin. *)
Variable chr : Z -> outcome string.

(** [range(n)] *)
Definition range (n : Z) : list Z := Z.of_nat <$> seq 0 (Z.to_nat n).

(** The record of the RTTM file for a speaker: the f-string
    [SPEAKER {file_id} 1 {start} {duration} <NA> <NA> {speaker} <NA>\n],
    with [start] and [duration] as they are printed. *)
Definition rttm_record (file_id start duration speaker : string) : string :=
  "SPEAKER " +:+ file_id +:+ " 1 " +:+ start +:+ " " +:+ duration
  +:+ " <NA> <NA> " +:+ speaker +:+ " <NA>" +:+ NL.

Fixpoint speaker_records (file_id : string) (segment_duration : float)
    (indices : list Z) : outcome (list string) :=
  match indices with
  | [] => Done []
  | i :: rest =>
      start ← mul_int i segment_duration;
      letter ← chr (65 + i);
      records ← speaker_records file_id segment_duration rest;
      Done (rttm_record file_id (format_1f start) (format_1f segment_duration)
                        ("speaker_" +:+ letter) :: records)
  end.

Fixpoint writelines (lines : list string) : string :=
  match lines with
  | [] => EmptyString
  | line :: rest => line +:+ writelines rest
  end.

(** [generate_rttm(output_path, file_id, duration, num_speakers)]: the
    text written to the file at [output_path]. *)
Definition generate_rttm (file_id : string) (duration : float)
    (num_speakers : Z) : outcome string :=
  if (num_speakers =? 2)%Z then
    half_a ← truediv_int duration 2;
    let record_a := rttm_record file_id "0.0" (format_1f half_a) "speaker_A" in
    start_b ← truediv_int duration 2;
    half_b ← truediv_int duration 2;
    let record_b :=
      rttm_record file_id (format_1f start_b) (format_1f half_b) "speaker_B" in
    Done (writelines [record_a; record_b])
  else
    segment_duration ← truediv_int duration num_speakers;
    records ← speaker_records file_id segment_duration (range num_speakers);
    Done (writelines records).

End Generate.

(** A word of a record: not empty, no whitespace in it. *)
Fixpoint spaceless (s : string) : bool :=
  match s with
  | EmptyString => true
  | String c s' => negb (isspace c) && spaceless s'
  end.

Definition token (s : string) : bool :=
  negb (String.eqb s "") && spaceless s.

(** The words with one space between them. *)
Fixpoint unwords (ts : list string) : string :=
  match ts with
  | [] => EmptyString
  | [t] => t
  | t :: rest => t +:+ " " +:+ unwords rest
  end.

(** No character of [s] ends a line. *)
Fixpoint no_newline (s : string) : bool :=
  match s with
  | EmptyString => true
  | String c s' => negb (Ascii.eqb c LF) && negb (Ascii.eqb c CR) && no_newline s'
  end.

Lemma split_word (t rest : string) (sp : ascii) :
  token t = true -> isspace sp = true ->
  split (t +:+ String sp rest) = t :: split rest.
Proof.
  intros Ht Hsp. unfold token in Ht. apply andb_true_iff in Ht as [Hne Ht].
  destruct t as [|c t]; [discriminate|]. clear Hne.
  revert c Ht. induction t as [|c' t IH]; intros c Ht.
  - cbn [spaceless] in Ht. apply andb_true_iff in Ht as [Hc _].
    apply negb_true_iff in Hc.
    change (String c "" +:+ String sp rest) with (String c (String sp rest)).
    rewrite split_cons, Hc, Hsp. f_equal. rewrite split_cons, Hsp. reflexivity.
  - cbn [spaceless] in Ht. apply andb_true_iff in Ht as [Hc Ht].
    apply negb_true_iff in Hc.
    change (String c (String c' t) +:+ String sp rest)
      with (String c (String c' t +:+ String sp rest)).
    rewrite split_cons, Hc.
    change (String c' t +:+ String sp rest)
      with (String c' (t +:+ String sp rest)) at 1.
    pose proof Ht as Ht'. cbn [spaceless] in Ht'.
    apply andb_true_iff in Ht' as [Hc' _]. apply negb_true_iff in Hc'.
    rewrite Hc'. rewrite (IH c' Ht). reflexivity.
Qed.

Lemma split_unwords (ts : list string) :
  Forall (fun t => token t = true) ts -> split (unwords ts +:+ NL) = ts.
Proof.
  induction 1 as [|t ts Ht Hts IH]; [reflexivity|].
  destruct ts as [|t' ts].
  - change (unwords [t] +:+ NL) with (t +:+ String LF "").
    rewrite (split_word t "" LF Ht) by reflexivity. reflexivity.
  - change (unwords (t :: t' :: ts)) with (t +:+ " " +:+ unwords (t' :: ts)).
    rewrite !FileNames.app_assoc_string.
    change (" " +:+ unwords (t' :: ts) +:+ NL)
      with (String " " (unwords (t' :: ts) +:+ NL)).
    rewrite (split_word t _ " " Ht) by reflexivity. rewrite IH. reflexivity.
Qed.

Lemma no_newline_app (a b : string) :
  no_newline (a +:+ b) = no_newline a && no_newline b.
Proof.
  induction a as [|c a IH]; [reflexivity|].
  change (negb (Ascii.eqb c LF) && negb (Ascii.eqb c CR) && no_newline (a +:+ b)
          = negb (Ascii.eqb c LF) && negb (Ascii.eqb c CR) && no_newline a
            && no_newline b).
  rewrite IH, !andb_assoc. reflexivity.
Qed.

Lemma isspace_newline (c : ascii) :
  isspace c = false -> Ascii.eqb c LF = false /\ Ascii.eqb c CR = false.
Proof.
  intros Hc. split; apply Ascii.eqb_neq; intros ->; discriminate Hc.
Qed.

Lemma spaceless_no_newline (s : string) : spaceless s = true -> no_newline s = true.
Proof.
  induction s as [|c s IH]; [trivial|]. cbn [spaceless no_newline].
  intros H. apply andb_true_iff in H as [Hc Hs]. apply negb_true_iff in Hc.
  destruct (isspace_newline c Hc) as [-> ->]. exact (IH Hs).
Qed.

Lemma no_newline_unwords (ts : list string) :
  Forall (fun t => token t = true) ts -> no_newline (unwords ts) = true.
Proof.
  induction 1 as [|t ts Ht Hts IH]; [reflexivity|].
  unfold token in Ht. apply andb_true_iff in Ht as [_ Ht].
  apply spaceless_no_newline in Ht.
  destruct ts as [|t' ts]; [exact Ht|].
  change (unwords (t :: t' :: ts)) with (t +:+ " " +:+ unwords (t' :: ts)).
  rewrite !no_newline_app, Ht, IH. reflexivity.
Qed.

(** A text-mode file hands over a line at its line feed. *)
Lemma lines_from_line (body rest : string) (cur : list ascii) :
  no_newline body = true ->
  lines_from cur (body +:+ String LF rest)
  = rev_string cur (body +:+ NL) :: lines_from [] rest.
Proof.
  revert cur. induction body as [|c body IH]; intros cur Hbody.
  - reflexivity.
  - cbn [no_newline] in Hbody.
    apply andb_true_iff in Hbody as [Hc Hbody].
    apply andb_true_iff in Hc as [Hlf Hcr].
    apply negb_true_iff in Hlf, Hcr.
    change (String c body +:+ String LF rest)
      with (String c (body +:+ String LF rest)).
    cbn [lines_from]. rewrite Hlf, Hcr. rewrite (IH _ Hbody). reflexivity.
Qed.

(** A record made of words is kept by the parser. *)
Lemma record_kept (ts : list string) :
  Forall (fun t => token t = true) ("SPEAKER" :: ts) ->
  (7 <= List.length ts)%nat ->
  skipped (unwords ("SPEAKER" :: ts) +:+ NL) = false.
Proof.
  intros Hts Hlen. pose proof (split_unwords _ Hts) as Hsplit.
  unfold skipped, is_blank, is_comment, is_speaker, fields.
  rewrite Hsplit. cbn [lookup list_lookup String.eqb Ascii.eqb Bool.eqb negb].
  assert (exists r, strip (unwords ("SPEAKER" :: ts) +:+ NL) = String "S" r)
    as [r Hr].
  { destruct ts as [|t ts]; [cbn in Hlen; lia|].
    change (unwords ("SPEAKER" :: t :: ts) +:+ NL)
      with (String "S" ("PEAKER " +:+ unwords (t :: ts) +:+ NL)).
    unfold strip. cbn [lstrip]. change (isspace "S") with false. cbv iota.
    destruct (rstrip (String "S" ("PEAKER " +:+ unwords (t :: ts) +:+ NL)))
      as [|d r] eqn:Hrs.
    - apply rstrip_empty_head in Hrs. discriminate Hrs.
    - apply rstrip_head in Hrs as ->. eauto. }
  rewrite Hr. cbn [String.eqb startswith Ascii.eqb Bool.eqb andb orb].
  rewrite orb_false_r. apply Nat.ltb_ge. cbn [List.length]. lia.
Qed.

Lemma record_words (file_id start duration speaker : string) :
  rttm_record file_id start duration speaker
  = unwords ["SPEAKER"; file_id; "1"; start; duration; "<NA>"; "<NA>";
             speaker; "<NA>"] +:+ NL.
Proof.
  unfold rttm_record. cbn [unwords].
  rewrite !FileNames.app_assoc_string. reflexivity.
Qed.

Section RoundTrip.
Context `{FO : PyFloatOps} `{AN : !AnnotationT}.
Variable chr : Z -> outcome string.

(** The record for a speaker, read back by the parser. *)
Lemma record_segment (file_id start duration speaker : string) :
  token file_id = true -> token start = true -> token duration = true ->
  token speaker = true ->
  let line := rttm_record file_id start duration speaker in
  skipped line = false
  /\ no_newline (unwords ["SPEAKER"; file_id; "1"; start; duration; "<NA>";
                          "<NA>"; speaker; "<NA>"]) = true
  /\ line_segment line
     = (s ← float_of_str start;
        d ← float_of_str duration;
        Some (mkSegment (VFloat s) (VFloat (float_add s d)), VStr speaker)).
Proof.
  intros Hid Hstart Hduration Hspeaker line. subst line.
  assert (Forall (fun t => token t = true)
            ["SPEAKER"; file_id; "1"; start; duration; "<NA>"; "<NA>";
             speaker; "<NA>"]) as Hts
    by (repeat constructor; assumption).
  rewrite record_words. split; [|split].
  - apply record_kept; [exact Hts | cbn; lia].
  - apply no_newline_unwords, Hts.
  - unfold line_segment, field, fields. rewrite (split_unwords _ Hts).
    reflexivity.
Qed.

(** X10.  The file [generate_rttm] writes for two speakers is read back
    by [rttm_to_annotation] as two Labeled Segments, [speaker_A] then
    [speaker_B], whose times are the printed ones: the first from 0.0 for
    half of the duration as printed, the second from that printed half for
    the same time.  This holds for a file id that is one word; the parser
    raises [ValueError] only if it cannot read a printed number. *)
Theorem generated_rttm_round_trip (file_id : string) (duration half : float) :
  token file_id = true ->
  truediv_int duration 2 = Done half ->
  token (format_1f half) = true ->
  exists text,
    generate_rttm chr file_id duration 2 = Done text
    /\ rttm_to_annotation text
       = match float_of_str "0.0", float_of_str (format_1f half) with
         | Some zero, Some h =>
             Ok (Annotation_setitem
                   (Annotation_setitem Annotation_new
                      (mkSegment (VFloat zero) (VFloat (float_add zero h)))
                      (VStr "speaker_A"))
                   (mkSegment (VFloat h) (VFloat (float_add h h)))
                   (VStr "speaker_B"))
         | _, _ => Raise ValueError
         end.
Proof.
  intros Hid Hhalf Hprinted.
  unfold generate_rttm. cbn [Z.eqb Pos.eqb]. rewrite Hhalf.
  cbn [mbind outcome_bind]. eexists. split; [reflexivity|].
  set (t := format_1f half) in *.
  destruct (record_segment file_id "0.0" t "speaker_A" Hid eq_refl Hprinted eq_refl)
    as (Hkept_a & Hbody_a & Hseg_a).
  destruct (record_segment file_id t t "speaker_B" Hid Hprinted Hprinted eq_refl)
    as (Hkept_b & Hbody_b & Hseg_b).
  unfold rttm_to_annotation, file_lines.
  assert (lines_from [] (writelines [rttm_record file_id "0.0" t "speaker_A";
                                     rttm_record file_id t t "speaker_B"])
          = [rttm_record file_id "0.0" t "speaker_A";
             rttm_record file_id t t "speaker_B"]) as ->.
  { cbn [writelines]. rewrite FileNames.app_empty_r, !record_words.
    rewrite FileNames.app_assoc_string.
    change (NL +:+ ?x) with (String LF x).
    rewrite (lines_from_line _ _ [] Hbody_a).
    change (unwords ["SPEAKER"; file_id; "1"; t; t; "<NA>"; "<NA>"; "speaker_B";
                     "<NA>"] +:+ NL)
      with (unwords ["SPEAKER"; file_id; "1"; t; t; "<NA>"; "<NA>"; "speaker_B";
                     "<NA>"] +:+ String LF "") at 1.
    rewrite (lines_from_line _ _ [] Hbody_b). reflexivity. }
  rewrite rttm_loop_spec.
  rewrite !filter_cons_True by assumption. rewrite filter_nil.
  cbn [mapM]. rewrite Hseg_a, Hseg_b.
  destruct (float_of_str "0.0") as [zero|]; [|reflexivity].
  destruct (float_of_str t) as [h|]; reflexivity.
Qed.

End RoundTrip.

(** The file for [TEST0000] and 30 seconds: [speaker_A] from 0.0 to 15.0,
    [speaker_B] from 15.0 to 30.0. *)
Lemma test0000_round_trip :
  exists text,
    generate_rttm (FO:=Binary64_ops) (fun _ => Failed (Raised ValueError))
                  "TEST0000" (MetricAggregator.dbl "30.0") 2 = Done text
    /\ rttm_to_timeline text
       = Ok [labeled "0.0" "15.0" "speaker_A"; labeled "15.0" "30.0" "speaker_B"].
Proof.
  exact (generated_rttm_round_trip (FO:=Binary64_ops) (AN:=Timeline)
           (fun _ => Failed (Raised ValueError)) "TEST0000"
           (MetricAggregator.dbl "30.0") (MetricAggregator.dbl "15.0")
           eq_refl eq_refl eq_refl).
Defined.

End TestData.

(** ** [scripts/setup_ami.py]: the file list and the audio files *)

Module AMISetup.
Import PyStr Py.

(** An index of a slice, brought into the list: a negative index counts
    from the end. *)
Definition slice_index (len i : Z) : Z :=
  if (i <? 0)%Z then Z.max 0 (i + len) else Z.min i len.

(** [l[start:stop]] *)
Definition py_slice {A : Type} (l : list A) (start stop : Z) : list A :=
  let len := Z.of_nat (List.length l) in
  let a := slice_index len start in
  let b := slice_index len stop in
  take (Z.to_nat (b - a)) (drop (Z.to_nat a) l).

(** [[line.strip() for line in f if line.strip()]] *)
Definition listed (text : string) : list string :=
  strip <$> filter (fun line => strip line <> "") (file_lines text).

(** [self.get_test_files(num_files, offset, file_ids)]; [test_list] is the
    text of the list of the test files at [path], when the file exists. *)
Definition get_test_files (path : string) (test_list : option string)
    (num_files offset : Z) (file_ids : option (list string))
  : outcome (list string) :=
  match file_ids with
  | Some (file_id :: rest) => Done (file_id :: rest)
  | _ =>
      match test_list with
      | None => Failed (FileNotFoundError path)
      | Some text =>
          let all_files := listed text in
          Done (py_slice all_files offset (offset + num_files))
      end
  end.

Section Audio.

(** [audio_dir / name] and [path.exists()], as the file system has them. *)
Variable joinpath : string -> string -> string.
Variable path_exists : string -> bool.

(** The body of the loop of [check_audio_files]. *)
Definition check_audio_file (audio_dir : string)
    (acc : gmap string string * list string) (file_id : string)
  : gmap string string * list string :=
  let audio_file := joinpath audio_dir (FileNames.setup_wav_name file_id) in
  if path_exists audio_file
  then (<[file_id := audio_file]> acc.1, acc.2)
  else (acc.1, acc.2 ++ [file_id]).

(** [self.check_audio_files(file_ids)] *)
Definition check_audio_files (audio_dir : string) (file_ids : list string)
  : gmap string string * list string :=
  foldl (check_audio_file audio_dir) (∅, []) file_ids.

(** The audio file of [file_id] is there. *)
Definition has_audio (audio_dir file_id : string) : Prop :=
  path_exists (joinpath audio_dir (FileNames.setup_wav_name file_id)) = true.

#[local] Instance has_audio_dec (audio_dir file_id : string) :
  Decision (has_audio audio_dir file_id).
Proof. unfold has_audio. apply _. Defined.

Lemma check_audio_files_from (audio_dir : string) (file_ids : list string)
    (acc : gmap string string * list string) :
  let r := foldl (check_audio_file audio_dir) acc file_ids in
  r.2 = acc.2 ++ filter (fun file_id => ~ has_audio audio_dir file_id) file_ids
  /\ forall file_id,
      r.1 !! file_id
      = if decide (file_id ∈ file_ids /\ has_audio audio_dir file_id)
        then Some (joinpath audio_dir (FileNames.setup_wav_name file_id))
        else acc.1 !! file_id.
Proof.
  revert acc. induction file_ids as [|x rest IH]; intros acc r; subst r.
  - cbn. rewrite app_nil_r. split; [reflexivity|]. intros file_id.
    rewrite decide_False; [reflexivity|]. intros [H _].
    apply elem_of_nil in H. exact H.
  - cbn [foldl]. destruct (IH (check_audio_file audio_dir acc x)) as [Hmiss Hex].
    split.
    + rewrite Hmiss. unfold check_audio_file, has_audio.
      destruct (path_exists (joinpath audio_dir (FileNames.setup_wav_name x)))
        eqn:Hx; cbn [snd].
      * rewrite filter_cons_False by (rewrite Hx; auto). reflexivity.
      * rewrite filter_cons_True by (rewrite Hx; discriminate).
        rewrite <- app_assoc. reflexivity.
    + intros file_id. rewrite Hex.
      destruct (decide (file_id ∈ rest /\ has_audio audio_dir file_id))
        as [[Hin Hhas]|Hno].
      * rewrite decide_True; [reflexivity|]. split; [right; exact Hin | exact Hhas].
      * unfold check_audio_file.
        destruct (path_exists (joinpath audio_dir (FileNames.setup_wav_name x)))
          eqn:Hx; cbn [fst].
        -- destruct (decide (file_id = x)) as [->|Hne].
           ++ rewrite lookup_insert_eq, decide_True; [reflexivity|].
              split; [left | exact Hx].
           ++ rewrite lookup_insert_ne by congruence.
              rewrite decide_False; [reflexivity|]. intros [Hin Hhas].
              apply elem_of_cons in Hin as [->|Hin]; [congruence|]. tauto.
        -- rewrite decide_False; [reflexivity|]. intros [Hin Hhas].
           apply elem_of_cons in Hin as [->|Hin]; [|tauto].
           unfold has_audio in Hhas. congruence.
Qed.

(** X12.  [check_audio_files] sorts the file ids by whether their audio
    file is there: the missing ids are those without one, in the order
    given and as often as given; the mapping of the existing ones has
    exactly the ids with an audio file, each with the path that was
    tested; and every id given is in one of the two and not in the other. *)
Theorem check_audio_files_partition (audio_dir : string) (file_ids : list string) :
  let r := check_audio_files audio_dir file_ids in
  r.2 = filter (fun file_id => ~ has_audio audio_dir file_id) file_ids
  /\ (forall file_id,
        r.1 !! file_id
        = if decide (file_id ∈ file_ids /\ has_audio audio_dir file_id)
          then Some (joinpath audio_dir (FileNames.setup_wav_name file_id))
          else None)
  /\ (forall file_id,
        file_id ∈ file_ids ->
        (is_Some (r.1 !! file_id) /\ file_id ∉ r.2)
        \/ (r.1 !! file_id = None /\ file_id ∈ r.2)).
Proof.
  cbv zeta. unfold check_audio_files.
  destruct (check_audio_files_from audio_dir file_ids (∅, [])) as [Hmiss Hex].
  cbn [fst snd app] in Hmiss, Hex. split; [exact Hmiss|]. split.
  - intros file_id. rewrite Hex, lookup_empty. reflexivity.
  - intros file_id Hin. rewrite Hex, Hmiss, lookup_empty.
    destruct (decide (has_audio audio_dir file_id)) as [Hhas|Hno].
    + left. rewrite decide_True by tauto. split; [eauto|].
      intros H. apply list_elem_of_filter in H as [H _]. exact (H Hhas).
    + right. rewrite decide_False by tauto. split; [reflexivity|].
      apply list_elem_of_filter. tauto.
Qed.

End Audio.

Lemma slice_index_bounds (len i : Z) :
  (0 <= len -> 0 <= slice_index len i <= len)%Z.
Proof. unfold slice_index. destruct (i <? 0)%Z eqn:Hi; lia. Qed.

Lemma py_slice_sublist {A : Type} (l : list A) (start stop : Z) :
  py_slice l start stop `sublist_of` l.
Proof.
  unfold py_slice. etransitivity; [apply sublist_take | apply sublist_drop].
Qed.

Lemma py_slice_length {A : Type} (l : list A) (offset num_files : Z) :
  (0 <= num_files)%Z ->
  (List.length (py_slice l offset (offset + num_files)) <= Z.to_nat num_files)%nat.
Proof.
  intros Hnum. unfold py_slice. rewrite length_take.
  pose proof (Nat2Z.is_nonneg (List.length l)) as Hlen.
  etransitivity; [apply Nat.le_min_l|].
  unfold slice_index.
  destruct (offset <? 0)%Z eqn:Ho; destruct (offset + num_files <? 0)%Z eqn:Hs; lia.
Qed.

Lemma py_slice_from (A : Type) (l : list A) (offset num_files : Z) :
  (0 <= offset)%Z -> (0 <= num_files)%Z ->
  py_slice l offset (offset + num_files)
  = take (Z.to_nat num_files) (drop (Z.to_nat offset) l).
Proof.
  intros Ho Hn. unfold py_slice, slice_index.
  assert ((offset <? 0)%Z = false) as -> by lia.
  assert ((offset + num_files <? 0)%Z = false) as -> by lia.
  destruct (Z_le_gt_dec (Z.of_nat (List.length l)) offset) as [Hbig|Hsmall].
  - rewrite !drop_ge by lia. rewrite !take_nil. reflexivity.
  - replace (Z.to_nat (Z.min offset (Z.of_nat (List.length l))))
      with (Z.to_nat offset) by lia.
    destruct (Z_le_gt_dec (offset + num_files) (Z.of_nat (List.length l)))
      as [Hfit|Hover].
    + f_equal. lia.
    + rewrite !take_ge; [reflexivity | |]; rewrite length_drop; lia.
Qed.

Lemma py_slice_run {A : Type} (l : list A) (start stop : Z) :
  exists before after,
    l = before ++ py_slice l start stop ++ after
    /\ Z.of_nat (List.length before)
       = slice_index (Z.of_nat (List.length l)) start.
Proof.
  pose proof (slice_index_bounds (Z.of_nat (List.length l)) start
                (Nat2Z.is_nonneg _)) as Ha.
  unfold py_slice. cbv zeta.
  set (a := slice_index (Z.of_nat (List.length l)) start) in *.
  set (b := slice_index (Z.of_nat (List.length l)) stop).
  exists (take (Z.to_nat a) l),
         (drop (Z.to_nat (b - a)) (drop (Z.to_nat a) l)).
  split.
  - rewrite take_drop, take_drop. reflexivity.
  - rewrite length_take. lia.
Qed.

(** X11.  [get_test_files] returns the file ids it is given when there
    are some, without looking for the list of test files; otherwise it
    raises [FileNotFoundError] when the list is missing, and else returns
    a run of consecutive names of the list, for every offset and every
    [num_files], negative ones included: the list is some names, then the
    names returned, then some names, and the names before the run are as
    many as the offset, at most all of them, or, for a negative offset,
    all but the last [- offset] ones.  The list holds the stripped lines
    of the file that are not blank; the run has at most [num_files] names
    when [num_files] is not negative, and, when the offset is not negative
    either, it is the first [num_files] names after the first [offset]
    ones. *)
Theorem get_test_files_spec (path : string) (test_list : option string)
    (num_files offset : Z) (file_ids : option (list string)) :
  match file_ids, test_list with
  | Some (file_id :: rest), _ =>
      get_test_files path test_list num_files offset file_ids
      = Done (file_id :: rest)
  | _, None =>
      get_test_files path test_list num_files offset file_ids
      = Failed (FileNotFoundError path)
  | _, Some text =>
      exists files,
        get_test_files path test_list num_files offset file_ids = Done files
        /\ (exists before after,
              listed text = before ++ files ++ after
              /\ Z.of_nat (List.length before)
                 = let len := Z.of_nat (List.length (listed text)) in
                   if (offset <? 0)%Z then Z.max 0 (offset + len)
                   else Z.min offset len)
        /\ files `sublist_of` (strip <$> file_lines text)
        /\ Forall (fun file => file <> "") files
        /\ ((0 <= num_files)%Z -> (List.length files <= Z.to_nat num_files)%nat)
        /\ ((0 <= offset)%Z -> (0 <= num_files)%Z ->
            files = take (Z.to_nat num_files) (drop (Z.to_nat offset) (listed text)))
  end.
Proof.
  assert (forall text,
            exists files,
              Done (py_slice (listed text) offset (offset + num_files)) = Done files
              /\ (exists before after,
                    listed text = before ++ files ++ after
                    /\ Z.of_nat (List.length before)
                       = let len := Z.of_nat (List.length (listed text)) in
                         if (offset <? 0)%Z then Z.max 0 (offset + len)
                         else Z.min offset len)
              /\ files `sublist_of` (strip <$> file_lines text)
              /\ Forall (fun file => file <> "") files
              /\ ((0 <= num_files)%Z -> (List.length files <= Z.to_nat num_files)%nat)
              /\ ((0 <= offset)%Z -> (0 <= num_files)%Z ->
                  files = take (Z.to_nat num_files)
                               (drop (Z.to_nat offset) (listed text))))
    as Hlisted.
  { intros text. eexists. split; [reflexivity|]. split; [|split; [|split; [|split]]].
    - apply py_slice_run.
    - etransitivity; [apply py_slice_sublist|].
      unfold listed. apply fmap_sublist, sublist_filter.
    - apply Forall_forall. intros file Hfile.
      eapply elem_of_sublist in Hfile; [|apply py_slice_sublist].
      unfold listed in Hfile. apply list_elem_of_fmap in Hfile as (line & -> & Hline).
      apply list_elem_of_filter in Hline as [Hline _]. exact Hline.
    - apply py_slice_length.
    - apply py_slice_from. }
  destruct file_ids as [[|file_id rest]|]; destruct test_list as [text|];
    cbn [get_test_files]; first [reflexivity | apply Hlisted].
Qed.

End AMISetup.

(** ** [DatabaseManager.session]: commit, rollback and close

    The context manager of [benchmark/core/database.py], on a session
    whose calls change its state and may raise.  The calls the context
    manager itself makes are recorded, in order. *)

Module Database.

Inductive call : Type := Commit | Rollback | Close.

Section Session.

(** The state of the session, what a block returns, and the exceptions. *)
Variables (S A E : Type).

(** [isinstance(e, Exception)]: [except Exception] does not catch the
    other exceptions, such as [KeyboardInterrupt] or a cancellation. *)
Variable is_Exception : E -> bool.

(** [await session.commit()], [await session.rollback()] and
    [await session.close()]: the state after the call, and the exception
    when the call raises. *)
Variables (commit rollback close : S -> S * option E).

(** The [finally] clause. *)
Definition finish (s : S) (calls : list call) (r : A + E)
  : list call * S * (A + E) :=
  let '(s', raised) := close s in
  (calls ++ [Close], s',
   match raised with
   | Some e => inr e
   | None => r
   end).

(** An exception [e] at the [yield] or in the [commit]: the [except]
    clause when it catches [e], then the [finally] clause. *)
Definition handle (s : S) (calls : list call) (e : E)
  : list call * S * (A + E) :=
  if is_Exception e then
    let '(s', raised) := rollback s in
    finish s' (calls ++ [Rollback]) (inr (default e raised))
  else finish s calls (inr e).

(** [async with db_manager.session() as session: body]: the calls made by
    the context manager, the state of the session at the end, and what the
    statement returns or raises. *)
Definition session (body : S -> S * (A + E)) (s0 : S)
  : list call * S * (A + E) :=
  let '(s1, r) := body s0 in
  match r with
  | inr e => handle s1 [] e
  | inl a =>
      let '(s2, raised) := commit s1 in
      match raised with
      | Some e => handle s2 [Commit] e
      | None => finish s2 [Commit] (inl a)
      end
  end.

(** Membership in a list of calls that is given in full. *)
Ltac calls_solver :=
  cbn [app];
  first [ solve [intros;
                 repeat first [apply list_elem_of_here | apply list_elem_of_further]]
        | let H := fresh in
          intros H; exfalso;
          repeat (apply elem_of_cons in H as [H|H]; [discriminate H|]);
          apply elem_of_nil in H; exact H ].

(** X13.  Whatever the block and the session do, the context manager
    calls [close] exactly once, as its last call.  It calls [commit]
    exactly when the block returned, and [rollback] exactly when the
    block, or the [commit] after it, raised an [Exception].  The statement
    returns a value exactly when the block returned that value and neither
    the [commit] after the block nor the [close] after the [commit]
    raised; it has then made the calls [commit], [close] and no other. *)
Theorem session_always_closes (body : S -> S * (A + E)) (s0 : S) :
  let '(calls, _, r) := session body s0 in
  (exists before, calls = before ++ [Close] /\ Close ∉ before)
  /\ (Commit ∈ calls <-> exists a, (body s0).2 = inl a)
  /\ (Rollback ∈ calls <->
      (exists e, (body s0).2 = inr e /\ is_Exception e = true)
      \/ (exists a e, (body s0).2 = inl a
                     /\ (commit (body s0).1).2 = Some e
                     /\ is_Exception e = true))
  /\ (forall a, r = inl a <->
      (body s0).2 = inl a /\ (commit (body s0).1).2 = None
      /\ (close (commit (body s0).1).1).2 = None)
  /\ (forall a, r = inl a -> calls = [Commit; Close]).
Proof.
  unfold session, handle, finish.
  destruct (body s0) as [s1 [a|e]] eqn:Hbody; cbn [fst snd].
  - destruct (commit s1) as [s2 [e|]] eqn:Hcommit; cbn [fst snd].
    + destruct (is_Exception e) eqn:He.
      * destruct (rollback s2) as [s3 raised]. destruct (close s3) as [s4 closed].
        split; [exists [Commit; Rollback]; split; [reflexivity | calls_solver]|].
        split; [split; [eauto | calls_solver]|].
        split; [split; [eauto 10 | calls_solver]|].
        split; [|intros a' H; destruct closed; discriminate H].
        intros a'; split; [intros H; destruct closed; discriminate H|].
        intros (_ & H & _); discriminate H.
      * destruct (close s2) as [s3 closed].
        split; [exists [Commit]; split; [reflexivity | calls_solver]|].
        split; [split; [eauto | calls_solver]|].
        split.
        { split; [calls_solver|].
          intros [(e' & H & _) | (a' & e' & _ & H & He')]; [discriminate|].
          injection H as <-. congruence. }
        split; [|intros a' H; destruct closed; discriminate H].
        intros a'; split; [intros H; destruct closed; discriminate H|].
        intros (_ & H & _); discriminate H.
    + destruct (close s2) as [s3 closed] eqn:Hclose.
      split; [exists [Commit]; split; [reflexivity | calls_solver]|].
      split; [split; [eauto | calls_solver]|].
      split.
      { split; [calls_solver|].
        intros [(e' & H & _) | (a' & e' & _ & H & _)]; discriminate. }
      split.
      { intros a'. cbn [fst snd]. destruct closed; split.
        - intros H; discriminate H.
        - intros (_ & _ & H); discriminate H.
        - intros H; injection H as <-. auto.
        - intros (H & _); injection H as <-. reflexivity. }
      intros a' H. destruct closed; [discriminate|]. reflexivity.
  - destruct (is_Exception e) eqn:He.
    + destruct (rollback s1) as [s2 raised]. destruct (close s2) as [s3 closed].
      split; [exists [Rollback]; split; [reflexivity | calls_solver]|].
      split.
      { split; [calls_solver | intros [a H]; discriminate]. }
      split; [split; [eauto | calls_solver]|].
      split; [|intros a' H; destruct closed; discriminate H].
      intros a'; split; [intros H; destruct closed; discriminate H|].
      intros (H & _); discriminate H.
    + destruct (close s1) as [s2 closed].
      split; [exists []; split; [reflexivity | calls_solver]|].
      split.
      { split; [calls_solver | intros [a H]; discriminate]. }
      split.
      { split; [calls_solver|].
        intros [(e' & H & He') | (a' & e' & H & _)]; [|discriminate].
        injection H as <-. congruence. }
      split; [|intros a' H; destruct closed; discriminate H].
      intros a'; split; [intros H; destruct closed; discriminate H|].
      intros (H & _); discriminate H.
Qed.

End Session.

End Database.

(** ** [scheduler.py]: the schedules and the mode of a run *)

Module Scheduler.
Import DiarizationMetrics Py.

Section Schedules.
Context `{FO : PyFloatOps}.

(** [bool(v)] *)
Definition truthy (v : pyval) : bool :=
  match v with
  | VNone => false
  | VBool b => b
  | VInt z => negb (z =? 0)%Z
  | VFloat x => negb (float_eqb x float_zero)
  | VStr s => negb (String.eqb s "")
  | VList l => match l with [] => false | _ => true end
  | VDict d => negb (bool_decide (d = ∅))
  end.

(** [s.get("enabled", True)], as a condition *)
Definition enabled (s : pyval) : result bool :=
  v ← ComputeMetrics.dict_get s "enabled" (VBool true);
  Ok (truthy v).

(** [[s for s in schedules if s.get("enabled", True)]] *)
Fixpoint enabled_only (schedules : list pyval) : result (list pyval) :=
  match schedules with
  | [] => Ok []
  | s :: rest =>
      keep ← enabled s;
      kept ← enabled_only rest;
      Ok (if (keep : bool) then s :: kept else kept)
  end.

(** [load_schedule_config(config_path)]; [config] is what [yaml.safe_load]
    gives for the file at [path], when the file exists. *)
Definition load_schedule_config (path : string) (config : option pyval)
  : outcome (list pyval) :=
  match config with
  | None => Failed (FileNotFoundError path)
  | Some config =>
      schedules ← of_result (ComputeMetrics.dict_get config "schedules" (VList []));
      items ← of_result (py_iter schedules);
      enabled_schedules ← of_result (enabled_only items);
      match enabled_schedules with
      | [] => Failed (Raised ValueError)
      | _ => Done enabled_schedules
      end
  end.

(** A schedule is on: it has no [enabled] entry, or one that is true. *)
Definition is_on (schedule : gmap string pyval) : bool :=
  match schedule !! "enabled" with
  | None => true
  | Some v => truthy v
  end.

Lemma enabled_only_mappings (schedules : list (gmap string pyval)) :
  enabled_only (VDict <$> schedules)
  = Ok (VDict <$> filter (fun s => is_on s = true) schedules).
Proof.
  induction schedules as [|s rest IH]; [reflexivity|].
  cbn [fmap list_fmap enabled_only]. fold (VDict <$> rest). rewrite IH.
  unfold enabled, ComputeMetrics.dict_get. cbn [mbind result_bind].
  assert (truthy (default (VBool true) (s !! "enabled")) = is_on s) as ->.
  { unfold is_on. destruct (s !! "enabled"); reflexivity. }
  destruct (is_on s) eqn:Hs.
  - rewrite filter_cons_True by exact Hs. reflexivity.
  - rewrite filter_cons_False by congruence. reflexivity.
Qed.

(** X14.  For a configuration that is a mapping whose [schedules], when
    present, is a list of mappings, [load_schedule_config] returns the
    schedules that are on, in the order of the file: those without an
    [enabled] entry and those whose [enabled] entry is true ([enabled:
    null] turns a schedule off).  It raises [ValueError] exactly when no
    schedule is on, so what it returns is never empty. *)
Theorem load_schedule_config_enabled (path : string)
    (config : gmap string pyval) (schedules : list (gmap string pyval)) :
  default (VList []) (config !! "schedules") = VList (VDict <$> schedules) ->
  load_schedule_config path (Some (VDict config))
  = match filter (fun s => is_on s = true) schedules with
    | [] => Failed (Raised ValueError)
    | kept => Done (VDict <$> kept)
    end.
Proof.
  intros Hschedules. unfold load_schedule_config, ComputeMetrics.dict_get.
  rewrite Hschedules. cbn [of_result mbind outcome_bind py_iter].
  rewrite enabled_only_mappings. cbn [of_result mbind outcome_bind].
  destruct (filter (fun s => is_on s = true) schedules); reflexivity.
Qed.

End Schedules.

(** Three schedules: one without [enabled], one with [enabled: false],
    one with [enabled: null]. *)
Definition weekly : gmap string (pyval (H:=Binary64_float)) :=
  <["dataset" := VStr "ami"]> (<["interval_hours" := VInt 168]> ∅).

Definition switched_off : gmap string (pyval (H:=Binary64_float)) :=
  <["dataset" := VStr "sequestered"]>
    (<["interval_hours" := VInt 24]> (<["enabled" := VBool false]> ∅)).

Definition left_blank : gmap string (pyval (H:=Binary64_float)) :=
  <["dataset" := VStr "demo"]>
    (<["interval_hours" := VInt 1]> (<["enabled" := VNone]> ∅)).

Definition schedule_file : gmap string (pyval (H:=Binary64_float)) :=
  <["schedules" := VList (VDict <$> [weekly; switched_off; left_blank])]> ∅.

(** Only the schedule without [enabled] is returned. *)
Lemma weekly_is_loaded :
  load_schedule_config (FO:=Binary64_ops) "config/schedule.yaml"
                       (Some (VDict schedule_file))
  = Done [VDict weekly].
Proof.
  exact (load_schedule_config_enabled (FO:=Binary64_ops) "config/schedule.yaml"
           schedule_file [weekly; switched_off; left_blank] eq_refl).
Defined.

(** The mode [main] runs in. *)
Inductive mode : Type :=
| ExitNeedsBoth
| ExitIntervalTooSmall
| SimpleMode (interval : Z) (dataset : string)
| ConfigMode.

(** [bool(args.interval)] and [bool(args.dataset)]: an option that was
    not given is [None]. *)
Definition given_int (o : option Z) : bool :=
  match o with
  | Some z => negb (z =? 0)%Z
  | None => false
  end.

Definition given_str (o : option string) : bool :=
  match o with
  | Some s => negb (String.eqb s "")
  | None => false
  end.

(** What [main] does with [--interval] and [--dataset]: it exits with
    status 1 after one of its two messages, runs [schedule_loop], or runs
    the scheduler of the configuration file. *)
Definition select_mode (interval : option Z) (dataset : option string) : mode :=
  if given_int interval || given_str dataset then
    if negb (given_int interval && given_str dataset) then ExitNeedsBoth
    else if (default 0%Z interval <? 1)%Z then ExitIntervalTooSmall
    else SimpleMode (default 0%Z interval) (default "" dataset)
  else ConfigMode.

(** [interval_seconds = interval_hours * 3600] *)
Definition interval_seconds (interval_hours : Z) : Z := (interval_hours * 3600)%Z.

(** The cases of [select_mode]: what was given, and how it compares. *)
Ltac mode_solver :=
  repeat match goal with
         | H : _ /\ _ |- _ => destruct H
         | H : _ \/ _ |- _ => destruct H
         | H : exists _, _ |- _ => destruct H
         | H : Some _ = Some _ |- _ => injection H as H
         | H : SimpleMode _ _ = SimpleMode _ _ |- _ => injection H as ? ?
         end;
  subst;
  first [ discriminate | congruence | lia
        | solve [repeat first [split | reflexivity | assumption | lia | congruence
                              | left; (reflexivity || congruence)
                              | right; (reflexivity || congruence)
                              | eexists]] ].

(** X15.  [main] runs the simple mode exactly when [--interval] is at
    least 1 and [--dataset] is not empty, and then the loop sleeps at
    least 3600 seconds between runs.  It reports an interval that is too
    small only for a negative interval given with a dataset.  An interval
    of 0 counts as not given: alone, or with an empty dataset, it starts
    the scheduler of the configuration file. *)
Theorem select_mode_spec (interval : option Z) (dataset : option string) :
  (forall (i : Z) (d : string),
     select_mode interval dataset = SimpleMode i d
     <-> interval = Some i /\ dataset = Some d /\ (1 <= i)%Z /\ d <> "")
  /\ (forall (i : Z) (d : string),
       select_mode interval dataset = SimpleMode i d ->
       (3600 <= interval_seconds i)%Z)
  /\ (select_mode interval dataset = ExitIntervalTooSmall
      <-> exists (i : Z) (d : string),
          interval = Some i /\ dataset = Some d /\ (i < 0)%Z /\ d <> "")
  /\ (select_mode interval dataset = ConfigMode
      <-> (interval = None \/ interval = Some 0%Z)
          /\ (dataset = None \/ dataset = Some "")).
Proof.
  unfold select_mode, given_int, given_str, interval_seconds.
  destruct interval as [z|]; destruct dataset as [s|]; cbn [default from_option id];
    try destruct (Z.eqb_spec z 0) as [Hz|Hz];
    try destruct (String.eqb_spec s "") as [Hs|Hs];
    cbn [negb orb andb];
    try destruct (Z.ltb_spec z 1) as [Hlt|Hge];
    (split; [|split; [|split]]); intros;
    try (split; intros);
    mode_solver.
Qed.

End Scheduler.

(** ** [MockDiarizer]: the simulated response *)

Module MockDiarizer.
Import DiarizationMetrics Py.

Section Mock.
Context `{FO : PyFloatOps} `{AN : !AnnotationT}.

(** The float a literal of the source denotes. *)
Variable float_literal : string -> float.

(** [frames / float(rate)] *)
Definition wav_duration (frames rate : Z) : outcome float :=
  match float_of_int rate with
  | None => Failed (Raised OverflowError)
  | Some r =>
      match float_of_int frames with
      | None => Failed (Raised OverflowError)
      | Some f =>
          if float_eqb r float_zero then Failed ZeroDivisionError
          else Done (float_div f r)
      end
  end.

(** The [try] statement of [_generate_demo_response]: the duration of the
    WAV file, or 30.0 when reading the file or the division raised;
    [wav] is the number of frames and the frame rate that the [wave]
    module reads, when it reads them. *)
Definition demo_duration (wav : option (Z * Z)) : float :=
  match wav with
  | Some (frames, rate) =>
      match wav_duration frames rate with
      | Done duration => duration
      | Failed _ => float_literal "30.0"
      end
  | None => float_literal "30.0"
  end.

Definition demo_segment (start end_ : float) (speaker confidence : string)
  : pyval :=
  VDict (<["start" := VFloat start]>
           (<["end" := VFloat end_]>
              (<["speaker" := VStr speaker]>
                 (<["confidence" := VFloat (float_literal confidence)]> ∅)))).

(** [self._generate_demo_response(audio_path)] *)
Definition generate_demo_response (wav : option (Z * Z)) : gmap string pyval :=
  let duration := demo_duration wav in
  let segments :=
    [demo_segment float_zero (float_mul duration (float_literal "0.45"))
                  "SPEAKER_00" "0.92";
     demo_segment (float_mul duration (float_literal "0.45"))
                  (float_mul duration (float_literal "0.48"))
                  "OVERLAP" "0.78";
     demo_segment (float_mul duration (float_literal "0.48")) duration
                  "SPEAKER_01" "0.89"] in
  <["segments" := VList segments]>
    (<["num_speakers" := VInt 2]>
       (<["duration" := VFloat duration]>
          (<["model" := VStr "mock-demo"]>
             (<["mock_mode" := VBool true]> ∅)))).

(** [await self.diarize(audio_path)]; [audio] is [None] when there is no
    file at [audio_path], and else what [wave] reads of it. *)
Definition diarize (audio_path : string) (audio : option (option (Z * Z)))
  : outcome (gmap string pyval) :=
  match audio with
  | None => Failed (FileNotFoundError audio_path)
  | Some wav => Done (generate_demo_response wav)
  end.

(** X16.  Whatever the audio file holds, the response of the mock is
    accepted by [hypothesis_to_annotation]: it gives three Labeled
    Segments, [SPEAKER_00], [OVERLAP] and [SPEAKER_01], each one starting
    where the one before ends, from 0.0 to the duration the response
    reports; the duration is 30.0 when the file cannot be read as a WAV
    file or its frame rate is 0. *)
Theorem demo_response_is_accepted (wav : option (Z * Z)) :
  exists duration cut1 cut2,
    generate_demo_response wav !! "duration" = Some (VFloat duration)
    /\ hypothesis_to_annotation (generate_demo_response wav)
       = Ok (Annotation_setitem
               (Annotation_setitem
                  (Annotation_setitem Annotation_new
                     (mkSegment (VFloat float_zero) (VFloat cut1))
                     (VStr "SPEAKER_00"))
                  (mkSegment (VFloat cut1) (VFloat cut2)) (VStr "OVERLAP"))
               (mkSegment (VFloat cut2) (VFloat duration)) (VStr "SPEAKER_01"))
    /\ (wav = None -> duration = float_literal "30.0")
    /\ (forall frames rate zero,
          wav = Some (frames, rate) ->
          float_of_int rate = Some zero -> float_eqb zero float_zero = true ->
          duration = float_literal "30.0").
Proof.
  exists (demo_duration wav),
    (float_mul (demo_duration wav) (float_literal "0.45")),
    (float_mul (demo_duration wav) (float_literal "0.48")).
  split; [reflexivity|]. split; [reflexivity|]. split.
  - intros ->. reflexivity.
  - intros frames rate zero -> Hrate Hzero. unfold demo_duration, wav_duration.
    rewrite Hrate, Hzero. destruct (float_of_int frames); reflexivity.
Qed.

End Mock.

End MockDiarizer.

(** ** Reference files put one after the other *)

Module RttmFiles.
Import PyStr DiarizationMetrics.

(** The lines of a text that ends a line, followed by another text. *)
Lemma lines_from_app (a b : string) (cur : list ascii) :
  lines_from cur (a +:+ NL +:+ b)
  = lines_from cur (a +:+ NL) ++ lines_from [] b.
Proof.
  remember (String.length a) as n eqn:Hn. revert a cur Hn.
  induction n as [n IH] using lt_wf_ind. intros a cur Hn.
  destruct a as [|c a]; [reflexivity|].
  change (String c a +:+ NL +:+ b) with (String c (a +:+ NL +:+ b)).
  change (String c a +:+ NL) with (String c (a +:+ NL)).
  cbn [String.length] in Hn. cbn [lines_from].
  destruct (Ascii.eqb c LF).
  { rewrite (IH (String.length a)) by (lia || reflexivity). reflexivity. }
  destruct (Ascii.eqb c CR); [|apply (IH (String.length a)); (lia || reflexivity)].
  destruct a as [|c' a]; [reflexivity|].
  change (String c' a +:+ NL +:+ b) with (String c' (a +:+ NL +:+ b)).
  change (String c' a +:+ NL) with (String c' (a +:+ NL)).
  cbv iota beta. cbn [String.length] in Hn.
  destruct (Ascii.eqb c' LF).
  - rewrite (IH (String.length a)) by (lia || reflexivity). reflexivity.
  - change (String c' (a +:+ NL +:+ b)) with (String c' a +:+ NL +:+ b).
    change (String c' (a +:+ NL)) with (String c' a +:+ NL).
    rewrite (IH (String.length (String c' a))) by (cbn; lia || reflexivity).
    reflexivity.
Qed.

Lemma mapM_app {A B : Type} (f : A -> option B) (l1 l2 : list A) :
  mapM f (l1 ++ l2)
  = match mapM f l1, mapM f l2 with
    | Some k1, Some k2 => Some (k1 ++ k2)
    | _, _ => None
    end.
Proof.
  induction l1 as [|x l1 IH].
  - cbn [app mapM]. destruct (mapM f l2); reflexivity.
  - cbn [app mapM]. destruct (f x) as [y|]; [|reflexivity].
    cbn [mbind option_bind]. rewrite IH.
    destruct (mapM f l1) as [k1|]; [|reflexivity].
    destruct (mapM f l2) as [k2|]; reflexivity.
Qed.

Section Concatenation.
Context `{FL : PyFloat} `{AN : !AnnotationT}.

(** X17.  The reference made of two files, the first one ending its last
    line, reads as the records of the first followed by the records of
    the second: the parser keeps the lines it keeps of each, in order, and
    raises [ValueError] exactly when a kept line of one of them has a
    start or a duration that is no float. *)
Theorem rttm_files_concatenate (first second : string) :
  kept_lines (first +:+ NL +:+ second)
  = kept_lines (first +:+ NL) ++ kept_lines second
  /\ rttm_to_annotation (first +:+ NL +:+ second)
     = match mapM line_segment (kept_lines (first +:+ NL)),
             mapM line_segment (kept_lines second) with
       | Some segments, Some more =>
           Ok (insert_all Annotation_new (segments ++ more))
       | _, _ => Raise ValueError
       end.
Proof.
  assert (kept_lines (first +:+ NL +:+ second)
          = kept_lines (first +:+ NL) ++ kept_lines second) as Hkept.
  { unfold kept_lines, file_lines. rewrite lines_from_app. apply filter_app. }
  split; [exact Hkept|].
  unfold rttm_to_annotation. rewrite rttm_loop_spec.
  fold (kept_lines (first +:+ NL +:+ second)). rewrite Hkept, mapM_app.
  destruct (mapM line_segment (kept_lines (first +:+ NL))); [|reflexivity].
  destruct (mapM line_segment (kept_lines second)); reflexivity.
Qed.

End Concatenation.

End RttmFiles.
